(** * Month-end screening cascade of the NSE swing strategy

    A shallow embedding of the four screening scripts

      - [generate_volume_cut.py]  (Liquidity stage),
      - [sma_cut.py]              (Trend-Level stage),
      - [sma_angle_cut.py]        (Trend-Slope stage),
      - [relative_rank.py]        (Relative-Strength ranker),

    followed by the properties checked against them.

    Conventions of the embedding.
      - A pandas [Timestamp] is an integer number of nanoseconds since the
        epoch; [.date()] is the floor division by the length of a day.
      - A cell of a price or volume column is a finite number or NaN:
        [obs := option Q].  Derived floats (returns, ratios, slopes) can also
        be infinite: [num].  Arithmetic is exact (rounding is abstracted) and
        zero is unsigned (a division of a non-zero number by zero yields the
        infinity of the sign of the numerator).
      - A Python exception that escapes a script is a [Raise] result.
      - pandas, numpy and dateutil functions are modelled from their
        documented behaviour; [np.arctan] on finite arguments and [np.pi] are
        parameters of the Trend-Slope stage. *)

From Stdlib Require Import List ZArith QArith Qround Qabs Bool String Ascii.
From Stdlib Require Import Permutation Sorted Lia Lqa DecimalString.
Import ListNotations.

Open Scope Z_scope.

(* [String] is imported for its type and order; the list functions keep
   their short names. *)
Abbreviation length := List.length (only parsing).
Abbreviation concat := List.concat (only parsing).

(** ** Exceptions *)

Inductive exn : Set := ValueError | IndexError | KeyError.

Inductive result (A : Type) : Type :=
| Ok (a : A)
| Raise (e : exn).

Arguments Ok {A} a.
Arguments Raise {A} e.

Definition bind {A B : Type} (m : result A) (k : A -> result B) : result B :=
  match m with
  | Ok a => k a
  | Raise e => Raise e
  end.

Declare Scope result_scope.
Delimit Scope result_scope with result.
Notation "x <- m ;; k" := (bind m (fun x => k))
  (at level 61, m at next level, right associativity) : result_scope.
Open Scope result_scope.

(** [[x for x in l if f x]] where evaluating [f x] may raise. *)
Fixpoint filterM {A : Type} (f : A -> result bool) (l : list A) : result (list A) :=
  match l with
  | [] => Ok []
  | x :: l' =>
      b <- f x ;;
      r <- filterM f l' ;;
      Ok (if b then x :: r else r)
  end.

(** A [for] loop that appends at most one entry per element. *)
Fixpoint collectM {A B : Type} (f : A -> result (option B)) (l : list A)
  : result (list B) :=
  match l with
  | [] => Ok []
  | x :: l' =>
      o <- f x ;;
      r <- collectM f l' ;;
      Ok (match o with Some y => y :: r | None => r end)
  end.

(** A [for] loop that appends exactly one entry per element. *)
Fixpoint mapM {A B : Type} (f : A -> result B) (l : list A) : result (list B) :=
  match l with
  | [] => Ok []
  | x :: l' =>
      y <- f x ;;
      r <- mapM f l' ;;
      Ok (y :: r)
  end.

(** ** Numbers *)

Definition obs : Type := option Q.

Inductive num : Type :=
| Fin (q : Q)
| PInf
| NInf
| NaN.

Definition of_obs (o : obs) : num :=
  match o with
  | Some q => Fin q
  | None => NaN
  end.

Definition Qlt_bool (x y : Q) : bool := negb (Qle_bool y x).

Module Num.

#[local] Open Scope Q_scope.

(** [pd.notna]. *)
Definition notna (x : num) : bool :=
  match x with NaN => false | _ => true end.

Definition sub (x y : num) : num :=
  match x, y with
  | NaN, _ | _, NaN => NaN
  | Fin a, Fin b => Fin (a - b)
  | Fin _, PInf => NInf
  | Fin _, NInf => PInf
  | PInf, PInf => NaN
  | PInf, _ => PInf
  | NInf, NInf => NaN
  | NInf, _ => NInf
  end.

(** The infinity of the sign of [a], for [a] non-zero; NaN for zero. *)
Definition signed_inf (a : Q) : num :=
  if Qlt_bool 0 a then PInf else if Qlt_bool a 0 then NInf else NaN.

Definition mul (x y : num) : num :=
  match x, y with
  | NaN, _ | _, NaN => NaN
  | Fin a, Fin b => Fin (a * b)
  | Fin a, PInf | PInf, Fin a => signed_inf a
  | Fin a, NInf | NInf, Fin a => signed_inf (- a)
  | PInf, PInf | NInf, NInf => PInf
  | PInf, NInf | NInf, PInf => NInf
  end.

Definition div (x y : num) : num :=
  match x, y with
  | NaN, _ | _, NaN => NaN
  | Fin a, Fin b => if Qeq_bool b 0 then signed_inf a else Fin (a / b)
  | Fin _, PInf | Fin _, NInf => Fin 0
  | PInf, Fin b => if Qlt_bool b 0 then NInf else PInf
  | NInf, Fin b => if Qlt_bool b 0 then PInf else NInf
  | PInf, _ | NInf, _ => NaN
  end.

(** [x == y] on floats: false as soon as one side is NaN. *)
Definition eqb (x y : num) : bool :=
  match x, y with
  | Fin a, Fin b => Qeq_bool a b
  | PInf, PInf | NInf, NInf => true
  | _, _ => false
  end.

(** [x < y] on floats: false as soon as one side is NaN. *)
Definition ltb (x y : num) : bool :=
  match x, y with
  | NaN, _ | _, NaN => false
  | Fin a, Fin b => Qlt_bool a b
  | NInf, NInf | PInf, _ => false
  | NInf, _ => true
  | Fin _, PInf => true
  | Fin _, NInf => false
  end.

(** [x <= y] on floats: false as soon as one side is NaN. *)
Definition leb (x y : num) : bool :=
  match x, y with
  | NaN, _ | _, NaN => false
  | Fin a, Fin b => Qle_bool a b
  | NInf, _ | _, PInf => true
  | PInf, _ => false
  | Fin _, NInf => false
  end.

Definition gtb (x y : num) : bool := ltb y x.
Definition geb (x y : num) : bool := leb y x.

(** Equality of float values: the same special value, or equal rationals. *)
Definition eqv (x y : num) : Prop :=
  match x, y with
  | Fin a, Fin b => a == b
  | PInf, PInf | NInf, NInf | NaN, NaN => True
  | _, _ => False
  end.

End Num.

(** ** Timestamps and the civil calendar *)

Definition Timestamp : Type := Z.

Module Calendar.

Definition ns_per_day : Z := 86400000000000.

(** [ts.date()], as a day number (days since 1970-01-01). *)
Definition date_of (t : Timestamp) : Z := t / ns_per_day.

(** [pd.to_datetime] of a ['%Y-%m-%d'] string: midnight of that day. *)
Definition midnight (d : Z) : Timestamp := d * ns_per_day.

(** [pd.Timedelta(days=window * 1.5)], in nanoseconds. *)
Definition warmup (window : Z) : Z := window * 129600000000000.

(** Proleptic Gregorian (year, month, day) of a day number. *)
Definition civil_from_days (z : Z) : Z * Z * Z :=
  let z := z + 719468 in
  let era := z / 146097 in
  let doe := z - era * 146097 in
  let yoe := (doe - doe / 1460 + doe / 36524 - doe / 146096) / 365 in
  let doy := doe - (365 * yoe + yoe / 4 - yoe / 100) in
  let mp := (5 * doy + 2) / 153 in
  let d := doy - (153 * mp + 2) / 5 + 1 in
  let m := if mp <? 10 then mp + 3 else mp - 9 in
  let y := yoe + era * 400 in
  ((if m <=? 2 then y + 1 else y), m, d).

Definition days_from_civil (y m d : Z) : Z :=
  let y := if m <=? 2 then y - 1 else y in
  let era := y / 400 in
  let yoe := y - era * 400 in
  let doy := (153 * (if 2 <? m then m - 3 else m + 9) + 2) / 5 + d - 1 in
  let doe := yoe * 365 + yoe / 4 - yoe / 100 + doy in
  era * 146097 + doe - 719468.

Definition is_leap (y : Z) : bool :=
  ((y mod 4 =? 0) && negb (y mod 100 =? 0)) || (y mod 400 =? 0).

(** [calendar.monthrange(y, m)[1]]. *)
Definition days_in_month (y m : Z) : Z :=
  if m =? 2 then (if is_leap y then 29 else 28)
  else if (m =? 4) || (m =? 6) || (m =? 9) || (m =? 11) then 30
  else 31.

(** [index.to_period('M')], as the ordinal of the month. *)
Definition to_period_M (t : Timestamp) : Z :=
  let '(y, m, _) := civil_from_days (date_of t) in y * 12 + (m - 1).

(** [(ts - relativedelta(months=n)).date()]: the month moves back, the day
    of the month is kept and clamped to the length of the target month. *)
Definition months_back (n : Z) (t : Timestamp) : Z :=
  let '(y, m, d) := civil_from_days (date_of t) in
  let total := y * 12 + (m - 1) - n in
  let y' := total / 12 in
  let m' := total mod 12 + 1 in
  days_from_civil y' m' (Z.min (days_in_month y' m') d).

End Calendar.

(** ** Text *)

Module Text.

#[local] Open Scope string_scope.

Definition dec (n : Z) : string := NilZero.string_of_uint (N.to_uint (Z.to_N n)).

Definition pad2 (n : Z) : string := if (n <? 10)%Z then "0" ++ dec n else dec n.

(** [ts.strftime('%Y-%m-%d')] (years of a pandas [Timestamp] have four
    digits). *)
Definition strftime (t : Timestamp) : string :=
  let '(y, m, d) := Calendar.civil_from_days (Calendar.date_of t) in
  dec y ++ "-" ++ pad2 m ++ "-" ++ pad2 d.

(** [', '.join(l)]. *)
Definition join (l : list string) : string := String.concat ", " l.

(** [s.split(',')]. *)
Fixpoint split (s : string) : list string :=
  match s with
  | EmptyString => [EmptyString]
  | String c s' =>
      if Ascii.eqb c "," then EmptyString :: split s'
      else match split s' with
           | h :: t => String c h :: t
           | [] => [String c EmptyString]
           end
  end.

(** ASCII characters for which [str.isspace] holds. *)
Definition is_space (c : ascii) : bool :=
  let n := nat_of_ascii c in
  ((9 <=? n)%nat && (n <=? 13)%nat || (28 <=? n)%nat && (n <=? 32)%nat).

Fixpoint lstrip (s : string) : string :=
  match s with
  | EmptyString => EmptyString
  | String c s' => if is_space c then lstrip s' else s
  end.

Fixpoint rstrip (s : string) : string :=
  match s with
  | EmptyString => EmptyString
  | String c s' =>
      let r := rstrip s' in
      if is_space c && String.eqb r EmptyString then EmptyString else String c r
  end.

(** [s.strip()]. *)
Definition strip (s : string) : string := rstrip (lstrip s).

(** Round to the nearest integer, ties to even. *)
Definition round_half_even (q : Q) : Z :=
  let f := Qfloor q in
  match Qcompare (q - inject_Z f)%Q (1 # 2)%Q with
  | Lt => f
  | Gt => (f + 1)%Z
  | Eq => if Z.even f then f else (f + 1)%Z
  end.

(** [f"{x:.2f}"]. *)
Definition format_2f (x : num) : string :=
  match x with
  | NaN => "nan"
  | PInf => "inf"
  | NInf => "-inf"
  | Fin q =>
      let n := round_half_even (Qabs q * 100)%Q in
      (if Qlt_bool q 0 then "-" else "")
        ++ dec (n / 100)%Z ++ "." ++ pad2 (n mod 100)%Z
  end.

End Text.

(** ** Sorting

    [sorted] and [list.sort] are stable; [isort leb] is the stable sort that
    puts [x] before a later [y] exactly when [leb x y] holds. *)

Section Sorting.

Context {A : Type}.
Variable leb : A -> A -> bool.

Fixpoint insert (x : A) (l : list A) : list A :=
  match l with
  | [] => [x]
  | y :: l' => if leb x y then x :: l else y :: insert x l'
  end.

Fixpoint isort (l : list A) : list A :=
  match l with
  | [] => []
  | x :: l' => insert x (isort l')
  end.

End Sorting.

(** [sorted(names)] on strings: code-point order. *)
Definition sorted_names (l : list string) : list string := isort String.leb l.

(** [sorted(ts)] on timestamps. *)
Definition sorted_dates (l : list Timestamp) : list Timestamp := isort Z.leb l.

(** ** Data frames and dictionaries *)

(** A frame indexed by timestamps, in file order, with row payload [R]. *)
Definition frame (R : Type) : Type := list (Timestamp * R).

Section Frames.

Context {R : Type}.

(** [df.index]. *)
Definition index (df : frame R) : list Timestamp := map fst df.

(** [t in df.index]. *)
Definition in_index (t : Timestamp) (df : frame R) : bool :=
  existsb (Z.eqb t) (index df).

(** [df.loc[t, col]] used as a scalar.  With a label that occurs several
    times pandas hands back a Series, and every use the scripts make of it
    ([and], [if]) raises [ValueError]. *)
Definition loc (df : frame R) (t : Timestamp) : result R :=
  match filter (fun r => fst r =? t) df with
  | [] => Raise KeyError
  | [r] => Ok (snd r)
  | _ :: _ :: _ => Raise ValueError
  end.

(** [df.index[df.index.date == d]]. *)
Definition matching_dates (df : frame R) (d : Z) : list Timestamp :=
  filter (fun t => Calendar.date_of t =? d) (index df).

(** [df.index.min()] of a non-empty frame. *)
Definition index_min (df : frame R) : Timestamp :=
  match index df with
  | [] => 0
  | t :: ts => fold_left Z.min ts t
  end.

End Frames.

(** [x.index.max()] of a non-empty group. *)
Definition index_max (ts : list Timestamp) : Timestamp :=
  match ts with
  | [] => 0
  | t :: ts' => fold_left Z.max ts' t
  end.

(** A Python [dict] keyed by symbol, in insertion order. *)
Definition dict (V : Type) : Type := list (string * V).

Section Dicts.

Context {V : Type}.

(** [d[k] = v]: a known key keeps its place. *)
Fixpoint dict_set (k : string) (v : V) (d : dict V) : dict V :=
  match d with
  | [] => [(k, v)]
  | (k', v') :: d' =>
      if String.eqb k k' then (k, v) :: d' else (k', v') :: dict_set k v d'
  end.

(** [d[k]] guarded by [k in d]. *)
Fixpoint dict_get (k : string) (d : dict V) : option V :=
  match d with
  | [] => None
  | (k', v) :: d' => if String.eqb k k' then Some v else dict_get k d'
  end.

End Dicts.

(** ** Loading the per-symbol files (STEP 1/2 of every script) *)

(** What [pd.read_csv] makes of one file, as far as one script is concerned:
    it raises, or the column the script needs is absent, or there is a table
    (index and that column, in file order). *)
Inductive csv_file : Type :=
| Unreadable
| NoColumn
| Table (rows : frame obs).

(** The files of [DATA_FOLDER] in [glob] order, keyed by stem. *)
Definition folder : Type := list (string * csv_file).

Definition is_stock_file (stem : string) : bool :=
  negb (existsb (String.eqb stem)
          ["NIFTY500_INDEX"; "summary_report"; "combined_data"]%string).

Section Loading.

Context {R : Type}.
(** The columns a script derives and keeps for one symbol. *)
Variable derive : frame obs -> frame R.

Definition load_file (d : dict (frame R)) (f : string * csv_file) : dict (frame R) :=
  let '(stem, content) := f in
  if is_stock_file stem then
    match content with
    | Table ((_ :: _) as rows) => dict_set stem (derive rows) d
    | _ => d
    end
  else d.

Definition load_stock_data (fs : folder) : dict (frame R) :=
  fold_left load_file fs [].

End Loading.

(** ** Rolling metrics *)

Module Rolling.

(** The window pandas attaches to position [i]: rows [max(0, i+1-w) .. i]. *)
Definition window_at (w i : nat) (s : list obs) : list obs :=
  skipn (S i - w) (firstn (S i) s).

(** The non-NaN observations of a window. *)
Fixpoint valid (win : list obs) : list Q :=
  match win with
  | [] => []
  | Some q :: win' => q :: valid win'
  | None :: win' => valid win'
  end.

Definition Qsum (l : list Q) : Q := fold_left Qplus l 0%Q.

(** The mean pandas reports for a window: NaN with fewer than [minp]
    non-NaN observations, else their mean. *)
Definition mean_min_periods (minp : nat) (win : list obs) : obs :=
  let v := valid win in
  if ((length v <? minp)%nat || (length v =? 0)%nat)
  then None
  else Some (Qsum v / inject_Z (Z.of_nat (length v)))%Q.

(** [s.rolling(window=w).mean()]; [min_periods] defaults to [w]. *)
Definition rolling_mean (w : nat) (s : list obs) : list obs :=
  map (fun i => mean_min_periods w (window_at w i s)) (seq 0 (length s)).

(** [s.shift(1)]. *)
Definition shift1 (s : list num) : list num :=
  match s with
  | [] => []
  | _ :: _ => NaN :: removelast s
  end.

Fixpoint zip_with {A B C : Type} (f : A -> B -> C) (l : list A) (l' : list B)
  : list C :=
  match l, l' with
  | x :: t, y :: t' => f x y :: zip_with f t t'
  | _, _ => []
  end.

End Rolling.

(** ** Rows exchanged between the stages *)

(** A row a filter stage appends to [results]. *)
Record cut_row : Type := CutRow {
  date : string;
  stocks : string;
  count : nat
}.

(** A row the ranker appends to [results]. *)
Record rank_row : Type := RankRow {
  rank_date : string;
  rank_stocks : string
}.

(** A row of the previous stage's file after [pd.read_csv] and
    [pd.to_datetime]: the [stocks] cell is a string, or NaN ([None]) when the
    field is empty. *)
Record in_row : Type := InRow {
  in_date : Timestamp;
  in_stocks : option string
}.

(** [pd.isna(cell) or cell == '']. *)
Definition no_stocks (cell : option string) : bool :=
  match cell with
  | None => true
  | Some s => String.eqb s EmptyString
  end.

(** [[s.strip() for s in cell.split(',')]]. *)
Definition stocks_list (cell : string) : list string :=
  map Text.strip (Text.split cell).

(** The candidate symbols a cascaded stage reads for a row. *)
Definition candidates (r : in_row) : list string :=
  match in_stocks r with
  | None => []
  | Some s => if String.eqb s EmptyString then [] else stocks_list s
  end.

(** ** Liquidity stage: [generate_volume_cut.py] *)

Module VolumeCut.

Definition VOLUME_THRESHOLD : Q := 500000.
Definition ROLLING_WINDOW : nat := 20.

(** Columns [volume] and [avg_volume_20d]. *)
Record cols : Type := Cols { volume : obs; avg_volume_20d : obs }.

(** STEP 2: [df['avg_volume_20d'] = df['volume'].rolling(window).mean()]. *)
Definition with_avg_volume (window : nat) (df : frame obs) : frame cols :=
  combine (index df)
    (Rolling.zip_with Cols (map snd df) (Rolling.rolling_mean window (map snd df))).

Definition stock_data (window : nat) (fs : folder) : dict (frame cols) :=
  load_stock_data (with_avg_volume window) fs.

(** Every timestamp of every symbol, in iteration order. *)
Definition trading_dates (sd : dict (frame cols)) : list Timestamp :=
  concat (map (fun e => index (snd e)) sd).

(** STEP 3: the union of all trading timestamps (a [set]), sorted. *)
Definition all_dates (sd : dict (frame cols)) : list Timestamp :=
  sorted_dates (nodup Z.eq_dec (trading_dates sd)).

(** The group keys of [groupby(index.to_period('M'))], in key order. *)
Definition group_keys (ts : list Timestamp) : list Z :=
  isort Z.leb (nodup Z.eq_dec (map Calendar.to_period_M ts)).

(** [groupby(...).apply(lambda x: x.index.max())]. *)
Definition month_ends (ts : list Timestamp) : list Timestamp :=
  map (fun k => index_max (filter (fun t => Calendar.to_period_M t =? k) ts))
    (group_keys ts).

Definition month_end_dates (sd : dict (frame cols)) : list Timestamp :=
  sorted_dates (month_ends (all_dates sd)).

(** STEP 4, the body of the inner loop: does the symbol pass on that
    month-end? *)
Definition passes (threshold : Q) (month_end_date : Timestamp)
    (e : string * frame cols) : result bool :=
  if in_index month_end_date (snd e) then
    row <- loc (snd e) month_end_date ;;
    let avg_volume := of_obs (avg_volume_20d row) in
    Ok (Num.notna avg_volume && Num.gtb avg_volume (Fin threshold))
  else Ok false.

Definition passing_stocks (threshold : Q) (sd : dict (frame cols))
    (month_end_date : Timestamp) : result (list string) :=
  r <- filterM (passes threshold month_end_date) sd ;;
  Ok (map fst r).

Definition result_row (threshold : Q) (sd : dict (frame cols))
    (month_end_date : Timestamp) : result cut_row :=
  p <- passing_stocks threshold sd month_end_date ;;
  Ok {| date := Text.strftime month_end_date;
        stocks := Text.join (sorted_names p);
        count := length p |}.

(** STEPS 3 and 4 on the loaded dictionary.  The progress line printed
    after STEP 3 reads [month_end_dates[0]]. *)
Definition results (threshold : Q) (sd : dict (frame cols)) : result (list cut_row) :=
  match month_end_dates sd with
  | [] => Raise IndexError
  | (_ :: _) as dates => mapM (result_row threshold sd) dates
  end.

(** The script, from the folder to the rows of [volume_cut.csv]. *)
Definition volume_cut (fs : folder) : result (list cut_row) :=
  results VOLUME_THRESHOLD (stock_data ROLLING_WINDOW fs).

End VolumeCut.

(** ** The cascaded filter loop

    STEPS 3 and 4 of [sma_cut.py] (lines 82-145) and of [sma_angle_cut.py]
    (lines 92-167) are the same code up to the columns kept per symbol and
    the condition tested on the located row; both are instances of this
    section. *)

Section CutStage.

(** The columns kept per symbol. *)
Context {R : Type}.
(** The [if] condition of the inner loop, on the cells of the located row. *)
Variable condition : R -> bool.
(** [SMA_WINDOW] (resp. [SMA_200_WINDOW]). *)
Variable window : nat.

(** [min([df.index.min() for df in stock_data.values()])]; [min] of an
    empty list raises [ValueError]. *)
Definition min_date (sd : dict (frame R)) : result Timestamp :=
  match map (fun e => index_min (snd e)) sd with
  | [] => Raise ValueError
  | t :: ts => Ok (fold_left Z.min ts t)
  end.

Definition first_valid_date (sd : dict (frame R)) : result Timestamp :=
  m <- min_date sd ;;
  Ok (m + Calendar.warmup (Z.of_nat window)).

(** [volume_cut_df[volume_cut_df['date'] >= first_valid_date]]. *)
Definition volume_cut_filtered (first_valid : Timestamp) (rows : list in_row)
  : list in_row :=
  filter (fun r => first_valid <=? in_date r) rows.

(** The body of the inner loop for one candidate. *)
Definition passes (sd : dict (frame R)) (month_end_date : Timestamp)
    (stock_name : string) : result bool :=
  match dict_get stock_name sd with
  | None => Ok false
  | Some df =>
      match matching_dates df (Calendar.date_of month_end_date) with
      | [] => Ok false
      | actual_date :: _ =>
          row <- loc df actual_date ;;
          Ok (condition row)
      end
  end.

(** The list the inner loop builds from the candidates of a month-end. *)
Definition passing_among (sd : dict (frame R)) (month_end_date : Timestamp)
    (volume_stocks_list : list string) : result (list string) :=
  filterM (passes sd month_end_date) volume_stocks_list.

Definition passing_stocks (sd : dict (frame R)) (r : in_row) : result (list string) :=
  passing_among sd (in_date r) (candidates r).

(** One iteration of the outer loop. *)
Definition result_row (sd : dict (frame R)) (r : in_row) : result cut_row :=
  if no_stocks (in_stocks r) then
    Ok {| date := Text.strftime (in_date r); stocks := EmptyString; count := 0 |}
  else
    p <- passing_stocks sd r ;;
    Ok {| date := Text.strftime (in_date r);
          stocks := Text.join (sorted_names p);
          count := length p |}.

(** The script after loading.  The progress lines read
    [volume_cut_df['date'].iloc[0]] (STEP 1) and
    [volume_cut_filtered['date'].iloc[0]] (STEP 3). *)
Definition results (sd : dict (frame R)) (volume_cut_df : list in_row)
  : result (list cut_row) :=
  match volume_cut_df with
  | [] => Raise IndexError
  | _ :: _ =>
      first_valid <- first_valid_date sd ;;
      match volume_cut_filtered first_valid volume_cut_df with
      | [] => Raise IndexError
      | (_ :: _) as rows => mapM (result_row sd) rows
      end
  end.

End CutStage.

(** ** Trend-Level stage: [sma_cut.py] *)

Module SmaCut.

Definition SMA_WINDOW : nat := 200.

(** Columns [close] and [sma_200]. *)
Record cols : Type := Cols { close : obs; sma_200 : obs }.

(** [df['sma_200'] = df['close'].rolling(window).mean()]. *)
Definition with_sma (window : nat) (df : frame obs) : frame cols :=
  combine (index df)
    (Rolling.zip_with Cols (map snd df) (Rolling.rolling_mean window (map snd df))).

Definition stock_data (window : nat) (fs : folder) : dict (frame cols) :=
  load_stock_data (with_sma window) fs.

(** [pd.notna(sma_200) and close_price > sma_200]. *)
Definition condition (row : cols) : bool :=
  let close_price := of_obs (close row) in
  let sma := of_obs (sma_200 row) in
  Num.notna sma && Num.gtb close_price sma.

Definition sma_cut_with (window : nat) (fs : folder) (volume_cut_df : list in_row)
  : result (list cut_row) :=
  results condition window (stock_data window fs) volume_cut_df.

(** The script, from the folder and the rows of the volume cut to the rows
    of [200sma_cut.csv]. *)
Definition sma_cut : folder -> list in_row -> result (list cut_row) :=
  sma_cut_with SMA_WINDOW.

End SmaCut.

(** ** Trend-Slope stage: [sma_angle_cut.py] *)

Module SmaAngleCut.

Definition SMA_200_WINDOW : nat := 200.
Definition SMA_50_WINDOW : nat := 50.
Definition ANGLE_THRESHOLD : Q := 2 # 10.

(** Columns [close], [ma200], [ma50] and [angle]. *)
Record cols : Type := Cols { close : obs; ma200 : obs; ma50 : obs; angle : num }.

Section Numpy.

(** [np.arctan] on finite floats, and [np.pi]. *)
Variable arctan_fin : Q -> Q.
Variable np_pi : Q.

(** [np.arctan]: NaN for NaN, a quarter turn at the infinities. *)
Definition arctan (x : num) : num :=
  match x with
  | Fin q => Fin (arctan_fin q)
  | PInf => Fin (np_pi / 2)%Q
  | NInf => Fin (- (np_pi / 2))%Q
  | NaN => NaN
  end.

(** [np.arctan(x) * 180 / np.pi]. *)
Definition degrees_of_slope (x : num) : num :=
  Num.div (Num.mul (arctan x) (Fin 180)) (Fin np_pi).

(** Lines 73-75: the angle column from the moving-average and close
    columns of one frame. *)
Definition slope_angle (ma close : list num) : list num :=
  let ma200_diff := Rolling.zip_with Num.sub ma (Rolling.shift1 ma) in
  let normalized_slope :=
    Rolling.zip_with Num.div ma200_diff
      (map (fun c => Num.mul c (Fin (1 # 100))) close) in
  map degrees_of_slope normalized_slope.

Fixpoint zip_cols (c m2 m5 : list obs) (a : list num) : list cols :=
  match c, m2, m5, a with
  | x :: c', y :: m2', z :: m5', w :: a' => Cols x y z w :: zip_cols c' m2' m5' a'
  | _, _, _, _ => []
  end.

Definition with_angle (w200 w50 : nat) (df : frame obs) : frame cols :=
  let close := map snd df in
  let ma200 := Rolling.rolling_mean w200 close in
  let ma50 := Rolling.rolling_mean w50 close in
  let angle := slope_angle (map of_obs ma200) (map of_obs close) in
  combine (index df) (zip_cols close ma200 ma50 angle).

Definition stock_data (w200 w50 : nat) (fs : folder) : dict (frame cols) :=
  load_stock_data (with_angle w200 w50) fs.

(** The buy-zone condition of lines 156-159. *)
Definition condition (threshold : Q) (row : cols) : bool :=
  let close_price := of_obs (close row) in
  let ma200 := of_obs (ma200 row) in
  let ma50 := of_obs (ma50 row) in
  Num.notna (angle row) && Num.notna ma200 && Num.notna ma50
  && Num.gtb (angle row) (Fin threshold)
  && Num.gtb close_price ma50
  && Num.gtb close_price ma200.

Definition sma_angle_cut_with (threshold : Q) (w200 w50 : nat) (fs : folder)
    (volume_cut_df : list in_row) : result (list cut_row) :=
  results (condition threshold) w200 (stock_data w200 w50 fs) volume_cut_df.

(** The script, from the folder and the rows of the volume cut to the
    rows of [sma_angle_cut.csv]. *)
Definition sma_angle_cut : folder -> list in_row -> result (list cut_row) :=
  sma_angle_cut_with ANGLE_THRESHOLD SMA_200_WINDOW SMA_50_WINDOW.

End Numpy.

End SmaAngleCut.

(** ** Relative-Strength ranker: [relative_rank.py] *)

Module RelativeRank.

#[local] Open Scope string_scope.

Definition TOP_N : nat := 30.
Definition LOOKBACK_MONTHS : Z := 1.

(** Only the [close] column is kept. *)
Definition stock_data (fs : folder) : dict (frame obs) :=
  load_stock_data (fun df => df) fs.

(** [(current - past) / past]. *)
Definition period_return (current_price past_price : obs) : num :=
  Num.div (Num.sub (of_obs current_price) (of_obs past_price)) (of_obs past_price).

(** Lines 116-137: the benchmark return of a date, or [None] when the date
    is skipped. *)
Definition nifty_return (nifty_df : frame obs) (month_end_date : Timestamp)
    (three_months_back : Z) : result (option num) :=
  match matching_dates nifty_df (Calendar.date_of month_end_date),
        matching_dates nifty_df three_months_back with
  | nifty_current :: _, nifty_past :: _ =>
      nifty_current_price <- loc nifty_df nifty_current ;;
      nifty_past_price <- loc nifty_df nifty_past ;;
      let r := period_return nifty_current_price nifty_past_price in
      Ok (if Num.eqb r (Fin 0) then None else Some r)
  | _, _ => Ok None
  end.

(** An entry of [stock_rs_data]. *)
Record rs : Type := Rs { stock : string; rs_ratio : num }.

(** Lines 143-165: the body of the inner loop for one candidate. *)
Definition rs_entry (sd : dict (frame obs)) (month_end_date : Timestamp)
    (three_months_back : Z) (nifty_ret : num) (stock_name : string)
  : result (option rs) :=
  match dict_get stock_name sd with
  | None => Ok None
  | Some df =>
      match matching_dates df (Calendar.date_of month_end_date),
            matching_dates df three_months_back with
      | current :: _, past :: _ =>
          current_price <- loc df current ;;
          past_price <- loc df past ;;
          let stock_return := period_return current_price past_price in
          let ratio := Num.div stock_return nifty_ret in
          Ok (if Num.geb ratio (Fin 1)
              then Some {| stock := stock_name; rs_ratio := ratio |}
              else None)
      | _, _ => Ok None
      end
  end.

Definition stock_rs_data (sd : dict (frame obs)) (month_end_date : Timestamp)
    (three_months_back : Z) (nifty_ret : num) (angle_stocks_list : list string)
  : result (list rs) :=
  collectM (rs_entry sd month_end_date three_months_back nifty_ret) angle_stocks_list.

(** [l.sort(key=lambda x: x['rs_ratio'], reverse=True)]: an entry stays in
    front of a later one unless its ratio is smaller. *)
Definition sort_by_ratio (l : list rs) : list rs :=
  isort (fun x y => negb (Num.ltb (rs_ratio x) (rs_ratio y))) l.

(** [stock_rs_data[:top_n]] after the sort. *)
Definition top_stocks (top_n : nat) (l : list rs) : list rs :=
  firstn top_n (sort_by_ratio l).

(** [f"{s['stock']} ({s['rs_ratio']:.2f})"]. *)
Definition format_entry (s : rs) : string :=
  stock s ++ " (" ++ Text.format_2f (rs_ratio s) ++ ")".

Definition formatted_stocks (top : list rs) : string :=
  Text.join (map format_entry top).

(** The ranked entries of one input row: empty on every skip. *)
Definition ranked (top_n : nat) (months : Z) (sd : dict (frame obs))
    (nifty_df : frame obs) (r : in_row) : result (list rs) :=
  if no_stocks (in_stocks r) then Ok []
  else
    let three_months_back := Calendar.months_back months (in_date r) in
    nr <- nifty_return nifty_df (in_date r) three_months_back ;;
    match nr with
    | None => Ok []
    | Some nifty_ret =>
        l <- stock_rs_data sd (in_date r) three_months_back nifty_ret (candidates r) ;;
        Ok (top_stocks top_n l)
    end.

(** One iteration of the outer loop. *)
Definition result_row (top_n : nat) (months : Z) (sd : dict (frame obs))
    (nifty_df : frame obs) (r : in_row) : result rank_row :=
  top <- ranked top_n months sd nifty_df r ;;
  Ok {| rank_date := Text.strftime (in_date r);
        rank_stocks := formatted_stocks top |}.

(** The script after loading.  The progress lines read
    [sma_angle_df['date'].iloc[0]] (STEP 1) and [nifty_df.index[0]]
    (STEP 2). *)
Definition results (top_n : nat) (months : Z) (sd : dict (frame obs))
    (nifty_df : frame obs) (sma_angle_df : list in_row) : result (list rank_row) :=
  match sma_angle_df, nifty_df with
  | _ :: _, _ :: _ => mapM (result_row top_n months sd nifty_df) sma_angle_df
  | _, _ => Raise IndexError
  end.

(** The script, from the folder, the index file and the rows of the angle
    cut to the rows of [relative_rank.csv]. *)
Definition relative_rank (fs : folder) (nifty_df : frame obs)
    (sma_angle_df : list in_row) : result (list rank_row) :=
  results TOP_N LOOKBACK_MONTHS (stock_data fs) nifty_df sma_angle_df.

End RelativeRank.

(** ** The specification's rolling mean

    Section 4.2 of the specification, in its own words: the mean of the
    trailing [w] observations, defined once [w] observations exist.  A NaN
    observation makes the sum, hence the mean, NaN. *)

Module Spec.

Definition add_obs (a b : obs) : obs :=
  match a, b with
  | Some x, Some y => Some (x + y)%Q
  | _, _ => None
  end.

Definition arithmetic_mean (l : list obs) : obs :=
  match fold_left add_obs l (Some 0%Q) with
  | Some total => Some (total / inject_Z (Z.of_nat (length l)))%Q
  | None => None
  end.

(** The [w] observations that end at position [i]. *)
Definition trailing (w i : nat) (s : list obs) : list obs :=
  firstn w (skipn (S i - w) s).

Definition rolling_mean_at (w : nat) (s : list obs) (i : nat) : obs :=
  if (S i <? w)%nat then None else arithmetic_mean (trailing w i s).

End Spec.

(** ** Sample data

    Small folders and rows on which the scripts are run in the examples. *)

Module Sample.

#[local] Open Scope string_scope.

(** 09:15 on a day. *)
Definition at_open (d : Z) : Timestamp := Calendar.midnight d + 33300000000000.

(** [n] consecutive daily rows from day [first]. *)
Definition daily (first : Z) (n : nat) (value : nat -> Q) : frame obs :=
  map (fun i => (at_open (first + Z.of_nat i), Some (value i))) (seq 0 n).

Definition quotes (l : list (Z * Z)) : frame obs :=
  map (fun x => (at_open (fst x), Some (inject_Z (snd x)))) l.

(** Volumes from 2020-01-15 (day 18276) to 2020-03-04. *)
Definition steady : frame obs := daily 18276 50 (fun _ => 600000%Q).
Definition thin : frame obs := daily 18276 50 (fun _ => 400000%Q).

Definition volume_folder : folder :=
  [("STEADY", Table steady); ("THIN", Table thin);
   ("NIFTY500_INDEX", Table steady); ("BROKEN", Unreadable); ("EMPTY", Table [])].

Definition volume_rows : list cut_row :=
  [CutRow "2020-01-31" "" 0; CutRow "2020-02-29" "STEADY" 1;
   CutRow "2020-03-04" "STEADY" 1].

(** Closes from 2020-01-15 to 2020-11-29. *)
Definition rising : frame obs :=
  daily 18276 320 (fun i => inject_Z (100 + Z.of_nat i)).
Definition falling : frame obs :=
  daily 18276 320 (fun i => inject_Z (1000 - Z.of_nat i)).

Definition close_folder : folder :=
  [("RISING", Table rising); ("FALLING", Table falling); ("BROKEN", NoColumn)].

(** Rows of a volume cut: 2020-08-27, 2020-11-10, 2020-11-11, 2020-11-14,
    2020-11-24 and 2020-12-04. *)
Definition cut_input : list in_row :=
  [InRow (Calendar.midnight 18500) (Some "FALLING, RISING");
   InRow (Calendar.midnight 18576) (Some "FALLING, RISING");
   InRow (Calendar.midnight 18577) (Some "BROKEN, FALLING, RISING");
   InRow (Calendar.midnight 18580) None;
   InRow (Calendar.midnight 18590) (Some "RISING, GHOST");
   InRow (Calendar.midnight 18600) (Some "RISING")].

Definition cut_rows : list cut_row :=
  [CutRow "2020-11-11" "RISING" 1; CutRow "2020-11-14" "" 0;
   CutRow "2020-11-24" "RISING" 1; CutRow "2020-12-04" "" 0].

(** A rational stand-in for [np.arctan] and for [np.pi]. *)
Definition arctan_fin (q : Q) : Q := (q / (1 + (28 # 100) * q * q))%Q.
Definition np_pi : Q := 355 # 113.

(** Closes with a flat stretch, and closes with a missing cell. *)
Definition flat : frame obs := quotes [(18276, 5); (18277, 5); (18278, 5); (18279, 8)].
Definition gappy : frame obs :=
  [(at_open 18276, Some 7%Q); (at_open 18277, None); (at_open 18278, Some 9%Q)].

(** The benchmark on 2020-02-29, 2020-03-30, 2020-03-31 and 2020-04-30. *)
Definition nifty_df : frame obs :=
  quotes [(18321, 100); (18351, 110); (18352, 110); (18382, 110)].

(** Closes on 2020-02-29 and 2020-03-31. *)
Definition priced : dict (frame obs) :=
  [("A", quotes [(18321, 100); (18352, 120)]);
   ("B", quotes [(18321, 100); (18352, 105)]);
   ("C", quotes [(18321, 100); (18352, 150)]);
   ("D", quotes [(18321, 50); (18352, 60)]);
   ("F", quotes [(18321, 100)])].

Definition march : in_row := InRow (Calendar.midnight 18352) (Some "A, B, C, D, F, G").
Definition april : in_row := InRow (Calendar.midnight 18382) (Some "A, B").
Definition may : in_row := InRow (Calendar.midnight 18412) (Some "A, B").

Definition march_top : list RelativeRank.rs :=
  [RelativeRank.Rs "C" (Fin ((50 # 100) / (10 # 100)));
   RelativeRank.Rs "A" (Fin ((20 # 100) / (10 # 100)))].

End Sample.

(** ** Notions used in the statements *)

(** The pure reading of a test that may raise. *)
Definition holds {A : Type} (f : A -> result bool) (x : A) : bool :=
  match f x with
  | Ok true => true
  | _ => false
  end.

(** The order a boolean comparison decides. *)
Definition le_of {A : Type} (leb : A -> A -> bool) (x y : A) : Prop :=
  leb x y = true.

(** The timestamps of one calendar month. *)
Definition month_group (ts : list Timestamp) (k : Z) : list Timestamp :=
  filter (fun t => Calendar.to_period_M t =? k) ts.

(** The files a script keeps, and the entry it stores for one of them. *)
Definition loadable (f : string * csv_file) : bool :=
  is_stock_file (fst f)
  && match snd f with Table (_ :: _) => true | _ => false end.

Definition loaded {R : Type} (derive : frame obs -> frame R) (f : string * csv_file)
  : string * frame R :=
  (fst f, derive match snd f with Table rows => rows | _ => [] end).

(** A row that lists, sorted, symbols taken from [input], with their count. *)
Definition narrows (input : list string) (row : cut_row) : Prop :=
  exists p,
    stocks row = Text.join (sorted_names p)
    /\ count row = length p
    /\ incl p input
    /\ (length p <= length input)%nat.

(** The rows a cascaded script reports on, with the row it reported for
    each, in order. *)
Definition cascade_narrows {R : Type} (window : nat) (sd : dict (frame R))
    (rows : list in_row) (out : list cut_row) : Prop :=
  exists first_valid,
    first_valid_date window sd = Ok first_valid
    /\ Forall2 (fun r row =>
                  date row = Text.strftime (in_date r) /\ narrows (candidates r) row)
         (volume_cut_filtered first_valid rows) out.

(** The value [s.shift(1)] holds at a position: the previous row's, NaN in
    the first row. *)
Definition previous (s : list num) (t : nat) : num :=
  match t with
  | O => NaN
  | S t' => nth t' s NaN
  end.

(** The candidates other than [name]. *)
Definition other_than (name : string) (s : string) : bool :=
  negb (String.eqb s name).

(** What a cascaded script with a 200-row window reports: one row per input
    row dated on or after the earliest first timestamp plus 300 days, in
    input order, empty when the input row has no candidate. *)
Definition reports_from_cutoff {R : Type} (sd : dict (frame R))
    (rows : list in_row) (out : list cut_row) : Prop :=
  exists earliest,
    min_date sd = Ok earliest
    /\ In earliest (map (fun e => index_min (snd e)) sd)
    /\ (forall e, In e sd -> earliest <= index_min (snd e))
    /\ Forall2
         (fun r row =>
            date row = Text.strftime (in_date r)
            /\ (no_stocks (in_stocks r) = true ->
                stocks row = EmptyString /\ count row = 0%nat))
         (filter (fun r => earliest + 300 * Calendar.ns_per_day <=? in_date r) rows)
         out.

(** Does the test return, rather than raise? *)
Definition succeeds {A B : Type} (f : A -> result B) (x : A) : bool :=
  match f x with Ok _ => true | Raise _ => false end.

(** A row whose [stocks] field is a sorted list of symbols, with its count. *)
Definition canonical (row : cut_row) : Prop :=
  exists p,
    stocks row = Text.join (sorted_names p)
    /\ count row = length p
    /\ StronglySorted (fun a b => String.leb a b = true) (sorted_names p).

(** [a] ranks at least as high as [b]. *)
Definition outranks (a b : RelativeRank.rs) : Prop :=
  Num.geb (RelativeRank.rs_ratio a) (RelativeRank.rs_ratio b) = true.

(** The ratio of an entry reaches 1. *)
Definition strong (e : RelativeRank.rs) : Prop :=
  Num.geb (RelativeRank.rs_ratio e) (Fin 1) = true.

(** Over the whole universe no two distinct timestamps fall on one calendar
    day (every series is stamped at the same time of day). *)
Definition one_timestamp_per_day (sd : dict (frame VolumeCut.cols)) : Prop :=
  forall t1 t2,
    In t1 (VolumeCut.trading_dates sd) -> In t2 (VolumeCut.trading_dates sd) ->
    Calendar.date_of t1 = Calendar.date_of t2 -> t1 = t2.

(** [pd.notna(avg) and avg > threshold] on a cell. *)
Definition above (threshold : Q) (avg : obs) : bool :=
  Num.notna (of_obs avg) && Num.gtb (of_obs avg) (Fin threshold).

(** ** The hand-off between the scripts

    A script writes its rows with [to_csv]; the next one reads them with
    [pd.read_csv], turns the [date] column into timestamps with
    [pd.to_datetime] and splits the [stocks] cell. *)

(** The number a non-empty string of decimal digits denotes. *)
Definition number (s : string) : option Z :=
  match s with
  | EmptyString => None
  | _ => option_map (fun u => Z.of_N (N.of_uint u)) (NilEmpty.uint_of_string s)
  end.

(** Is (y, m, d) a day of the civil calendar? *)
Definition valid_date (y m d : Z) : bool :=
  (1 <=? m) && (m <=? 12) && (1 <=? d) && (d <=? Calendar.days_in_month y m).

(** [pd.Timestamp.min] and [pd.Timestamp.max]: a timestamp is a signed
    64-bit count of nanoseconds. *)
Definition Timestamp_min : Timestamp := - 9223372036854775807.
Definition Timestamp_max : Timestamp := 9223372036854775807.

(** The day a string of the form that ['%Y-%m-%d'] produces (four digits,
    two and two) denotes, as a day number. *)
Definition parse_date (s : string) : option Z :=
  if (String.length s =? 10)%nat
     && String.eqb (substring 4 1 s) "-" && String.eqb (substring 7 1 s) "-"
  then
    match number (substring 0 4 s), number (substring 5 2 s),
          number (substring 8 2 s) with
    | Some y, Some m, Some d =>
        if valid_date y m d then Some (Calendar.days_from_civil y m d) else None
    | _, _, _ => None
    end
  else None.

(** [pd.to_datetime] on a column holding such a string: the midnight of
    that day, and [OutOfBoundsDatetime] (a [ValueError]) when that midnight
    is not a timestamp pandas can hold.  [None] stands for every other
    string; the scripts write none. *)
Definition to_datetime (s : string) : option (result Timestamp) :=
  match parse_date s with
  | None => None
  | Some d =>
      let t := Calendar.midnight d in
      Some (if (Timestamp_min <=? t) && (t <=? Timestamp_max)
            then Ok t else Raise ValueError)
  end.

(** ** The summary of the ranker: [relative_rank.py], lines 213-215 *)

Module RankSummary.

(** [len([s for s in x.split(',') if s.strip()]) if x else 0]. *)
Definition stock_count (x : string) : nat :=
  if String.eqb x EmptyString then 0%nat
  else length (filter (fun s => negb (String.eqb (Text.strip s) EmptyString))
                 (Text.split x)).

End RankSummary.

(** ** The comparison with the previous stage

    The last block of [sma_cut.py] (lines 183-198) and of
    [sma_angle_cut.py] (lines 208-223): the rows read and the rows written
    are joined on their date and the reduction of the count is computed. *)

(** [x.round(1)] on a float: to the nearest tenth, ties to the even tenth;
    NaN and the infinities are kept. *)
Definition round1 (x : num) : num :=
  match x with
  | Fin q => Fin (inject_Z (Text.round_half_even (q * 10)%Q) / 10)%Q
  | _ => x
  end.

Module Comparison.

(** A row of the previous stage's file with its [count] field. *)
Definition counted_row : Type := (in_row * Z)%type.

(** [pd.merge(left, right, on='date')]: the inner join on the key, in the
    order of the left rows. *)
Definition merge {A B : Type} (left : list (string * A)) (right : list (string * B))
  : list (string * A * B) :=
  flat_map
    (fun l => map (fun r => (fst l, snd l, snd r))
                (filter (fun r => String.eqb (fst r) (fst l)) right))
    left.

(** [((volume_count - sma_count) / volume_count * 100).round(1)] on two
    integer columns. *)
Definition reduction (volume_count sma_count : Z) : num :=
  round1
    (Num.mul
       (Num.div (Num.sub (Fin (inject_Z volume_count)) (Fin (inject_Z sma_count)))
                (Fin (inject_Z volume_count)))
       (Fin 100)).

(** A row of [comparison_df]. *)
Record comparison_row : Type := ComparisonRow {
  cmp_date : string;
  volume_count : Z;
  sma_count : Z;
  reduction_pct : num
}.

(** [comparison_df], from the rows read (with the cutoff of STEP 3) and the
    rows written. *)
Definition comparison_df (first_valid : Timestamp) (volume_cut_df : list counted_row)
    (result_df : list cut_row) : list comparison_row :=
  let volume_cut_comparison :=
    map (fun x => (Text.strftime (in_date (fst x)), snd x))
      (filter (fun x => first_valid <=? in_date (fst x)) volume_cut_df) in
  let result_comparison := map (fun row => (date row, Z.of_nat (count row))) result_df in
  map (fun x => let '(d, vc, sc) := x in ComparisonRow d vc sc (reduction vc sc))
    (merge volume_cut_comparison result_comparison).

End Comparison.

(** ** Further sample data *)

Module Fixture.

#[local] Open Scope string_scope.

(** A benchmark that falls from 110 to 100 between 2020-02-29 and
    2020-03-31, and three symbols over the same month. *)
Definition falling_nifty : frame obs := Sample.quotes [(18321, 110); (18352, 100)].

Definition bear : dict (frame obs) :=
  [("GAINER", Sample.quotes [(18321, 100); (18352, 120)]);
   ("LOSER", Sample.quotes [(18321, 100); (18352, 80)]);
   ("STEADY", Sample.quotes [(18321, 100); (18352, 95)])].

Definition bear_march : in_row :=
  InRow (Calendar.midnight 18352) (Some "GAINER, LOSER, STEADY").

(** Closes that double from day to day. *)
Definition doubling : frame obs :=
  Sample.quotes [(18276, 1); (18277, 2); (18278, 4); (18279, 8)].


(** 15:30 on a day, and the volumes of [Sample.steady] stamped then. *)
Definition at_close (d : Z) : Timestamp := Calendar.midnight d + 55800000000000.

Definition evening : frame obs :=
  map (fun i => (at_close (18276 + Z.of_nat i), Some 600000%Q)) (seq 0 50).

(** A folder whose files are stamped at different times of the day. *)
Definition mixed_folder : folder :=
  [("MORNING", Table Sample.steady); ("EVENING", Table evening)].

(** A folder with a symbol named [NA]. *)
Definition na_folder : folder := [("NA", Table Sample.steady); ("THIN", Table Sample.thin)].

(** The rows of [Sample.cut_input] with their [count] field. *)
Definition counted_input : list Comparison.counted_row :=
  combine Sample.cut_input [2; 2; 3; 0; 2; 1].

(** The entries of [Sample.march] that reach the benchmark, in candidate
    order. *)
Definition march_entries : list RelativeRank.rs :=
  [RelativeRank.Rs "A" (Fin ((20 # 100) / (10 # 100)));
   RelativeRank.Rs "C" (Fin ((50 # 100) / (10 # 100)));
   RelativeRank.Rs "D" (Fin ((10 # 50) / (10 # 100)))].

End Fixture.

(** ** Further notions used in the statements *)

(** Does the string hold a comma? *)
Fixpoint has_comma (s : string) : bool :=
  match s with
  | EmptyString => false
  | String c s' => Ascii.eqb c "," || has_comma s'
  end.

(** Is the string made of blanks only? *)
Fixpoint all_space (s : string) : bool :=
  match s with
  | EmptyString => true
  | String c s' => Text.is_space c && all_space s'
  end.

(** A symbol that a comma-separated cell carries unchanged: not empty,
    without a comma, without a blank at either end. *)
Definition symbol_ok (s : string) : bool :=
  negb (String.eqb s EmptyString) && negb (has_comma s) && String.eqb (Text.strip s) s.

(** The strings [pd.read_csv] takes for a missing value when it is called
    without [na_values] and [keep_default_na], as the scripts call it. *)
Definition na_values : list string :=
  EmptyString ::
  ["#N/A"; "#N/A N/A"; "#NA"; "-1.#IND"; "-1.#QNAN"; "-NaN"; "-nan";
   "1.#IND"; "1.#QNAN"; "<NA>"; "N/A"; "NA"; "NULL"; "NaN"; "None"; "n/a";
   "nan"; "null"]%string.

Definition is_na (s : string) : bool := existsb (String.eqb s) na_values.

(** The cell the next script finds in a [stocks] column read as text, for
    the field a script wrote: NaN for one of [na_values], the string itself
    otherwise. *)
Definition read_cell (written : string) : option string :=
  if is_na written then None else Some written.

(** Is the list a single symbol that [pd.read_csv] takes for a missing
    value? *)
Definition lone_na (p : list string) : bool :=
  match p with
  | [s] => is_na s
  | _ => false
  end.


(** A timestamp pandas can hold. *)
Definition representable (t : Timestamp) : Prop := Timestamp_min <= t <= Timestamp_max.

(** The first calendar day a cascaded script with a 200-row window reports
    on, when the earliest series starts at [earliest]: 300 days later, and
    one more unless [earliest] is a midnight. *)
Definition cutoff_day (earliest : Timestamp) : Z :=
  Calendar.date_of earliest + 300
  + (if earliest mod Calendar.ns_per_day =? 0 then 0 else 1).

(** The number of observations of a window, as a rational. *)
Definition Qlen (l : list Q) : Q := inject_Z (Z.of_nat (length l)).

(** A test on every integer of a range, and the tests run on the years and
    on the months and days of a date. *)
Fixpoint all_from (f : Z -> bool) (lo : Z) (n : nat) : bool :=
  match n with
  | O => true
  | S n' => f lo && all_from f (lo + 1) n'
  end.

Definition four_digits (y : Z) : bool :=
  match Text.dec y with
  | String _ (String _ (String _ (String _ EmptyString))) =>
      match number (Text.dec y) with Some y' => y' =? y | None => false end
  | _ => false
  end.

Definition two_digits (k : Z) : bool :=
  match Text.pad2 k with
  | String _ (String _ EmptyString) =>
      match number (Text.pad2 k) with Some k' => k' =? k | None => false end
  | _ => false
  end.

(** * Properties *)

(** ** Loops that may raise *)

Lemma bind_Ok_inv {A B : Type} (m : result A) (k : A -> result B) (b : B) :
  bind m k = Ok b -> exists a, m = Ok a /\ k a = Ok b.
Proof.
  destruct m as [a|e]; simpl; intro H; [|discriminate].
  exists a. split; [reflexivity|exact H].
Qed.

Lemma filterM_Ok {A : Type} (f : A -> result bool) (l r : list A) :
  filterM f l = Ok r -> r = filter (holds f) l.
Proof.
  revert r. induction l as [|x l IH]; simpl; intros r H.
  - congruence.
  - apply bind_Ok_inv in H. destruct H as (b & Hb & H).
    apply bind_Ok_inv in H. destruct H as (r' & Hr' & H).
    injection H as <-. unfold holds at 1. rewrite Hb.
    rewrite (IH r' Hr'). destruct b; reflexivity.
Qed.

Lemma filterM_total {A : Type} (f : A -> result bool) (l : list A) :
  (forall x, In x l -> exists b, f x = Ok b) ->
  filterM f l = Ok (filter (holds f) l).
Proof.
  induction l as [|x l IH]; simpl; intro H; [reflexivity|].
  destruct (H x (or_introl eq_refl)) as (b & Hb).
  unfold holds at 1. rewrite Hb. simpl.
  rewrite IH by (intros y Hy; apply H; right; exact Hy).
  simpl. destruct b; reflexivity.
Qed.

Lemma filterM_ext {A : Type} (f g : A -> result bool) (l : list A) :
  (forall x, In x l -> f x = g x) -> filterM f l = filterM g l.
Proof.
  induction l as [|x l IH]; simpl; intro H; [reflexivity|].
  rewrite (H x (or_introl eq_refl)).
  rewrite IH by (intros y Hy; apply H; right; exact Hy).
  reflexivity.
Qed.

(** Dropping elements on which the test is a plain [False] changes nothing,
    not even the exception raised. *)
Lemma filterM_drop {A : Type} (f : A -> result bool) (keep : A -> bool) (l : list A) :
  (forall x, In x l -> keep x = false -> f x = Ok false) ->
  filterM f (filter keep l) = filterM f l.
Proof.
  induction l as [|x l IH]; simpl; intro H; [reflexivity|].
  assert (IH' : filterM f (filter keep l) = filterM f l)
    by (apply IH; intros y Hy; apply H; right; exact Hy).
  destruct (keep x) eqn:K; simpl.
  - rewrite IH'. reflexivity.
  - rewrite (H x (or_introl eq_refl) K). simpl. rewrite IH'.
    destruct (filterM f l); reflexivity.
Qed.

Lemma collectM_drop {A B : Type} (f : A -> result (option B)) (keep : A -> bool)
    (l : list A) :
  (forall x, In x l -> keep x = false -> f x = Ok None) ->
  collectM f (filter keep l) = collectM f l.
Proof.
  induction l as [|x l IH]; simpl; intro H; [reflexivity|].
  assert (IH' : collectM f (filter keep l) = collectM f l)
    by (apply IH; intros y Hy; apply H; right; exact Hy).
  destruct (keep x) eqn:K; simpl.
  - rewrite IH'. reflexivity.
  - rewrite (H x (or_introl eq_refl) K). simpl. rewrite IH'.
    destruct (collectM f l); reflexivity.
Qed.

Lemma collectM_ext {A B : Type} (f g : A -> result (option B)) (l : list A) :
  (forall x, In x l -> f x = g x) -> collectM f l = collectM g l.
Proof.
  induction l as [|x l IH]; simpl; intro H; [reflexivity|].
  rewrite (H x (or_introl eq_refl)).
  rewrite IH by (intros y Hy; apply H; right; exact Hy).
  reflexivity.
Qed.

Lemma collectM_In {A B : Type} (f : A -> result (option B)) (l : list A) (r : list B) :
  collectM f l = Ok r ->
  forall y, In y r -> exists x, In x l /\ f x = Ok (Some y).
Proof.
  revert r. induction l as [|x l IH]; simpl; intros r H y Hy.
  - injection H as <-. destruct Hy.
  - apply bind_Ok_inv in H. destruct H as (o & Ho & H).
    apply bind_Ok_inv in H. destruct H as (r' & Hr' & H).
    injection H as <-.
    destruct o as [z|].
    + destruct Hy as [<-|Hy].
      * exists x. split; [left; reflexivity|exact Ho].
      * destruct (IH r' Hr' y Hy) as (x' & Hx' & Hf).
        exists x'. split; [right; exact Hx'|exact Hf].
    + destruct (IH r' Hr' y Hy) as (x' & Hx' & Hf).
      exists x'. split; [right; exact Hx'|exact Hf].
Qed.

Lemma mapM_ext {A B : Type} (f g : A -> result B) (l : list A) :
  (forall x, In x l -> f x = g x) -> mapM f l = mapM g l.
Proof.
  induction l as [|x l IH]; simpl; intro H; [reflexivity|].
  rewrite (H x (or_introl eq_refl)).
  rewrite IH by (intros y Hy; apply H; right; exact Hy).
  reflexivity.
Qed.

Lemma mapM_Ok {A B : Type} (f : A -> result B) (l : list A) (r : list B) :
  mapM f l = Ok r -> Forall2 (fun x y => f x = Ok y) l r.
Proof.
  revert r. induction l as [|x l IH]; simpl; intros r H.
  - injection H as <-. constructor.
  - apply bind_Ok_inv in H. destruct H as (y & Hy & H).
    apply bind_Ok_inv in H. destruct H as (r' & Hr' & H).
    injection H as <-. constructor; [exact Hy|apply IH; exact Hr'].
Qed.

Lemma mapM_total {A B : Type} (f : A -> result B) (l : list A) :
  (forall x, In x l -> exists y, f x = Ok y) -> exists r, mapM f l = Ok r.
Proof.
  induction l as [|x l IH]; simpl; intro H.
  - exists []. reflexivity.
  - destruct (H x (or_introl eq_refl)) as (y & Hy).
    destruct IH as (r & Hr); [intros z Hz; apply H; right; exact Hz|].
    exists (y :: r). rewrite Hy, Hr. reflexivity.
Qed.

(** ** Facts about the stable sort *)

Section SortingFacts.

Context {A : Type}.
Variable leb : A -> A -> bool.

Lemma insert_perm x l : Permutation (insert leb x l) (x :: l).
Proof.
  induction l as [|y l IH]; simpl; [reflexivity|].
  destruct (leb x y); [reflexivity|].
  rewrite IH. apply perm_swap.
Qed.

Lemma isort_perm l : Permutation (isort leb l) l.
Proof.
  induction l as [|x l IH]; simpl; [reflexivity|].
  rewrite insert_perm. constructor. exact IH.
Qed.

Lemma isort_In l x : In x (isort leb l) <-> In x l.
Proof.
  split; apply Permutation_in; [|symmetry]; apply isort_perm.
Qed.

Hypothesis leb_total : forall x y, leb x y = true \/ leb y x = true.

Lemma insert_sorted x l : Sorted (le_of leb) l -> Sorted (le_of leb) (insert leb x l).
Proof.
  induction l as [|y l IH]; simpl; intro H.
  - repeat constructor.
  - destruct (leb x y) eqn:E.
    + constructor; [exact H|constructor; exact E].
    + inversion H as [|? ? Hs Hh]; subst.
      constructor; [apply IH; exact Hs|].
      assert (Hyx : (le_of leb) y x)
        by (destruct (leb_total x y) as [C|C]; [congruence|exact C]).
      destruct l as [|z l]; simpl.
      * constructor; exact Hyx.
      * destruct (leb x z); constructor; [exact Hyx|].
        inversion Hh; assumption.
Qed.

Lemma isort_sorted l : Sorted (le_of leb) (isort leb l).
Proof.
  induction l as [|x l IH]; simpl; [constructor|].
  apply insert_sorted, IH.
Qed.

Hypothesis leb_trans :
  forall x y z, leb x y = true -> leb y z = true -> leb x z = true.

Lemma isort_strongly_sorted l : StronglySorted (le_of leb) (isort leb l).
Proof.
  apply Sorted_StronglySorted; [|apply isort_sorted].
  intros x y z. apply leb_trans.
Qed.

Hypothesis leb_antisym : forall x y, leb x y = true -> leb y x = true -> x = y.

Lemma strongly_sorted_perm_eq l l' :
  StronglySorted (le_of leb) l -> StronglySorted (le_of leb) l' -> Permutation l l' -> l = l'.
Proof.
  revert l'. induction l as [|x l IH]; intros l' Hl Hl' P.
  - apply Permutation_nil in P. congruence.
  - destruct l' as [|y l'];
      [apply Permutation_sym, Permutation_nil in P; discriminate|].
    inversion Hl as [|? ? Hs Hx]; subst.
    inversion Hl' as [|? ? Hs' Hy]; subst.
    assert (x = y) as ->.
    { assert (Ix : In x (y :: l')) by (eapply Permutation_in; [exact P|left; reflexivity]).
      assert (Iy : In y (x :: l))
        by (eapply Permutation_in; [symmetry; exact P|left; reflexivity]).
      destruct Ix as [E|Ix]; [congruence|].
      destruct Iy as [E|Iy]; [congruence|].
      rewrite Forall_forall in Hx, Hy.
      apply leb_antisym; [apply Hx; exact Iy|apply Hy; exact Ix]. }
    f_equal. apply IH; try assumption.
    eapply Permutation_cons_inv; exact P.
Qed.

Lemma isort_perm_invariant l l' :
  Permutation l l' -> isort leb l = isort leb l'.
Proof.
  intro P. apply strongly_sorted_perm_eq; try apply isort_strongly_sorted.
  rewrite !isort_perm. exact P.
Qed.

End SortingFacts.

(** ** Orders on timestamps and on symbols *)

Lemma Zleb_total x y : (x <=? y) = true \/ (y <=? x) = true.
Proof. destruct (Z.leb_spec x y); [left; reflexivity|right; apply Z.leb_le; lia]. Qed.

Lemma Zleb_trans x y z : (x <=? y) = true -> (y <=? z) = true -> (x <=? z) = true.
Proof. rewrite !Z.leb_le. lia. Qed.

Lemma Zleb_antisym x y : (x <=? y) = true -> (y <=? x) = true -> x = y.
Proof. rewrite !Z.leb_le. lia. Qed.





Lemma sorted_dates_same_elements l l' :
  NoDup l -> NoDup l' -> (forall t, In t l <-> In t l') ->
  sorted_dates l = sorted_dates l'.
Proof.
  intros N N' H. apply (isort_perm_invariant Z.leb Zleb_total Zleb_trans Zleb_antisym).
  apply NoDup_Permutation; assumption.
Qed.


(** ** The month-end index *)

Lemma fold_max_spec (l : list Z) (a : Z) :
  In (fold_left Z.max l a) (a :: l)
  /\ forall x, In x (a :: l) -> x <= fold_left Z.max l a.
Proof.
  revert a. induction l as [|b l IH]; intro a; simpl.
  - split; [left; reflexivity|]. intros x [<-|[]]. lia.
  - destruct (IH (Z.max a b)) as (Hin & Hge). split.
    + destruct Hin as [E|Hin]; [|right; right; exact Hin].
      rewrite <- E. destruct (Z.max_spec a b) as [[_ ->]|[_ ->]]; auto.
    + intros x Hx.
      assert (Hm : Z.max a b <= fold_left Z.max l (Z.max a b))
        by (apply Hge; left; reflexivity).
      destruct Hx as [<-|[<-|Hx]]; [lia|lia|].
      apply Hge. right. exact Hx.
Qed.

Lemma index_max_In (l : list Timestamp) : l <> [] -> In (index_max l) l.
Proof.
  destruct l as [|a l]; [congruence|]. intros _. apply (fold_max_spec l a).
Qed.

Lemma index_max_ge (l : list Timestamp) x : In x l -> x <= index_max l.
Proof.
  destruct l as [|a l]; [intros []|]. apply (fold_max_spec l a).
Qed.

Section MonthEnds.

Variable ts : list Timestamp.

Lemma group_keys_In k :
  In k (VolumeCut.group_keys ts) <-> exists t, In t ts /\ Calendar.to_period_M t = k.
Proof.
  unfold VolumeCut.group_keys. rewrite isort_In, nodup_In, in_map_iff.
  split; intros (t & H1 & H2); exists t; auto.
Qed.

Lemma group_keys_NoDup : NoDup (VolumeCut.group_keys ts).
Proof.
  unfold VolumeCut.group_keys.
  eapply Permutation_NoDup; [symmetry; apply isort_perm|apply NoDup_nodup].
Qed.

Lemma month_group_max k :
  In k (VolumeCut.group_keys ts) ->
  In (index_max (month_group ts k)) ts
  /\ Calendar.to_period_M (index_max (month_group ts k)) = k
  /\ forall t, In t ts -> Calendar.to_period_M t = k -> t <= index_max (month_group ts k).
Proof.
  intro Hk. apply group_keys_In in Hk. destruct Hk as (t0 & Ht0 & Hp0).
  assert (I0 : In t0 (month_group ts k))
    by (apply filter_In; split; [exact Ht0|apply Z.eqb_eq; exact Hp0]).
  assert (Hne : month_group ts k <> []) by (intro E; rewrite E in I0; destruct I0).
  assert (Hm := index_max_In _ Hne).
  apply filter_In in Hm. destruct Hm as (Hm1 & Hm2). apply Z.eqb_eq in Hm2.
  repeat split; [exact Hm1|exact Hm2|].
  intros t Ht Hp. apply index_max_ge. apply filter_In.
  split; [exact Ht|apply Z.eqb_eq; exact Hp].
Qed.

Lemma month_ends_In m :
  In m (VolumeCut.month_ends ts) <->
  In m ts /\ forall t, In t ts -> Calendar.to_period_M t = Calendar.to_period_M m -> t <= m.
Proof.
  unfold VolumeCut.month_ends. rewrite in_map_iff. split.
  - intros (k & <- & Hk). destruct (month_group_max _ Hk) as (H1 & H2 & H3).
    fold (month_group ts k). split; [exact H1|].
    intros t Ht Hp. apply H3; [exact Ht|]. rewrite Hp. exact H2.
  - intros (Hm & Hmax). exists (Calendar.to_period_M m).
    assert (Hk : In (Calendar.to_period_M m) (VolumeCut.group_keys ts))
      by (apply group_keys_In; exists m; auto).
    split; [|exact Hk].
    destruct (month_group_max _ Hk) as (H1 & H2 & H3). fold (month_group ts (Calendar.to_period_M m)).
    assert (m <= index_max (month_group ts (Calendar.to_period_M m))) by (apply H3; auto).
    assert (index_max (month_group ts (Calendar.to_period_M m)) <= m) by (apply Hmax; auto).
    lia.
Qed.


End MonthEnds.

Lemma all_dates_In sd t :
  In t (VolumeCut.all_dates sd) <-> In t (VolumeCut.trading_dates sd).
Proof.
  unfold VolumeCut.all_dates, sorted_dates. rewrite isort_In, nodup_In. reflexivity.
Qed.

Lemma month_end_dates_In sd m :
  In m (VolumeCut.month_end_dates sd) <->
  In m (VolumeCut.trading_dates sd)
  /\ forall t, In t (VolumeCut.trading_dates sd) ->
               Calendar.to_period_M t = Calendar.to_period_M m -> t <= m.
Proof.
  unfold VolumeCut.month_end_dates, sorted_dates.
  rewrite isort_In, month_ends_In, all_dates_In.
  split; intros (H1 & H2); (split; [exact H1|]); intros t Ht; apply H2;
    apply all_dates_In; exact Ht.
Qed.

Lemma month_end_dates_invariant sd sd' :
  (forall t, In t (VolumeCut.trading_dates sd') <-> In t (VolumeCut.trading_dates sd)) ->
  VolumeCut.month_end_dates sd' = VolumeCut.month_end_dates sd.
Proof.
  intro Hsame. unfold VolumeCut.month_end_dates.
  replace (VolumeCut.all_dates sd') with (VolumeCut.all_dates sd); [reflexivity|].
  unfold VolumeCut.all_dates. apply sorted_dates_same_elements; try apply NoDup_nodup.
  intro t. rewrite !nodup_In. symmetry. apply Hsame.
Qed.


(** ** The rolling mean *)

Section RollingFacts.

Import Rolling.

Lemma rolling_mean_length w s : length (rolling_mean w s) = length s.
Proof. unfold rolling_mean. rewrite length_map, length_seq. reflexivity. Qed.

Lemma rolling_mean_nth w s i :
  (i < length s)%nat ->
  nth_error (rolling_mean w s) i = Some (mean_min_periods w (window_at w i s)).
Proof.
  intro Hi. unfold rolling_mean. rewrite nth_error_map, nth_error_seq.
  apply Nat.ltb_lt in Hi. rewrite Hi. reflexivity.
Qed.

Lemma valid_length_le l : (length (valid l) <= length l)%nat.
Proof.
  induction l as [|[q|] l IH]; simpl; lia.
Qed.

Lemma add_obs_None l : fold_left Spec.add_obs l None = None.
Proof. induction l as [|o l IH]; simpl; [reflexivity|exact IH]. Qed.

Lemma sum_all_defined l a :
  length (valid l) = length l ->
  fold_left Spec.add_obs l (Some a) = Some (fold_left Qplus (valid l) a).
Proof.
  revert a. induction l as [|[q|] l IH]; simpl; intros a H.
  - reflexivity.
  - apply IH. lia.
  - pose proof (valid_length_le l). lia.
Qed.

Lemma sum_some_missing l a :
  (length (valid l) < length l)%nat ->
  fold_left Spec.add_obs l (Some a) = None.
Proof.
  revert a. induction l as [|[q|] l IH]; simpl; intros a H.
  - lia.
  - apply IH. lia.
  - apply add_obs_None.
Qed.

(** On a full window the pandas mean is the NaN-propagating mean. *)
Lemma mean_full_window w win :
  (1 <= w)%nat -> length win = w ->
  mean_min_periods w win = Spec.arithmetic_mean win.
Proof.
  intros Hw Hlen. unfold mean_min_periods, Spec.arithmetic_mean.
  pose proof (valid_length_le win) as Hle.
  destruct (Nat.eq_dec (length (valid win)) (length win)) as [E|NE].
  - rewrite (sum_all_defined win 0%Q E). rewrite E, Hlen.
    replace (w <? w)%nat with false by (symmetry; apply Nat.ltb_ge; lia).
    replace (w =? 0)%nat with false by (symmetry; apply Nat.eqb_neq; lia).
    reflexivity.
  - rewrite sum_some_missing by lia.
    replace (length (valid win) <? w)%nat with true
      by (symmetry; apply Nat.ltb_lt; lia).
    reflexivity.
Qed.

Lemma mean_short_window w win :
  (length win < w)%nat -> mean_min_periods w win = None.
Proof.
  intro H. unfold mean_min_periods.
  pose proof (valid_length_le win).
  replace (length (valid win) <? w)%nat with true
    by (symmetry; apply Nat.ltb_lt; lia).
  reflexivity.
Qed.

Lemma window_at_trailing w i s :
  (w <= S i)%nat -> window_at w i s = Spec.trailing w i s.
Proof.
  intro H. unfold window_at, Spec.trailing.
  rewrite firstn_skipn_comm. do 2 f_equal. lia.
Qed.

Lemma rolling_mean_meets_spec w s i :
  (1 <= w)%nat -> (i < length s)%nat ->
  nth_error (rolling_mean w s) i = Some (Spec.rolling_mean_at w s i).
Proof.
  intros Hw Hi. rewrite rolling_mean_nth by exact Hi. f_equal.
  unfold Spec.rolling_mean_at.
  destruct (S i <? w)%nat eqn:E.
  - apply Nat.ltb_lt in E. apply mean_short_window.
    unfold window_at. rewrite length_skipn, length_firstn. lia.
  - apply Nat.ltb_ge in E. rewrite <- window_at_trailing by exact E.
    apply mean_full_window; [exact Hw|].
    unfold window_at. rewrite length_skipn, length_firstn. lia.
Qed.

End RollingFacts.

(** ** Frames and dictionaries *)

Section FrameFacts.

Context {R : Type}.

Lemma in_index_true t (df : frame R) : in_index t df = true <-> In t (index df).
Proof.
  unfold in_index. rewrite existsb_exists. split.
  - intros (x & Hx & E). apply Z.eqb_eq in E. subst. exact Hx.
  - intro H. exists t. split; [exact H|apply Z.eqb_refl].
Qed.

Lemma matching_dates_In (df : frame R) d t :
  In t (matching_dates df d) <-> In t (index df) /\ Calendar.date_of t = d.
Proof.
  unfold matching_dates. rewrite filter_In, Z.eqb_eq. reflexivity.
Qed.

Lemma matching_dates_nil (df : frame R) d :
  matching_dates df d = [] <->
  forall t, In t (index df) -> Calendar.date_of t <> d.
Proof.
  split.
  - intros E t Ht Hd.
    assert (I : In t (matching_dates df d)) by (apply matching_dates_In; auto).
    rewrite E in I. destruct I.
  - intro H. destruct (matching_dates df d) as [|t l] eqn:E; [reflexivity|].
    assert (I : In t (matching_dates df d)) by (rewrite E; left; reflexivity).
    apply matching_dates_In in I. destruct I as (I & Hd). destruct (H t I Hd).
Qed.

Lemma loc_Ok_In (df : frame R) t row : loc df t = Ok row -> In (t, row) df.
Proof.
  unfold loc. destruct (filter (fun r => fst r =? t) df) as [|[t' r'] [|? ?]] eqn:E;
    try discriminate.
  intro H. injection H as <-.
  assert (I : In (t', r') (filter (fun r => fst r =? t) df)) by (rewrite E; left; reflexivity).
  apply filter_In in I. destruct I as (I & Ht). simpl in Ht. apply Z.eqb_eq in Ht.
  subst. exact I.
Qed.

Lemma filter_absent (df : frame R) t :
  ~ In t (index df) -> filter (fun r => fst r =? t) df = [].
Proof.
  induction df as [|[t' r'] df IH]; simpl; intro H; [reflexivity|].
  destruct (Z.eqb_spec t' t) as [->|_]; [exfalso; apply H; left; reflexivity|].
  apply IH. intro I. apply H. right. exact I.
Qed.

Lemma loc_unique (df : frame R) t row :
  NoDup (index df) -> In (t, row) df -> loc df t = Ok row.
Proof.
  unfold loc. induction df as [|[t' r'] df IH]; simpl; intros N I; [destruct I|].
  inversion N as [|? ? Hnin N']; subst.
  destruct I as [E|I].
  - injection E as -> ->. rewrite Z.eqb_refl.
    rewrite (filter_absent df t Hnin). reflexivity.
  - destruct (Z.eqb_spec t' t) as [->|_].
    + exfalso. apply Hnin. apply in_map_iff. exists (t, row). split; [reflexivity|exact I].
    + apply IH; assumption.
Qed.

(** On a label of the index [loc] can only fail on a repeated label. *)
Lemma loc_raise (df : frame R) t e :
  In t (index df) -> loc df t = Raise e -> e = ValueError.
Proof.
  unfold loc. intros I.
  destruct (filter (fun r => fst r =? t) df) as [|r0 [|r1 l]] eqn:E.
  - exfalso. apply in_map_iff in I. destruct I as ([t' r'] & Ht & I). simpl in Ht. subst.
    assert (J : In (t, r') (filter (fun r => fst r =? t) df))
      by (apply filter_In; split; [exact I|apply Z.eqb_refl]).
    rewrite E in J. destruct J.
  - discriminate.
  - congruence.
Qed.

Lemma loc_defined (df : frame R) t :
  NoDup (index df) -> In t (index df) -> exists row, loc df t = Ok row.
Proof.
  intros N I. apply in_map_iff in I. destruct I as ([t' r'] & Ht & I). simpl in Ht. subst.
  exists r'. apply loc_unique; assumption.
Qed.

End FrameFacts.

Section DictFacts.

Context {V : Type}.

Lemma dict_get_In k (d : dict V) v : dict_get k d = Some v -> In (k, v) d.
Proof.
  induction d as [|[k' v'] d IH]; simpl; [discriminate|].
  destruct (String.eqb_spec k k') as [->|_].
  - intro H. injection H as ->. left. reflexivity.
  - intro H. right. apply IH. exact H.
Qed.

Lemma dict_get_None k (d : dict V) : dict_get k d = None <-> ~ In k (map fst d).
Proof.
  induction d as [|[k' v'] d IH]; simpl.
  - split; [intros _ []|reflexivity].
  - destruct (String.eqb_spec k k') as [->|N].
    + split; [discriminate|]. intro H. exfalso. apply H. left. reflexivity.
    + rewrite IH. split; intro H.
      * intros [E|I]; [congruence|contradiction].
      * intro I. apply H. right. exact I.
Qed.

Lemma dict_get_unique k (d : dict V) v :
  NoDup (map fst d) -> In (k, v) d -> dict_get k d = Some v.
Proof.
  induction d as [|[k' v'] d IH]; simpl; intros N I; [destruct I|].
  inversion N as [|? ? Hnin N']; subst.
  destruct I as [E|I].
  - injection E as -> ->. rewrite String.eqb_refl. reflexivity.
  - destruct (String.eqb_spec k k') as [->|_].
    + exfalso. apply Hnin. apply in_map_iff. exists (k', v). split; [reflexivity|exact I].
    + apply IH; assumption.
Qed.

Lemma dict_get_perm k (d d' : dict V) :
  NoDup (map fst d) -> Permutation d d' -> dict_get k d' = dict_get k d.
Proof.
  intros N P.
  assert (N' : NoDup (map fst d'))
    by (eapply Permutation_NoDup; [apply Permutation_map; exact P|exact N]).
  destruct (dict_get k d) as [v|] eqn:E.
  - apply dict_get_unique; [exact N'|].
    eapply Permutation_in; [exact P|]. apply dict_get_In. exact E.
  - apply dict_get_None. apply dict_get_None in E. intro I. apply E.
    eapply Permutation_in; [symmetry; apply Permutation_map; exact P|exact I].
Qed.

End DictFacts.

Lemma filter_perm {A : Type} (f : A -> bool) (l l' : list A) :
  Permutation l l' -> Permutation (filter f l) (filter f l').
Proof.
  induction 1 as [|x l l' P IH|x y l|l l' l'' P IH P' IH']; simpl.
  - constructor.
  - destruct (f x); [constructor|]; exact IH.
  - destruct (f x), (f y); try reflexivity. apply perm_swap.
  - etransitivity; eassumption.
Qed.

(** ** Loading *)

Section LoadingFacts.

Context {R : Type}.
Variable derive : frame obs -> frame R.

Lemma dict_set_fresh {V : Type} k (v : V) (d : dict V) :
  ~ In k (map fst d) -> dict_set k v d = d ++ [(k, v)].
Proof.
  induction d as [|[k' v'] d IH]; simpl; intro H; [reflexivity|].
  destruct (String.eqb_spec k k') as [->|_]; [exfalso; apply H; left; reflexivity|].
  rewrite IH; [reflexivity|]. intro I. apply H. right. exact I.
Qed.

Lemma load_file_skip d f : loadable f = false -> load_file derive d f = d.
Proof.
  destruct f as [stem content]. unfold loadable, load_file. simpl.
  destruct (is_stock_file stem); [|reflexivity].
  destruct content as [| |[|r rows]]; simpl; try reflexivity. discriminate.
Qed.

Lemma load_file_keep d f :
  loadable f = true -> load_file derive d f = dict_set (fst f) (snd (loaded derive f)) d.
Proof.
  destruct f as [stem content]. unfold loadable, load_file, loaded. simpl.
  destruct (is_stock_file stem); [|discriminate].
  destruct content as [| |[|r rows]]; simpl; try discriminate. reflexivity.
Qed.

Lemma load_fold fs : forall acc,
  NoDup (map fst acc ++ map fst (filter loadable fs)) ->
  fold_left (load_file derive) fs acc = acc ++ map (loaded derive) (filter loadable fs).
Proof.
  induction fs as [|f fs IH]; simpl; intros acc N.
  - rewrite app_nil_r. reflexivity.
  - destruct (loadable f) eqn:L.
    + rewrite (load_file_keep _ _ L). simpl in N.
      assert (Hfresh : ~ In (fst f) (map fst acc)).
      { intro I. apply NoDup_remove_2 in N. apply N. apply in_or_app. left. exact I. }
      rewrite (dict_set_fresh _ _ _ Hfresh).
      rewrite IH.
      * rewrite <- app_assoc. reflexivity.
      * rewrite map_app. simpl. rewrite <- app_assoc. simpl.
        eapply Permutation_NoDup; [|exact N].
        apply Permutation_refl.
    + rewrite (load_file_skip _ _ L). apply IH. exact N.
Qed.

Lemma NoDup_keys_filter (fs : folder) f :
  NoDup (map fst fs) -> NoDup (map fst (filter f fs)).
Proof.
  induction fs as [|x fs IH]; simpl; intro N; [constructor|].
  inversion N as [|? ? Hnin N']; subst.
  destruct (f x); simpl; [|apply IH; exact N'].
  constructor; [|apply IH; exact N'].
  intro I. apply Hnin. apply in_map_iff in I. destruct I as (y & E & I).
  apply filter_In in I. apply in_map_iff. exists y. tauto.
Qed.

Lemma load_stock_data_eq fs :
  NoDup (map fst fs) ->
  load_stock_data derive fs = map (loaded derive) (filter loadable fs).
Proof.
  intro N. unfold load_stock_data. rewrite load_fold; [reflexivity|].
  simpl. apply NoDup_keys_filter. exact N.
Qed.

Lemma loaded_keys fs : map fst (map (loaded derive) fs) = map fst fs.
Proof. rewrite map_map. reflexivity. Qed.

Lemma load_stock_data_NoDup fs :
  NoDup (map fst fs) -> NoDup (map fst (load_stock_data derive fs)).
Proof.
  intro N. rewrite load_stock_data_eq by exact N. rewrite loaded_keys.
  apply NoDup_keys_filter. exact N.
Qed.

Lemma load_stock_data_perm fs fs' :
  NoDup (map fst fs) -> Permutation fs fs' ->
  Permutation (load_stock_data derive fs) (load_stock_data derive fs').
Proof.
  intros N P.
  assert (N' : NoDup (map fst fs'))
    by (eapply Permutation_NoDup; [apply Permutation_map; exact P|exact N]).
  rewrite !load_stock_data_eq by assumption.
  apply Permutation_map, filter_perm. exact P.
Qed.

(** A symbol without a non-empty readable table with the needed column is
    not a key of the dictionary. *)
Lemma load_stock_data_absent fs name :
  (forall content, In (name, content) fs -> loadable (name, content) = false) ->
  dict_get name (load_stock_data derive fs) = None.
Proof.
  intro H. unfold load_stock_data.
  assert (G : forall acc, dict_get name acc = None ->
              dict_get name (fold_left (load_file derive) fs acc) = None).
  { induction fs as [|[stem content] fs IH]; cbn [fold_left]; intros acc Hacc;
      [exact Hacc|].
    apply IH.
    - intros c I. apply H. right. exact I.
    - destruct (loadable (stem, content)) eqn:L.
      + rewrite (load_file_keep _ _ L). cbn [fst snd loaded].
        generalize (derive match content with Table rows => rows | _ => [] end).
        intro v0.
        assert (stem <> name).
        { intros ->. rewrite (H content (or_introl eq_refl)) in L. discriminate. }
        clear - Hacc H0. induction acc as [|[k v] acc IHa]; simpl in *.
        * destruct (String.eqb_spec name stem); [congruence|reflexivity].
        * destruct (String.eqb_spec stem k) as [->|Nk]; simpl.
          -- destruct (String.eqb_spec name k); [congruence|].
             destruct (String.eqb_spec name k); [congruence|exact Hacc].
          -- destruct (String.eqb_spec name k); [discriminate|]. apply IHa. exact Hacc.
      + rewrite (load_file_skip _ _ L). exact Hacc. }
  apply G. reflexivity.
Qed.

End LoadingFacts.

(** ** Monotonic narrowing *)

Lemma filter_length_le {A : Type} (f : A -> bool) (l : list A) :
  (length (filter f l) <= length l)%nat.
Proof. induction l as [|x l IH]; simpl; [lia|]. destruct (f x); simpl; lia. Qed.

Lemma volume_passing_stocks_eq threshold sd d p :
  VolumeCut.passing_stocks threshold sd d = Ok p ->
  p = map fst (filter (holds (VolumeCut.passes threshold d)) sd).
Proof.
  unfold VolumeCut.passing_stocks. intro H.
  apply bind_Ok_inv in H. destruct H as (r & Hr & H). injection H as <-.
  rewrite (filterM_Ok _ _ _ Hr). reflexivity.
Qed.

Lemma volume_row_narrows threshold sd d row :
  VolumeCut.result_row threshold sd d = Ok row ->
  date row = Text.strftime d /\ narrows (map fst sd) row.
Proof.
  unfold VolumeCut.result_row. intro H.
  apply bind_Ok_inv in H. destruct H as (p & Hp & H). injection H as <-. simpl.
  split; [reflexivity|]. exists p. repeat split.
  - rewrite (volume_passing_stocks_eq _ _ _ _ Hp). intros s Hs.
    apply in_map_iff in Hs. destruct Hs as (e & <- & He). apply filter_In in He.
    apply in_map. tauto.
  - rewrite (volume_passing_stocks_eq _ _ _ _ Hp).
    rewrite !length_map. apply filter_length_le.
Qed.

Section CutStageFacts.

Context {R : Type}.
Variable condition : R -> bool.
Variable window : nat.

Lemma passing_among_eq sd d cands p :
  passing_among condition sd d cands = Ok p ->
  p = filter (holds (passes condition sd d)) cands.
Proof. apply filterM_Ok. Qed.

Lemma cut_row_narrows sd r row :
  result_row condition sd r = Ok row ->
  date row = Text.strftime (in_date r) /\ narrows (candidates r) row.
Proof.
  unfold result_row. destruct (no_stocks (in_stocks r)) eqn:E.
  - intro H. injection H as <-. simpl. split; [reflexivity|].
    exists []. repeat split; simpl; try reflexivity; [intros s []|lia].
  - intro H. apply bind_Ok_inv in H. destruct H as (p & Hp & H). injection H as <-.
    simpl. split; [reflexivity|]. exists p.
    unfold passing_stocks in Hp. apply passing_among_eq in Hp.
    repeat split.
    + subst p. intros s Hs. apply filter_In in Hs. tauto.
    + subst p. apply filter_length_le.
Qed.

Lemma results_Ok sd rows out :
  results condition window sd rows = Ok out ->
  exists first_valid,
    first_valid_date window sd = Ok first_valid
    /\ Forall2 (fun r row => result_row condition sd r = Ok row)
         (volume_cut_filtered first_valid rows) out.
Proof.
  unfold results. destruct rows as [|r0 rows]; [discriminate|].
  intro H. apply bind_Ok_inv in H. destruct H as (fv & Hfv & H).
  exists fv. split; [exact Hfv|].
  destruct (volume_cut_filtered fv (r0 :: rows)) as [|x l]; [discriminate|].
  apply mapM_Ok. exact H.
Qed.

End CutStageFacts.

Lemma results_narrow {R : Type} (condition : R -> bool) window sd rows out :
  results condition window sd rows = Ok out -> cascade_narrows window sd rows out.
Proof.
  intro H. apply results_Ok in H. destruct H as (fv & Hfv & F).
  exists fv. split; [exact Hfv|].
  eapply Forall2_impl; [|exact F]. intros r row. apply cut_row_narrows.
Qed.

(** C1. Every row a non-ranking stage writes lists symbols of that stage's
    input for the same month-end, and no more of them than the input has:
    the keys of the loaded dictionary for the Liquidity stage, the
    candidates read from the previous stage's row for the Trend-Level and
    Trend-Slope stages. *)
Theorem filter_stages_narrow :
  (forall fs out,
      VolumeCut.volume_cut fs = Ok out ->
      let sd := VolumeCut.stock_data VolumeCut.ROLLING_WINDOW fs in
      Forall2 (fun d row => date row = Text.strftime d /\ narrows (map fst sd) row)
        (VolumeCut.month_end_dates sd) out)
  /\ (forall fs volume_cut_df out,
         SmaCut.sma_cut fs volume_cut_df = Ok out ->
         cascade_narrows SmaCut.SMA_WINDOW
           (SmaCut.stock_data SmaCut.SMA_WINDOW fs) volume_cut_df out)
  /\ (forall arctan_fin np_pi fs volume_cut_df out,
         SmaAngleCut.sma_angle_cut arctan_fin np_pi fs volume_cut_df = Ok out ->
         cascade_narrows SmaAngleCut.SMA_200_WINDOW
           (SmaAngleCut.stock_data arctan_fin np_pi
              SmaAngleCut.SMA_200_WINDOW SmaAngleCut.SMA_50_WINDOW fs)
           volume_cut_df out).
Proof.
  repeat split.
  - intros fs out H sd. unfold VolumeCut.volume_cut, VolumeCut.results in H.
    fold sd in H. destruct (VolumeCut.month_end_dates sd) as [|d ds]; [discriminate|].
    apply mapM_Ok in H. eapply Forall2_impl; [|exact H].
    intros d' row. apply volume_row_narrows.
  - intros fs rows out H. eapply results_narrow. exact H.
  - intros atan pi fs rows out H. eapply results_narrow. exact H.
Qed.

(** ** Derived columns *)

Lemma combine_zip_nth {A B C : Type} (f : A -> B -> C) (df : frame A) (m : list B)
    i t v b :
  nth_error df i = Some (t, v) -> nth_error m i = Some b ->
  nth_error (combine (index df) (Rolling.zip_with f (map snd df) m)) i = Some (t, f v b).
Proof.
  revert m i. induction df as [|[t' v'] df IH]; intros m i Hd Hm.
  - destruct i; discriminate.
  - destruct m as [|b' m]; [destruct i; discriminate|].
    destruct i as [|i]; simpl in *.
    + congruence.
    + apply IH; assumption.
Qed.

Lemma combine_zip_index {A B C : Type} (f : A -> B -> C) (df : frame A) (m : list B) :
  length m = length df ->
  index (combine (index df) (Rolling.zip_with f (map snd df) m)) = index df.
Proof.
  revert m. induction df as [|[t v] df IH]; intros m H; [reflexivity|].
  destruct m as [|b m]; [discriminate|]. simpl in *.
  f_equal. apply IH. lia.
Qed.

Lemma nth_error_defined {A : Type} (l : list A) i :
  (i < length l)%nat -> exists x, nth_error l i = Some x.
Proof.
  intro H. destruct (nth_error l i) as [x|] eqn:E; [exists x; reflexivity|].
  apply nth_error_None in E. lia.
Qed.

Lemma nth_error_lt {A : Type} (l : list A) i x :
  nth_error l i = Some x -> (i < length l)%nat.
Proof. intro H. apply nth_error_Some. congruence. Qed.

Lemma with_avg_volume_index w raw :
  index (VolumeCut.with_avg_volume w raw) = index raw.
Proof.
  apply combine_zip_index. rewrite rolling_mean_length, length_map. reflexivity.
Qed.

Lemma with_avg_volume_nth w raw i t v a :
  nth_error raw i = Some (t, v) ->
  nth_error (Rolling.rolling_mean w (map snd raw)) i = Some a ->
  nth_error (VolumeCut.with_avg_volume w raw) i = Some (t, VolumeCut.Cols v a).
Proof. apply combine_zip_nth. Qed.

Lemma with_sma_index w raw : index (SmaCut.with_sma w raw) = index raw.
Proof.
  apply combine_zip_index. rewrite rolling_mean_length, length_map. reflexivity.
Qed.

Lemma with_sma_nth w raw i t v a :
  nth_error raw i = Some (t, v) ->
  nth_error (Rolling.rolling_mean w (map snd raw)) i = Some a ->
  nth_error (SmaCut.with_sma w raw) i = Some (t, SmaCut.Cols v a).
Proof. apply combine_zip_nth. Qed.

(** ** Comparisons on cells *)

Lemma Qlt_bool_iff x y : Qlt_bool x y = true <-> (x < y)%Q.
Proof.
  unfold Qlt_bool. rewrite negb_true_iff.
  split; intro H.
  - apply Qnot_le_lt. intro Hle. apply Qle_bool_iff in Hle. congruence.
  - destruct (Qle_bool y x) eqn:E; [|reflexivity].
    apply Qle_bool_iff in E. exfalso. exact (Qlt_not_le _ _ H E).
Qed.

Lemma gtb_obs_inv (a b : obs) :
  Num.gtb (of_obs a) (of_obs b) = true ->
  exists x y, a = Some x /\ b = Some y /\ (y < x)%Q.
Proof.
  destruct a as [x|], b as [y|]; simpl; try discriminate.
  intro H. exists x, y. repeat split. apply Qlt_bool_iff. exact H.
Qed.

Lemma gtb_missing_l (b : num) : Num.gtb NaN b = false.
Proof. destruct b; reflexivity. Qed.

(** ** What the inner loops decide *)

Lemma volume_passes_true threshold d e :
  VolumeCut.passes threshold d e = Ok true ->
  exists row q,
    loc (snd e) d = Ok row
    /\ VolumeCut.avg_volume_20d row = Some q
    /\ (threshold < q)%Q.
Proof.
  unfold VolumeCut.passes. destruct (in_index d (snd e)); [|discriminate].
  intro H. apply bind_Ok_inv in H. destruct H as (row & Hrow & H).
  injection H as H. apply andb_true_iff in H. destruct H as (_ & H).
  apply (gtb_obs_inv (VolumeCut.avg_volume_20d row) (Some threshold)) in H.
  destruct H as (x & y & Hx & Hy & Hlt).
  injection Hy as <-. exists row, x. auto.
Qed.

Lemma volume_passes_no_record threshold d e :
  ~ In d (index (snd e)) -> VolumeCut.passes threshold d e = Ok false.
Proof.
  intro H. unfold VolumeCut.passes.
  destruct (in_index d (snd e)) eqn:E; [|reflexivity].
  apply in_index_true in E. contradiction.
Qed.

Lemma volume_passes_missing threshold d e row :
  loc (snd e) d = Ok row -> VolumeCut.avg_volume_20d row = None ->
  VolumeCut.passes threshold d e = Ok false.
Proof.
  intros Hloc Hnone. unfold VolumeCut.passes.
  destruct (in_index d (snd e)); [|reflexivity].
  rewrite Hloc. simpl. rewrite Hnone. reflexivity.
Qed.

Lemma sma_condition_true row :
  SmaCut.condition row = true ->
  exists c s, SmaCut.close row = Some c /\ SmaCut.sma_200 row = Some s /\ (s < c)%Q.
Proof.
  unfold SmaCut.condition. intro H. apply andb_true_iff in H. destruct H as (_ & H).
  apply gtb_obs_inv in H. exact H.
Qed.

Lemma sma_condition_missing row :
  SmaCut.sma_200 row = None -> SmaCut.condition row = false.
Proof. unfold SmaCut.condition. intros ->. reflexivity. Qed.

Lemma angle_condition_true threshold row :
  SmaAngleCut.condition threshold row = true ->
  Num.gtb (SmaAngleCut.angle row) (Fin threshold) = true
  /\ exists c m50 m200,
       SmaAngleCut.close row = Some c
       /\ SmaAngleCut.ma50 row = Some m50
       /\ SmaAngleCut.ma200 row = Some m200
       /\ (m50 < c)%Q /\ (m200 < c)%Q.
Proof.
  unfold SmaAngleCut.condition. intro H.
  repeat (apply andb_true_iff in H; destruct H as (H & ?)).
  split; [assumption|].
  match goal with H1 : Num.gtb _ (of_obs (SmaAngleCut.ma50 row)) = true |- _ =>
    apply gtb_obs_inv in H1; destruct H1 as (c & m50 & Hc & H50 & L50) end.
  match goal with H1 : Num.gtb _ (of_obs (SmaAngleCut.ma200 row)) = true |- _ =>
    apply gtb_obs_inv in H1; destruct H1 as (c' & m200 & Hc' & H200 & L200) end.
  exists c, m50, m200. rewrite Hc in Hc'. injection Hc' as <-. auto.
Qed.

Lemma angle_condition_missing threshold row :
  SmaAngleCut.ma200 row = None \/ SmaAngleCut.ma50 row = None
  \/ SmaAngleCut.angle row = NaN ->
  SmaAngleCut.condition threshold row = false.
Proof.
  unfold SmaAngleCut.condition. intros [H|[H|H]]; rewrite H; simpl.
  - rewrite andb_false_r. reflexivity.
  - rewrite andb_false_r. reflexivity.
  - reflexivity.
Qed.

Lemma filter_no_key {A : Type} (f : A -> Z) (l : list A) k :
  ~ In k (map f l) -> filter (fun y => f y =? k) l = [].
Proof.
  induction l as [|b l IH]; simpl; intro H; [reflexivity|].
  destruct (Z.eqb_spec (f b) k) as [E|_].
  - exfalso. apply H. left. exact E.
  - apply IH. intro I. apply H. right. exact I.
Qed.

Lemma filter_same_key {A : Type} (f : A -> Z) (l : list A) x :
  NoDup (map f l) -> In x l -> filter (fun y => f y =? f x) l = [x].
Proof.
  induction l as [|a l IH]; simpl; intros N I; [destruct I|].
  inversion N as [|? ? Hnin N']; subst.
  destruct I as [->|I].
  - rewrite Z.eqb_refl. f_equal. apply filter_no_key. exact Hnin.
  - destruct (Z.eqb_spec (f a) (f x)) as [E|_].
    + exfalso. apply Hnin. rewrite E. apply in_map. exact I.
    + apply IH; assumption.
Qed.

Section CutPassesFacts.

Context {R : Type}.
Variable condition : R -> bool.

Lemma cut_passes_absent sd d name :
  dict_get name sd = None -> passes condition sd d name = Ok false.
Proof. unfold passes. intros ->. reflexivity. Qed.

Lemma cut_passes_no_record sd d name df :
  dict_get name sd = Some df ->
  (forall t, In t (index df) -> Calendar.date_of t <> Calendar.date_of d) ->
  passes condition sd d name = Ok false.
Proof.
  unfold passes. intros -> H. apply matching_dates_nil in H. rewrite H. reflexivity.
Qed.

Lemma cut_passes_true sd d name :
  passes condition sd d name = Ok true ->
  exists df t row,
    dict_get name sd = Some df
    /\ In (t, row) df
    /\ Calendar.date_of t = Calendar.date_of d
    /\ condition row = true.
Proof.
  unfold passes. destruct (dict_get name sd) as [df|]; [|discriminate].
  destruct (matching_dates df (Calendar.date_of d)) as [|t rest] eqn:E; [discriminate|].
  intro H. apply bind_Ok_inv in H. destruct H as (row & Hrow & H). injection H as H.
  exists df, t, row. repeat split; try assumption.
  - apply loc_Ok_In. exact Hrow.
  - assert (I : In t (matching_dates df (Calendar.date_of d))) by (rewrite E; left; reflexivity).
    apply matching_dates_In in I. tauto.
Qed.

(** With one record per trading day the inner loop tests the record of the
    month-end's calendar date, and never raises. *)
Lemma cut_passes_located sd d name df t row :
  dict_get name sd = Some df ->
  NoDup (map Calendar.date_of (index df)) ->
  In (t, row) df -> Calendar.date_of t = Calendar.date_of d ->
  passes condition sd d name = Ok (condition row).
Proof.
  intros Hget N I Hd. unfold passes. rewrite Hget.
  assert (It : In t (index df)) by (apply in_map_iff; exists (t, row); auto).
  unfold matching_dates. rewrite <- Hd.
  rewrite (filter_same_key Calendar.date_of (index df) t N It).
  rewrite (loc_unique df t row); [reflexivity| |exact I].
  eapply NoDup_map_inv. exact N.
Qed.

Lemma cut_passes_never_raises sd d name :
  (forall df, dict_get name sd = Some df -> NoDup (index df)) ->
  exists b, passes condition sd d name = Ok b.
Proof.
  intro H. unfold passes. destruct (dict_get name sd) as [df|] eqn:G; [|eauto].
  destruct (matching_dates df (Calendar.date_of d)) as [|t rest] eqn:E; [eauto|].
  assert (I : In t (matching_dates df (Calendar.date_of d))) by (rewrite E; left; reflexivity).
  apply matching_dates_In in I. destruct I as (I & _).
  destruct (loc_defined df t (H df eq_refl) I) as (row & ->). simpl. eauto.
Qed.

End CutPassesFacts.

(** ** The angle column *)

Section ColumnFacts.

Import Rolling.

Lemma zip_with_nth {A B C : Type} (f : A -> B -> C) l l' i x y :
  nth_error l i = Some x -> nth_error l' i = Some y ->
  nth_error (zip_with f l l') i = Some (f x y).
Proof.
  revert l' i. induction l as [|a l IH]; intros l' i Hx Hy.
  - destruct i; discriminate.
  - destruct l' as [|b l']; [destruct i; discriminate|].
    destruct i as [|i]; simpl in *; [congruence|]. apply IH; assumption.
Qed.

Lemma zip_with_length {A B C : Type} (f : A -> B -> C) l l' :
  length (zip_with f l l') = Nat.min (length l) (length l').
Proof.
  revert l'. induction l as [|a l IH]; intros [|b l']; simpl; try reflexivity.
  rewrite IH. reflexivity.
Qed.

Lemma shift1_length s : length (shift1 s) = length s.
Proof.
  destruct s as [|x s]; [reflexivity|]. unfold shift1.
  cbn [length]. rewrite removelast_firstn_len, length_firstn. cbn [length]. lia.
Qed.

Lemma shift1_nth s t :
  (t < length s)%nat -> nth_error (shift1 s) t = Some (previous s t).
Proof.
  intro H. destruct s as [|x s]; [simpl in H; lia|]. unfold shift1.
  destruct t as [|t]; [reflexivity|]. cbn [nth_error previous].
  rewrite removelast_firstn_len, nth_error_firstn.
  cbn [length Nat.pred] in *.
  replace (t <? length s)%nat with true by (symmetry; apply Nat.ltb_lt; lia).
  apply nth_error_nth'. cbn [length]. lia.
Qed.

Variable arctan_fin : Q -> Q.
Variable np_pi : Q.

Lemma slope_angle_length ma close :
  length close = length ma ->
  length (SmaAngleCut.slope_angle arctan_fin np_pi ma close) = length ma.
Proof.
  intro H. unfold SmaAngleCut.slope_angle.
  rewrite length_map, !zip_with_length, shift1_length, length_map. lia.
Qed.

Lemma slope_angle_nth ma close t :
  (t < length ma)%nat -> length close = length ma ->
  nth_error (SmaAngleCut.slope_angle arctan_fin np_pi ma close) t =
  Some (SmaAngleCut.degrees_of_slope arctan_fin np_pi
          (Num.div (Num.sub (nth t ma NaN) (previous ma t))
                   (Num.mul (nth t close NaN) (Fin (1 # 100))))).
Proof.
  intros Ht Hlen. unfold SmaAngleCut.slope_angle.
  rewrite nth_error_map.
  erewrite zip_with_nth; [reflexivity| |].
  - apply zip_with_nth; [apply nth_error_nth'; exact Ht|apply shift1_nth; exact Ht].
  - rewrite nth_error_map. rewrite (nth_error_nth' close NaN) by lia. reflexivity.
Qed.

Lemma zip_cols_nth c m2 m5 a i x y z w :
  nth_error c i = Some x -> nth_error m2 i = Some y ->
  nth_error m5 i = Some z -> nth_error a i = Some w ->
  nth_error (SmaAngleCut.zip_cols c m2 m5 a) i = Some (SmaAngleCut.Cols x y z w).
Proof.
  revert m2 m5 a i. induction c as [|x0 c IH]; intros m2 m5 a i Hx Hy Hz Hw.
  - destruct i; discriminate.
  - destruct m2 as [|y0 m2]; [destruct i; discriminate|].
    destruct m5 as [|z0 m5]; [destruct i; discriminate|].
    destruct a as [|w0 a]; [destruct i; discriminate|].
    destruct i as [|i]; simpl in *; [congruence|]. apply IH; assumption.
Qed.

Lemma zip_cols_length c m2 m5 a n :
  length c = n -> length m2 = n -> length m5 = n -> length a = n ->
  length (SmaAngleCut.zip_cols c m2 m5 a) = n.
Proof.
  revert m2 m5 a n. induction c as [|x0 c IH]; intros m2 m5 a n Hc H2 H5 Ha.
  - simpl in *. exact Hc.
  - destruct m2 as [|y0 m2]; [simpl in *; lia|].
    destruct m5 as [|z0 m5]; [simpl in *; lia|].
    destruct a as [|w0 a]; [simpl in *; lia|].
    destruct n as [|n]; [simpl in *; lia|]. simpl in *.
    f_equal. apply IH; lia.
Qed.

Lemma combine_nth {A B : Type} (l : list A) (l' : list B) i a b :
  nth_error l i = Some a -> nth_error l' i = Some b ->
  nth_error (combine l l') i = Some (a, b).
Proof.
  revert l' i. induction l as [|x l IH]; intros l' i Ha Hb.
  - destruct i; discriminate.
  - destruct l' as [|y l']; [destruct i; discriminate|].
    destruct i as [|i]; simpl in *; [congruence|]. apply IH; assumption.
Qed.

Lemma combine_fst {A B : Type} (l : list A) (l' : list B) :
  length l' = length l -> map fst (combine l l') = l.
Proof.
  revert l'. induction l as [|x l IH]; intros [|y l'] H; simpl in *;
    try reflexivity; try discriminate.
  f_equal. apply IH. lia.
Qed.

(** The row the Trend-Slope stage keeps at position [i] of a symbol. *)
Lemma with_angle_nth w200 w50 raw i t v :
  nth_error raw i = Some (t, v) ->
  let close := map snd raw in
  let ma200 := rolling_mean w200 close in
  let ma50 := rolling_mean w50 close in
  exists m200 m50,
    nth_error ma200 i = Some m200
    /\ nth_error ma50 i = Some m50
    /\ nth_error (SmaAngleCut.with_angle arctan_fin np_pi w200 w50 raw) i =
       Some (t, SmaAngleCut.Cols v m200 m50
                 (SmaAngleCut.degrees_of_slope arctan_fin np_pi
                    (Num.div (Num.sub (of_obs m200) (previous (map of_obs ma200) i))
                             (Num.mul (of_obs v) (Fin (1 # 100)))))).
Proof.
  intros H close ma200 ma50.
  pose proof (nth_error_lt _ _ _ H) as Hi.
  assert (Hc : nth_error close i = Some v)
    by (unfold close; rewrite nth_error_map, H; reflexivity).
  destruct (nth_error_defined ma200 i) as (m200 & H200);
    [unfold ma200; rewrite rolling_mean_length; unfold close; rewrite length_map; exact Hi|].
  destruct (nth_error_defined ma50 i) as (m50 & H50);
    [unfold ma50; rewrite rolling_mean_length; unfold close; rewrite length_map; exact Hi|].
  exists m200, m50. repeat split; try assumption.
  unfold SmaAngleCut.with_angle. fold close. fold ma200. fold ma50.
  apply combine_nth.
  - unfold index. rewrite nth_error_map, H. reflexivity.
  - apply zip_cols_nth; try assumption.
    rewrite slope_angle_nth.
    + rewrite (nth_error_nth (map of_obs ma200) i NaN (x := of_obs m200))
        by (rewrite nth_error_map, H200; reflexivity).
      rewrite (nth_error_nth (map of_obs close) i NaN (x := of_obs v))
        by (rewrite nth_error_map, Hc; reflexivity).
      reflexivity.
    + rewrite length_map. unfold ma200. rewrite rolling_mean_length.
      unfold close. rewrite length_map. exact Hi.
    + rewrite !length_map. unfold ma200. rewrite rolling_mean_length. reflexivity.
Qed.

Lemma with_angle_index w200 w50 raw :
  index (SmaAngleCut.with_angle arctan_fin np_pi w200 w50 raw) = index raw.
Proof.
  unfold SmaAngleCut.with_angle, index at 1. apply combine_fst.
  unfold index. rewrite length_map.
  apply zip_cols_length; rewrite ?rolling_mean_length, ?length_map; try reflexivity.
  rewrite slope_angle_length; rewrite !length_map, ?rolling_mean_length, ?length_map;
    reflexivity.
Qed.

End ColumnFacts.

Lemma sub_missing_r x : Num.sub x NaN = NaN.
Proof. destruct x; reflexivity. Qed.

Lemma Qeq_bool_false_iff x y : Qeq_bool x y = false <-> ~ (x == y)%Q.
Proof.
  split.
  - apply Qeq_bool_neq.
  - intro H. destruct (Qeq_bool x y) eqn:E; [|reflexivity].
    apply Qeq_bool_iff in E. contradiction.
Qed.

Lemma degrees_flat arctan_fin np_pi m m' c :
  (forall q, (q == 0)%Q -> (arctan_fin q == 0)%Q) ->
  ~ (np_pi == 0)%Q ->
  (m == m')%Q -> ~ (c == 0)%Q ->
  Num.eqv
    (SmaAngleCut.degrees_of_slope arctan_fin np_pi
       (Num.div (Num.sub (Fin m) (Fin m')) (Num.mul (Fin c) (Fin (1 # 100)))))
    (Fin 0).
Proof.
  intros Hatan Hpi Hm Hc. unfold SmaAngleCut.degrees_of_slope. simpl.
  assert (Hc' : Qeq_bool (c * (1 # 100)) 0 = false).
  { apply Qeq_bool_false_iff. intro E. apply Hc.
    assert (E' : (c * (1 # 100) * 100 == 0 * 100)%Q) by (rewrite E; reflexivity).
    rewrite <- E'. field. }
  rewrite Hc'. simpl.
  assert (Hpi' : Qeq_bool np_pi 0 = false) by (apply Qeq_bool_false_iff; exact Hpi).
  rewrite Hpi'. simpl.
  assert (Hq : ((m - m') / (c * (1 # 100)) == 0)%Q).
  { rewrite Hm. unfold Qdiv. ring. }
  rewrite (Hatan _ Hq). unfold Qdiv. ring.
Qed.

(** C3. On every row [t] of a symbol's frame the angle cell is
    [arctan((ma200[t] - ma200[t-1]) / (close[t] * 0.01)) * 180 / pi], where
    [ma200[t-1]] is the previous row's cell and is missing on the first row;
    the angle is missing as soon as [ma200[t]] or [ma200[t-1]] is missing;
    and it is zero when the two moving averages are equal and the close is a
    non-zero number (for an [arctan] that maps zero to zero and a non-zero
    [pi]). *)
Theorem slope_angle_formula
    (arctan_fin : Q -> Q) (np_pi : Q) (w200 w50 : nat) (raw : frame obs)
    (t : nat) (ts : Timestamp) (row : SmaAngleCut.cols)
    (Hrow : nth_error (SmaAngleCut.with_angle arctan_fin np_pi w200 w50 raw) t
            = Some (ts, row)) :
  let ma := map of_obs (Rolling.rolling_mean w200 (map snd raw)) in
  let ma_t := of_obs (SmaAngleCut.ma200 row) in
  let ma_prev := previous ma t in
  let close_t := of_obs (SmaAngleCut.close row) in
  nth_error ma t = Some ma_t
  /\ SmaAngleCut.angle row =
     Num.div
       (Num.mul
          (SmaAngleCut.arctan arctan_fin np_pi
             (Num.div (Num.sub ma_t ma_prev) (Num.mul close_t (Fin (1 # 100)))))
          (Fin 180))
       (Fin np_pi)
  /\ (ma_t = NaN \/ ma_prev = NaN -> SmaAngleCut.angle row = NaN)
  /\ ((forall q, (q == 0)%Q -> (arctan_fin q == 0)%Q) ->
      ~ (np_pi == 0)%Q ->
      forall m m' c,
        ma_t = Fin m -> ma_prev = Fin m' -> (m == m')%Q ->
        close_t = Fin c -> ~ (c == 0)%Q ->
        Num.eqv (SmaAngleCut.angle row) (Fin 0)).
Proof.
  intros ma ma_t ma_prev close_t.
  assert (Hlen : (t < length raw)%nat).
  { pose proof (nth_error_lt _ _ _ Hrow) as Hl.
    pose proof (f_equal (@List.length _) (with_angle_index arctan_fin np_pi w200 w50 raw))
      as E.
    unfold index in E. rewrite !length_map in E. rewrite <- E. exact Hl. }
  destruct (nth_error_defined raw t Hlen) as ([t0 v] & Hraw).
  destruct (with_angle_nth arctan_fin np_pi w200 w50 raw t t0 v Hraw)
    as (m200 & m50 & H200 & H50 & Hnth).
  rewrite Hnth in Hrow. injection Hrow as -> <-.
  unfold ma_t, close_t. cbn [SmaAngleCut.ma200 SmaAngleCut.close SmaAngleCut.angle].
  split; [unfold ma; rewrite nth_error_map, H200; reflexivity|].
  split; [reflexivity|].
  split.
  - fold ma. fold ma_prev. intros [E|E]; rewrite E.
    + reflexivity.
    + rewrite sub_missing_r. reflexivity.
  - intros Hatan Hpi m m' c Em Ep Hm Ec Hc.
    fold ma. fold ma_prev. rewrite Em, Ep, Ec.
    apply degrees_flat; assumption.
Qed.

(** C2. For a window [w >= 1] the rolling mean of a column is missing on
    the first [w - 1] rows and is afterwards the arithmetic mean of the
    trailing [w] observations; and a symbol whose rolling mean is missing on
    the row of a month-end fails the test of every stage on that month-end,
    whatever the threshold and the close: the inner loop returns [False], it
    neither passes the symbol nor raises.  (One record per calendar day is
    assumed of the symbol's series.) *)
Theorem rolling_mean_defined_after_warmup_else_fail
    (w : nat) (raw : frame obs) (i : nat) (t : Timestamp) (v : obs)
    (Hw : (1 <= w)%nat)
    (Hrow : nth_error raw i = Some (t, v))
    (Hdays : NoDup (map Calendar.date_of (index raw))) :
  let s := map snd raw in
  let mean_i := nth_error (Rolling.rolling_mean w s) i in
  mean_i = Some (Spec.rolling_mean_at w s i)
  /\ ((i < w - 1)%nat -> mean_i = Some None)
  /\ ((w - 1 <= i)%nat ->
      mean_i = Some (Spec.arithmetic_mean (Spec.trailing w i s)))
  /\ (mean_i = Some None ->
      (forall threshold name,
          VolumeCut.passes threshold t (name, VolumeCut.with_avg_volume w raw)
          = Ok false)
      /\ (forall sd name d,
             dict_get name sd = Some (SmaCut.with_sma w raw) ->
             Calendar.date_of d = Calendar.date_of t ->
             passes SmaCut.condition sd d name = Ok false)
      /\ (forall arctan_fin np_pi w50 threshold sd name d,
             dict_get name sd
             = Some (SmaAngleCut.with_angle arctan_fin np_pi w w50 raw) ->
             Calendar.date_of d = Calendar.date_of t ->
             passes (SmaAngleCut.condition threshold) sd d name = Ok false)
      /\ (forall arctan_fin np_pi w200 threshold sd name d,
             dict_get name sd
             = Some (SmaAngleCut.with_angle arctan_fin np_pi w200 w raw) ->
             Calendar.date_of d = Calendar.date_of t ->
             passes (SmaAngleCut.condition threshold) sd d name = Ok false)).
Proof.
  intros s mean_i.
  assert (Hi : (i < length s)%nat)
    by (unfold s; rewrite length_map; eapply nth_error_lt; exact Hrow).
  assert (Hspec : mean_i = Some (Spec.rolling_mean_at w s i))
    by (apply rolling_mean_meets_spec; assumption).
  split; [exact Hspec|]. split; [|split].
  - intro Hlt. rewrite Hspec. unfold Spec.rolling_mean_at.
    replace (S i <? w)%nat with true by (symmetry; apply Nat.ltb_lt; lia).
    reflexivity.
  - intro Hge. rewrite Hspec. unfold Spec.rolling_mean_at.
    replace (S i <? w)%nat with false by (symmetry; apply Nat.ltb_ge; lia).
    reflexivity.
  - intro Hnone. unfold mean_i, s in Hnone.
    assert (Hts : NoDup (index raw)) by (eapply NoDup_map_inv; exact Hdays).
    repeat split.
    + intros threshold name.
      apply volume_passes_missing with (row := VolumeCut.Cols v None); [|reflexivity].
      cbn [snd]. apply loc_unique.
      * rewrite with_avg_volume_index. exact Hts.
      * eapply nth_error_In. apply with_avg_volume_nth; eassumption.
    + intros sd name d Hget Hd.
      rewrite (cut_passes_located SmaCut.condition sd d name _ t (SmaCut.Cols v None) Hget).
      * reflexivity.
      * rewrite with_sma_index. exact Hdays.
      * eapply nth_error_In. apply with_sma_nth; eassumption.
      * symmetry. exact Hd.
    + intros atan pi w50 threshold sd name d Hget Hd.
      destruct (with_angle_nth atan pi w w50 raw i t v Hrow) as (m200 & m50 & H200 & _ & Hnth).
      rewrite Hnone in H200. injection H200 as <-.
      assert (Hd' : NoDup (map Calendar.date_of
                             (index (SmaAngleCut.with_angle atan pi w w50 raw))))
        by (rewrite with_angle_index; exact Hdays).
      rewrite (cut_passes_located _ sd d name _ t _ Hget Hd'
                 (nth_error_In _ _ Hnth) (eq_sym Hd)).
      apply f_equal. apply angle_condition_missing. left. reflexivity.
    + intros atan pi w200 threshold sd name d Hget Hd.
      destruct (with_angle_nth atan pi w200 w raw i t v Hrow) as (m200 & m50 & _ & H50 & Hnth).
      rewrite Hnone in H50. injection H50 as <-.
      assert (Hd' : NoDup (map Calendar.date_of
                             (index (SmaAngleCut.with_angle atan pi w200 w raw))))
        by (rewrite with_angle_index; exact Hdays).
      rewrite (cut_passes_located _ sd d name _ t _ Hget Hd'
                 (nth_error_In _ _ Hnth) (eq_sym Hd)).
      apply f_equal. apply angle_condition_missing. right. left. reflexivity.
Qed.

(** ** Exact-date lookup *)

Lemma holds_true {A : Type} (f : A -> result bool) x :
  holds f x = true <-> f x = Ok true.
Proof.
  unfold holds. destruct (f x) as [[|]|e]; split; congruence.
Qed.

Lemma volume_passing_In threshold sd d p name :
  VolumeCut.passing_stocks threshold sd d = Ok p ->
  (In name p <->
   exists df, In (name, df) sd /\ VolumeCut.passes threshold d (name, df) = Ok true).
Proof.
  intro H. rewrite (volume_passing_stocks_eq _ _ _ _ H). rewrite in_map_iff. split.
  - intros ([n df] & E & I). simpl in E. subst n. apply filter_In in I.
    destruct I as (I & Hh). apply holds_true in Hh. exists df. auto.
  - intros (df & I & Hp). exists (name, df). split; [reflexivity|].
    apply filter_In. split; [exact I|apply holds_true; exact Hp].
Qed.

Lemma passing_among_In {R : Type} (condition : R -> bool) sd d cands p name :
  passing_among condition sd d cands = Ok p ->
  (In name p <-> In name cands /\ passes condition sd d name = Ok true).
Proof.
  intro H. rewrite (passing_among_eq _ _ _ _ _ H), filter_In, holds_true. reflexivity.
Qed.

Lemma volume_passes_never_raises threshold d e :
  NoDup (index (snd e)) -> exists b, VolumeCut.passes threshold d e = Ok b.
Proof.
  intro N. unfold VolumeCut.passes. destruct (in_index d (snd e)) eqn:E; [|eauto].
  apply in_index_true in E. destruct (loc_defined _ _ N E) as (row & ->). simpl. eauto.
Qed.

Lemma trading_dates_In sd (e : string * frame VolumeCut.cols) t :
  In e sd -> In t (index (snd e)) -> In t (VolumeCut.trading_dates sd).
Proof.
  intros He Ht. unfold VolumeCut.trading_dates. apply in_concat.
  exists (index (snd e)). split; [|exact Ht].
  apply in_map_iff. exists e. auto.
Qed.

(** With one timestamp per calendar day over the whole universe, the
    Liquidity loop tests the record of the month-end's calendar day. *)
Lemma volume_passes_located threshold sd d e t row :
  one_timestamp_per_day sd ->
  In e sd -> In d (VolumeCut.month_end_dates sd) ->
  NoDup (index (snd e)) ->
  In (t, row) (snd e) -> Calendar.date_of t = Calendar.date_of d ->
  VolumeCut.passes threshold d e = Ok (above threshold (VolumeCut.avg_volume_20d row)).
Proof.
  intros Hday He Hd N I Hdate.
  assert (It : In t (index (snd e))) by (apply in_map_iff; exists (t, row); auto).
  assert (t = d) as ->.
  { apply Hday; [eapply trading_dates_In; eassumption| |exact Hdate].
    apply month_end_dates_In in Hd. apply Hd. }
  unfold VolumeCut.passes.
  replace (in_index d (snd e)) with true by (symmetry; apply in_index_true; exact It).
  rewrite (loc_unique _ _ _ N I). reflexivity.
Qed.

(** X18. In every filter stage a symbol is listed for a month-end only on
    the strength of a record of its own series dated that very calendar
    day, on which every metric of the test is defined and the test holds.
    The Trend-Level and Trend-Slope stages test the record of the month-end's
    calendar day (with one record per day).  The Liquidity stage looks the
    month-end timestamp itself up: a symbol without a record at that
    timestamp fails, and the record found is the one of the calendar day
    when the universe has one timestamp per day.  Without a record on that
    day the inner loop returns [False], and so it does when a metric of
    the record is missing; on series without repeated timestamps it never
    raises. *)
Theorem exact_date_lookup_or_silent_exclusion :
  (forall threshold sd d,
      (forall p name,
          VolumeCut.passing_stocks threshold sd d = Ok p -> In name p ->
          exists df row q,
            In (name, df) sd /\ In (d, row) df
            /\ VolumeCut.avg_volume_20d row = Some q /\ (threshold < q)%Q)
      /\ (forall e t row,
             one_timestamp_per_day sd ->
             In e sd -> In d (VolumeCut.month_end_dates sd) ->
             NoDup (index (snd e)) ->
             In (t, row) (snd e) -> Calendar.date_of t = Calendar.date_of d ->
             VolumeCut.passes threshold d e
             = Ok (above threshold (VolumeCut.avg_volume_20d row)))
      /\ (forall e,
             (forall t, In t (index (snd e)) ->
                        Calendar.date_of t <> Calendar.date_of d) ->
             VolumeCut.passes threshold d e = Ok false)
      /\ (forall e row,
             NoDup (index (snd e)) -> In (d, row) (snd e) ->
             VolumeCut.avg_volume_20d row = None ->
             VolumeCut.passes threshold d e = Ok false)
      /\ (forall e, NoDup (index (snd e)) ->
                    exists b, VolumeCut.passes threshold d e = Ok b)
      /\ (forall e, ~ In d (index (snd e)) ->
                    VolumeCut.passes threshold d e = Ok false)
      /\ (forall e row,
             NoDup (index (snd e)) -> In (d, row) (snd e) ->
             VolumeCut.passes threshold d e
             = Ok (above threshold (VolumeCut.avg_volume_20d row))))
  /\ (forall sd d cands,
         (forall p name,
             passing_among SmaCut.condition sd d cands = Ok p -> In name p ->
             exists df t row c s,
               dict_get name sd = Some df /\ In (t, row) df
               /\ Calendar.date_of t = Calendar.date_of d
               /\ SmaCut.close row = Some c /\ SmaCut.sma_200 row = Some s
               /\ (s < c)%Q)
         /\ (forall name df t row,
                dict_get name sd = Some df ->
                NoDup (map Calendar.date_of (index df)) ->
                In (t, row) df -> Calendar.date_of t = Calendar.date_of d ->
                passes SmaCut.condition sd d name = Ok (SmaCut.condition row)
                /\ (SmaCut.close row = None \/ SmaCut.sma_200 row = None ->
                    SmaCut.condition row = false))
         /\ (forall name df,
                dict_get name sd = Some df ->
                (forall t, In t (index df) ->
                           Calendar.date_of t <> Calendar.date_of d) ->
                passes SmaCut.condition sd d name = Ok false)
         /\ (forall name,
                (forall df, dict_get name sd = Some df -> NoDup (index df)) ->
                exists b, passes SmaCut.condition sd d name = Ok b))
  /\ (forall threshold sd d cands,
         (forall p name,
             passing_among (SmaAngleCut.condition threshold) sd d cands = Ok p ->
             In name p ->
             exists df t row c m50 m200,
               dict_get name sd = Some df /\ In (t, row) df
               /\ Calendar.date_of t = Calendar.date_of d
               /\ Num.gtb (SmaAngleCut.angle row) (Fin threshold) = true
               /\ SmaAngleCut.close row = Some c
               /\ SmaAngleCut.ma50 row = Some m50
               /\ SmaAngleCut.ma200 row = Some m200
               /\ (m50 < c)%Q /\ (m200 < c)%Q)
         /\ (forall name df t row,
                dict_get name sd = Some df ->
                NoDup (map Calendar.date_of (index df)) ->
                In (t, row) df -> Calendar.date_of t = Calendar.date_of d ->
                passes (SmaAngleCut.condition threshold) sd d name
                = Ok (SmaAngleCut.condition threshold row)
                /\ (SmaAngleCut.close row = None \/ SmaAngleCut.ma200 row = None
                    \/ SmaAngleCut.ma50 row = None \/ SmaAngleCut.angle row = NaN ->
                    SmaAngleCut.condition threshold row = false))
         /\ (forall name df,
                dict_get name sd = Some df ->
                (forall t, In t (index df) ->
                           Calendar.date_of t <> Calendar.date_of d) ->
                passes (SmaAngleCut.condition threshold) sd d name = Ok false)
         /\ (forall name,
                (forall df, dict_get name sd = Some df -> NoDup (index df)) ->
                exists b, passes (SmaAngleCut.condition threshold) sd d name = Ok b)).
Proof.
  split; [|split].
  - intros threshold sd d. repeat split.
    + intros p name Hp Hin. apply (volume_passing_In _ _ _ _ _ Hp) in Hin.
      destruct Hin as (df & I & Hpass). apply volume_passes_true in Hpass.
      destruct Hpass as (row & q & Hloc & Havg & Hlt). apply loc_Ok_In in Hloc.
      exists df, row, q. auto.
    + intros e t row. apply volume_passes_located.
    + intros e H. apply volume_passes_no_record. intro I. exact (H d I eq_refl).
    + intros e row N I Hnone. eapply volume_passes_missing; [|exact Hnone].
      apply loc_unique; assumption.
    + intros e N. apply volume_passes_never_raises. exact N.
    + intros e H. apply volume_passes_no_record. exact H.
    + intros e row N I. unfold VolumeCut.passes.
      replace (in_index d (snd e)) with true.
      * rewrite (loc_unique _ _ _ N I). reflexivity.
      * symmetry. apply in_index_true. apply in_map_iff. exists (d, row). auto.
  - intros sd d cands. split; [|split; [|split]].
    + intros p name Hp Hin. apply (passing_among_In _ _ _ _ _ _ Hp) in Hin.
      destruct Hin as (_ & Hpass). apply cut_passes_true in Hpass.
      destruct Hpass as (df & t & row & Hget & I & Hd & Hc).
      apply sma_condition_true in Hc. destruct Hc as (c & s & Hc & Hs & Hlt).
      exists df, t, row, c, s. auto 10.
    + intros name df t row Hget N I Hd. split.
      * apply (cut_passes_located _ sd d name df t row Hget N I Hd).
      * unfold SmaCut.condition. intros [-> | ->]; simpl.
        -- rewrite gtb_missing_l. apply andb_false_r.
        -- reflexivity.
    + intros name df Hget H. eapply cut_passes_no_record; eassumption.
    + intros name H. apply cut_passes_never_raises. exact H.
  - intros threshold sd d cands. split; [|split; [|split]].
    + intros p name Hp Hin. apply (passing_among_In _ _ _ _ _ _ Hp) in Hin.
      destruct Hin as (_ & Hpass). apply cut_passes_true in Hpass.
      destruct Hpass as (df & t & row & Hget & I & Hd & Hc).
      apply angle_condition_true in Hc.
      destruct Hc as (Ha & c & m50 & m200 & Hc & H50 & H200 & L50 & L200).
      exists df, t, row, c, m50, m200. auto 12.
    + intros name df t row Hget N I Hd. split.
      * apply (cut_passes_located _ sd d name df t row Hget N I Hd).
      * intros [Hc|Hmiss]; [|apply angle_condition_missing; exact Hmiss].
        unfold SmaAngleCut.condition. rewrite Hc. cbn [of_obs].
        rewrite !gtb_missing_l, !andb_false_r. reflexivity.
    + intros name df Hget H. eapply cut_passes_no_record; eassumption.
    + intros name H. apply cut_passes_never_raises. exact H.
Qed.

(** C7. The Liquidity stage does not locate a symbol's record by calendar
    date: it looks the month-end timestamp itself up.  In a universe stamped
    at 09:15 in one file and at 15:30 in the other, the month-end of
    February 2020 is the 15:30 timestamp of 2020-02-29; the symbol stamped at
    09:15 has a record on that calendar day, with an average volume above
    the threshold, and the lookup by day that the other stages make finds
    it, yet the Liquidity stage leaves it out of every row. *)
Theorem liquidity_misses_the_record_of_the_day :
  let sd := VolumeCut.stock_data VolumeCut.ROLLING_WINDOW Fixture.mixed_folder in
  let morning := VolumeCut.with_avg_volume VolumeCut.ROLLING_WINDOW Sample.steady in
  let month_end := Fixture.at_close 18321 in
  let record := Sample.at_open 18321 in
  VolumeCut.month_end_dates sd
  = [Fixture.at_close 18292; month_end; Fixture.at_close 18325]
  /\ dict_get "MORNING"%string sd = Some morning
  /\ Calendar.date_of record = Calendar.date_of month_end
  /\ matching_dates morning (Calendar.date_of month_end) = [record]
  /\ (exists row q,
        loc morning record = Ok row
        /\ VolumeCut.avg_volume_20d row = Some q
        /\ (VolumeCut.VOLUME_THRESHOLD < q)%Q)
  /\ VolumeCut.passes VolumeCut.VOLUME_THRESHOLD month_end ("MORNING"%string, morning)
     = Ok false
  /\ VolumeCut.volume_cut Fixture.mixed_folder
     = Ok [CutRow "2020-01-31" "" 0; CutRow "2020-02-29" "EVENING" 1;
           CutRow "2020-03-04" "EVENING" 1].
Proof.
  intros sd morning month_end record.
  split; [vm_compute; reflexivity|]. split; [vm_compute; reflexivity|].
  split; [vm_compute; reflexivity|]. split; [vm_compute; reflexivity|].
  split; [|split; vm_compute; reflexivity].
  exists (VolumeCut.Cols (Some 600000%Q) (Some (12000000 # 20)%Q)), (12000000 # 20)%Q.
  split; [vm_compute; reflexivity|]. split; [reflexivity|].
  vm_compute. reflexivity.
Qed.

(** ** Symbols without a series *)

Lemma In_firstn {A : Type} (n : nat) (l : list A) x : In x (firstn n l) -> In x l.
Proof.
  revert l. induction n as [|n IH]; intros [|a l]; simpl; try tauto.
  intros [E|I]; [left; exact E|right; apply IH; exact I].
Qed.

Lemma rs_entry_absent sd d back nifty_ret name :
  dict_get name sd = None ->
  RelativeRank.rs_entry sd d back nifty_ret name = Ok None.
Proof. unfold RelativeRank.rs_entry. intros ->. reflexivity. Qed.

Lemma rs_entry_stock sd d back nifty_ret name e :
  RelativeRank.rs_entry sd d back nifty_ret name = Ok (Some e) ->
  RelativeRank.stock e = name /\ dict_get name sd <> None.
Proof.
  unfold RelativeRank.rs_entry. destruct (dict_get name sd) as [df|]; [|discriminate].
  destruct (matching_dates df (Calendar.date_of d)) as [|c ?]; [discriminate|].
  destruct (matching_dates df back) as [|p ?]; [discriminate|].
  intro H. apply bind_Ok_inv in H. destruct H as (cp & _ & H).
  apply bind_Ok_inv in H. destruct H as (pp & _ & H).
  injection H as H.
  match type of H with (if ?b then _ else _) = _ => destruct b end; [|discriminate].
  injection H as <-. split; [reflexivity|discriminate].
Qed.

Lemma other_than_false name s : other_than name s = false -> s = name.
Proof.
  unfold other_than. rewrite negb_false_iff. apply String.eqb_eq.
Qed.

(** C10. A candidate whose series is not in the dictionary (no file, a file
    that could not be read, that lacks the column or has no row) is skipped
    by the Trend-Level, Trend-Slope and ranking loops: the outcome for the
    month-end, exceptions included, is the one obtained without that
    candidate, and the candidate is not in it. *)
Theorem absent_symbol_is_skipped (name : string) :
  (forall (R : Type) (derive : frame obs -> frame R) fs,
      (forall content, In (name, content) fs -> loadable (name, content) = false) ->
      dict_get name (load_stock_data derive fs) = None)
  /\ (forall sd d cands,
         dict_get name sd = None ->
         passing_among SmaCut.condition sd d (filter (other_than name) cands)
         = passing_among SmaCut.condition sd d cands
         /\ forall p, passing_among SmaCut.condition sd d cands = Ok p -> ~ In name p)
  /\ (forall threshold sd d cands,
         dict_get name sd = None ->
         passing_among (SmaAngleCut.condition threshold) sd d
           (filter (other_than name) cands)
         = passing_among (SmaAngleCut.condition threshold) sd d cands
         /\ forall p,
             passing_among (SmaAngleCut.condition threshold) sd d cands = Ok p ->
             ~ In name p)
  /\ (forall sd d back nifty_ret cands,
         dict_get name sd = None ->
         RelativeRank.stock_rs_data sd d back nifty_ret (filter (other_than name) cands)
         = RelativeRank.stock_rs_data sd d back nifty_ret cands
         /\ forall l top_n e,
             RelativeRank.stock_rs_data sd d back nifty_ret cands = Ok l ->
             In e (RelativeRank.top_stocks top_n l) ->
             RelativeRank.stock e <> name).
Proof.
  split; [|split; [|split]].
  - intros R derive fs H. apply load_stock_data_absent. exact H.
  - intros sd d cands Habs. split.
    + unfold passing_among. apply filterM_drop. intros s _ Hs.
      apply other_than_false in Hs. subst s. apply cut_passes_absent. exact Habs.
    + intros p Hp Hin. apply (passing_among_In _ _ _ _ _ _ Hp) in Hin.
      destruct Hin as (_ & Hpass). rewrite cut_passes_absent in Hpass by exact Habs.
      discriminate.
  - intros threshold sd d cands Habs. split.
    + unfold passing_among. apply filterM_drop. intros s _ Hs.
      apply other_than_false in Hs. subst s. apply cut_passes_absent. exact Habs.
    + intros p Hp Hin. apply (passing_among_In _ _ _ _ _ _ Hp) in Hin.
      destruct Hin as (_ & Hpass). rewrite cut_passes_absent in Hpass by exact Habs.
      discriminate.
  - intros sd d back nifty_ret cands Habs. split.
    + unfold RelativeRank.stock_rs_data. apply collectM_drop. intros s _ Hs.
      apply other_than_false in Hs. subst s. apply rs_entry_absent. exact Habs.
    + intros l top_n e Hl Hin Hname.
      unfold RelativeRank.top_stocks in Hin. apply In_firstn in Hin.
      unfold RelativeRank.sort_by_ratio in Hin. apply isort_In in Hin.
      destruct (collectM_In _ _ _ Hl e Hin) as (s & _ & Hs).
      apply rs_entry_stock in Hs. destruct Hs as (Hs & Hget).
      apply Hget. rewrite <- Hs, Hname. exact Habs.
Qed.

(** ** The warm-up cutoff *)

Lemma fold_min_spec (l : list Z) (a : Z) :
  In (fold_left Z.min l a) (a :: l)
  /\ forall x, In x (a :: l) -> fold_left Z.min l a <= x.
Proof.
  revert a. induction l as [|b l IH]; intro a; simpl.
  - split; [left; reflexivity|]. intros x [<-|[]]. lia.
  - destruct (IH (Z.min a b)) as (Hin & Hle). split.
    + destruct Hin as [E|Hin]; [|right; right; exact Hin].
      rewrite <- E. destruct (Z.min_spec a b) as [[_ ->]|[_ ->]]; auto.
    + intros x Hx.
      assert (Hm : fold_left Z.min l (Z.min a b) <= Z.min a b)
        by (apply Hle; left; reflexivity).
      destruct Hx as [<-|[<-|Hx]]; [lia|lia|].
      apply Hle. right. exact Hx.
Qed.

Section CutoffFacts.

Context {R : Type}.
Variable condition : R -> bool.

Lemma min_date_spec (sd : dict (frame R)) m :
  min_date sd = Ok m ->
  In m (map (fun e => index_min (snd e)) sd)
  /\ forall e, In e sd -> m <= index_min (snd e).
Proof.
  unfold min_date. destruct sd as [|e0 sd]; [discriminate|].
  cbn [map]. intro H. injection H as <-.
  destruct (fold_min_spec (map (fun e => index_min (snd e)) sd) (index_min (snd e0)))
    as (Hin & Hle).
  split; [exact Hin|].
  intros e He. apply Hle.
  destruct He as [<-|He]; [left; reflexivity|right].
  apply in_map_iff. exists e. auto.
Qed.

Lemma result_row_empty sd r row :
  result_row condition sd r = Ok row ->
  date row = Text.strftime (in_date r)
  /\ (no_stocks (in_stocks r) = true -> stocks row = EmptyString /\ count row = 0%nat).
Proof.
  unfold result_row. destruct (no_stocks (in_stocks r)).
  - intro H. injection H as <-. simpl. auto.
  - intro H. apply bind_Ok_inv in H. destruct H as (p & _ & H). injection H as <-.
    simpl. split; [reflexivity|discriminate].
Qed.

Lemma results_from_cutoff sd rows out :
  results condition 200 sd rows = Ok out -> reports_from_cutoff sd rows out.
Proof.
  intro H. apply results_Ok in H. destruct H as (fv & Hfv & F).
  unfold first_valid_date in Hfv. apply bind_Ok_inv in Hfv.
  destruct Hfv as (m & Hm & Hfv). injection Hfv as <-.
  destruct (min_date_spec sd m Hm) as (Hin & Hle).
  exists m. repeat split; try assumption.
  eapply Forall2_impl; [|exact F]. intros r row. apply result_row_empty.
Qed.

Lemma result_row_total sd r :
  (forall name df, dict_get name sd = Some df -> NoDup (index df)) ->
  exists row, result_row condition sd r = Ok row.
Proof.
  intro H. unfold result_row. destruct (no_stocks (in_stocks r)); [eauto|].
  unfold passing_stocks, passing_among.
  rewrite filterM_total; [simpl; eauto|].
  intros name _. apply cut_passes_never_raises. intros df Hdf. eapply H. exact Hdf.
Qed.

Lemma results_total window sd rows :
  sd <> [] ->
  (forall name df, dict_get name sd = Some df -> NoDup (index df)) ->
  (forall first_valid, first_valid_date window sd = Ok first_valid ->
     exists r, In r rows /\ first_valid <= in_date r) ->
  exists out, results condition window sd rows = Ok out.
Proof.
  intros Hsd Hnd Hrange. unfold results.
  assert (Hfv : exists fv, first_valid_date window sd = Ok fv).
  { unfold first_valid_date, min_date. destruct sd as [|e sd']; [congruence|].
    simpl. eauto. }
  destruct Hfv as (fv & Hfv). destruct (Hrange fv Hfv) as (r & Hr & Hle).
  destruct rows as [|r0 rows]; [destruct Hr|].
  rewrite Hfv. cbn [bind].
  assert (I : In r (volume_cut_filtered fv (r0 :: rows)))
    by (apply filter_In; split; [exact Hr|apply Z.leb_le; exact Hle]).
  destruct (volume_cut_filtered fv (r0 :: rows)) as [|x l] eqn:E; [destruct I|].
  apply mapM_total. intros y _. apply result_row_total. exact Hnd.
Qed.

End CutoffFacts.

(** C8. The Trend-Level and Trend-Slope scripts write one row for each input
    row dated on or after the earliest first timestamp of the loaded series
    plus 300 days (1.5 times the 200-row window), in input order, and none
    for an earlier input row; a reported row whose input has no candidate has
    an empty [stocks] field and count 0.  They do write these rows as soon as
    some symbol is loaded, some input row is in range and no series repeats
    a timestamp. *)
Theorem warmup_cutoff_selects_rows :
  (forall fs volume_cut_df out,
      SmaCut.sma_cut fs volume_cut_df = Ok out ->
      reports_from_cutoff (SmaCut.stock_data SmaCut.SMA_WINDOW fs) volume_cut_df out)
  /\ (forall arctan_fin np_pi fs volume_cut_df out,
         SmaAngleCut.sma_angle_cut arctan_fin np_pi fs volume_cut_df = Ok out ->
         reports_from_cutoff
           (SmaAngleCut.stock_data arctan_fin np_pi
              SmaAngleCut.SMA_200_WINDOW SmaAngleCut.SMA_50_WINDOW fs)
           volume_cut_df out)
  /\ (forall fs volume_cut_df,
         let sd := SmaCut.stock_data SmaCut.SMA_WINDOW fs in
         sd <> [] ->
         (forall name df, dict_get name sd = Some df -> NoDup (index df)) ->
         (forall earliest, min_date sd = Ok earliest ->
            exists r, In r volume_cut_df
                      /\ earliest + 300 * Calendar.ns_per_day <= in_date r) ->
         exists out, SmaCut.sma_cut fs volume_cut_df = Ok out)
  /\ (forall arctan_fin np_pi fs volume_cut_df,
         let sd := SmaAngleCut.stock_data arctan_fin np_pi
                     SmaAngleCut.SMA_200_WINDOW SmaAngleCut.SMA_50_WINDOW fs in
         sd <> [] ->
         (forall name df, dict_get name sd = Some df -> NoDup (index df)) ->
         (forall earliest, min_date sd = Ok earliest ->
            exists r, In r volume_cut_df
                      /\ earliest + 300 * Calendar.ns_per_day <= in_date r) ->
         exists out, SmaAngleCut.sma_angle_cut arctan_fin np_pi fs volume_cut_df = Ok out).
Proof.
  split; [|split; [|split]].
  - intros fs rows out H. eapply results_from_cutoff. exact H.
  - intros atan pi fs rows out H. eapply results_from_cutoff. exact H.
  - intros fs rows sd Hsd Hnd Hrange. apply results_total; try assumption.
    intros fv Hfv. unfold first_valid_date in Hfv. apply bind_Ok_inv in Hfv.
    destruct Hfv as (m & Hm & Hfv). injection Hfv as <-.
    exact (Hrange m Hm).
  - intros atan pi fs rows sd Hsd Hnd Hrange. apply results_total; try assumption.
    intros fv Hfv. unfold first_valid_date in Hfv. apply bind_Ok_inv in Hfv.
    destruct Hfv as (m & Hm & Hfv). injection Hfv as <-.
    exact (Hrange m Hm).
Qed.

(** ** Independence of the iteration order *)

Lemma ascii_compare_trans_lt a b c :
  Ascii.compare a b = Lt -> Ascii.compare b c = Lt -> Ascii.compare a c = Lt.
Proof.
  unfold Ascii.compare. rewrite !N.compare_lt_iff. lia.
Qed.

Lemma string_leb_trans s1 s2 s3 :
  String.leb s1 s2 = true -> String.leb s2 s3 = true -> String.leb s1 s3 = true.
Proof.
  unfold String.leb. revert s2 s3.
  induction s1 as [|a s1 IH]; intros [|b s2] [|c s3]; simpl; try congruence.
  destruct (Ascii.compare a b) eqn:Eab; try congruence.
  - apply Ascii.compare_eq_iff in Eab. subst b.
    destruct (Ascii.compare a c) eqn:Eac; try congruence. apply IH.
  - destruct (Ascii.compare b c) eqn:Ebc; try congruence.
    + apply Ascii.compare_eq_iff in Ebc. subst c. rewrite Eab. reflexivity.
    + rewrite (ascii_compare_trans_lt _ _ _ Eab Ebc). reflexivity.
Qed.

Lemma sorted_names_perm l l' :
  Permutation l l' -> sorted_names l = sorted_names l'.
Proof.
  apply (isort_perm_invariant String.leb String.leb_total string_leb_trans
           String.leb_antisym).
Qed.

Lemma sorted_names_sorted l :
  StronglySorted (fun a b => String.leb a b = true) (sorted_names l).
Proof. apply (isort_strongly_sorted String.leb String.leb_total string_leb_trans). Qed.

Lemma filterM_cases {A : Type} (f : A -> result bool) (e0 : exn) (l : list A) :
  (forall x e, In x l -> f x = Raise e -> e = e0) ->
  filterM f l = if forallb (succeeds f) l then Ok (filter (holds f) l) else Raise e0.
Proof.
  induction l as [|x l IH]; intro H; [reflexivity|].
  cbn [filterM forallb filter].
  rewrite IH by (intros y e Hy; apply H; right; exact Hy).
  assert (Hs : succeeds f x = match f x with Ok _ => true | Raise _ => false end)
    by reflexivity.
  assert (Hh : holds f x = match f x with Ok true => true | _ => false end)
    by reflexivity.
  rewrite Hs, Hh. destruct (f x) as [b|e] eqn:E; cbn [bind andb].
  - destruct (forallb (succeeds f) l); cbn [bind]; [destruct b|]; reflexivity.
  - rewrite (H x e (or_introl eq_refl) E). reflexivity.
Qed.

Lemma forallb_perm {A : Type} (f : A -> bool) (l l' : list A) :
  Permutation l l' -> forallb f l = forallb f l'.
Proof.
  induction 1 as [|x l l' P IH|x y l|l l' l'' P IH P' IH']; simpl.
  - reflexivity.
  - rewrite IH. reflexivity.
  - destruct (f x), (f y); reflexivity.
  - congruence.
Qed.

Lemma volume_passes_raise threshold d e ex :
  VolumeCut.passes threshold d e = Raise ex -> ex = ValueError.
Proof.
  unfold VolumeCut.passes. destruct (in_index d (snd e)) eqn:E; [|discriminate].
  apply in_index_true in E.
  destruct (loc (snd e) d) as [row|ex'] eqn:L; simpl; [discriminate|].
  intro H. injection H as <-. eapply loc_raise; eassumption.
Qed.

Lemma volume_result_row_perm threshold sd sd' d :
  Permutation sd sd' ->
  VolumeCut.result_row threshold sd' d = VolumeCut.result_row threshold sd d.
Proof.
  intro P. unfold VolumeCut.result_row, VolumeCut.passing_stocks.
  rewrite !(filterM_cases _ ValueError)
    by (intros x e _; apply volume_passes_raise).
  rewrite <- (forallb_perm _ _ _ P).
  destruct (forallb _ sd); [|reflexivity]. simpl.
  assert (Q : Permutation
                (map fst (filter (holds (VolumeCut.passes threshold d)) sd'))
                (map fst (filter (holds (VolumeCut.passes threshold d)) sd)))
    by (apply Permutation_map, filter_perm; symmetry; exact P).
  rewrite (sorted_names_perm _ _ Q), (Permutation_length Q). reflexivity.
Qed.

Lemma trading_dates_perm sd sd' t :
  Permutation sd sd' ->
  (In t (VolumeCut.trading_dates sd') <-> In t (VolumeCut.trading_dates sd)).
Proof.
  intro P. unfold VolumeCut.trading_dates. rewrite !in_concat.
  split; intros (ix & Hix & Ht); exists ix; (split; [|exact Ht]);
    apply in_map_iff in Hix; destruct Hix as (e & <- & He);
    apply in_map_iff; exists e; (split; [reflexivity|]).
  - eapply Permutation_in; [symmetry; exact P|exact He].
  - eapply Permutation_in; [exact P|exact He].
Qed.

Lemma volume_results_perm threshold sd sd' :
  Permutation sd sd' ->
  VolumeCut.results threshold sd' = VolumeCut.results threshold sd.
Proof.
  intro P. unfold VolumeCut.results.
  rewrite (month_end_dates_invariant sd sd')
    by (intro t; apply trading_dates_perm; exact P).
  destruct (VolumeCut.month_end_dates sd) as [|d ds]; [reflexivity|].
  apply mapM_ext. intros x _. apply volume_result_row_perm. exact P.
Qed.

Lemma fold_min_perm (l l' : list Z) a a' :
  Permutation (a :: l) (a' :: l') -> fold_left Z.min l a = fold_left Z.min l' a'.
Proof.
  intro P.
  destruct (fold_min_spec l a) as (Hin & Hle).
  destruct (fold_min_spec l' a') as (Hin' & Hle').
  assert (fold_left Z.min l a <= fold_left Z.min l' a').
  { apply Hle. eapply Permutation_in; [symmetry; exact P|exact Hin']. }
  assert (fold_left Z.min l' a' <= fold_left Z.min l a).
  { apply Hle'. eapply Permutation_in; [exact P|exact Hin]. }
  lia.
Qed.

Section CutPermFacts.

Context {R : Type}.
Variable condition : R -> bool.
Variable window : nat.

Lemma min_date_perm (sd sd' : dict (frame R)) :
  Permutation sd sd' -> min_date sd' = min_date sd.
Proof.
  intro P. unfold min_date.
  assert (Q : Permutation (map (fun e => index_min (snd e)) sd')
                (map (fun e => index_min (snd e)) sd))
    by (apply Permutation_map; symmetry; exact P).
  destruct (map (fun e => index_min (snd e)) sd') as [|t' ts'],
           (map (fun e => index_min (snd e)) sd) as [|t ts].
  - reflexivity.
  - apply Permutation_nil in Q. discriminate.
  - symmetry in Q. apply Permutation_nil in Q. discriminate.
  - f_equal. apply fold_min_perm. exact Q.
Qed.

Lemma cut_passes_perm (sd sd' : dict (frame R)) d name :
  NoDup (map fst sd) -> Permutation sd sd' ->
  passes condition sd' d name = passes condition sd d name.
Proof.
  intros N P. unfold passes. rewrite (dict_get_perm name sd sd' N P). reflexivity.
Qed.

Lemma cut_results_perm (sd sd' : dict (frame R)) rows :
  NoDup (map fst sd) -> Permutation sd sd' ->
  results condition window sd' rows = results condition window sd rows.
Proof.
  intros N P. unfold results, first_valid_date.
  rewrite (min_date_perm sd sd' P).
  destruct rows as [|r0 rows]; [reflexivity|].
  destruct (min_date sd) as [m|e]; [|reflexivity]. cbn [bind].
  destruct (volume_cut_filtered _ (r0 :: rows)) as [|x l]; [reflexivity|].
  apply mapM_ext. intros r _. unfold result_row, passing_stocks, passing_among.
  rewrite (filterM_ext (passes condition sd' (in_date r)) (passes condition sd (in_date r)));
    [reflexivity|].
  intros name _. apply cut_passes_perm; assumption.
Qed.

End CutPermFacts.

Lemma rank_results_perm top_n months (sd sd' : dict (frame obs)) nifty_df rows :
  NoDup (map fst sd) -> Permutation sd sd' ->
  RelativeRank.results top_n months sd' nifty_df rows
  = RelativeRank.results top_n months sd nifty_df rows.
Proof.
  intros N P. unfold RelativeRank.results.
  destruct rows as [|r0 rows]; [reflexivity|].
  destruct nifty_df as [|n0 nifty]; [reflexivity|].
  apply mapM_ext. intros r _. unfold RelativeRank.result_row, RelativeRank.ranked.
  destruct (no_stocks (in_stocks r)); [reflexivity|].
  destruct (RelativeRank.nifty_return _ _ _) as [[nr|]|e]; try reflexivity.
  cbn [bind]. unfold RelativeRank.stock_rs_data.
  rewrite (collectM_ext
             (RelativeRank.rs_entry sd' (in_date r)
                (Calendar.months_back months (in_date r)) nr)
             (RelativeRank.rs_entry sd (in_date r)
                (Calendar.months_back months (in_date r)) nr)); [reflexivity|].
  intros name _. unfold RelativeRank.rs_entry.
  rewrite (dict_get_perm name sd sd' N P). reflexivity.
Qed.

Lemma narrows_canonical input row : narrows input row -> canonical row.
Proof.
  intros (p & Hs & Hc & _). exists p. repeat split; try assumption.
  apply sorted_names_sorted.
Qed.

Lemma Forall2_Forall_r {A B : Type} (P : A -> B -> Prop) (Q : B -> Prop) l l' :
  (forall x y, P x y -> Q y) -> Forall2 P l l' -> Forall Q l'.
Proof.
  intros H F. induction F as [|x y l l' Hxy F IH]; constructor; eauto.
Qed.

(** C9. Listing the files of the folder in another order changes no row of
    any stage (nor the exception, if the run raises): the rows are a function
    of the set of files and of the input rows.  Every row of a filter stage
    holds the ascending-sorted list of its symbols. *)
Theorem outputs_independent_of_file_order (fs fs' : folder)
    (Hstems : NoDup (map fst fs)) (Hperm : Permutation fs fs') :
  VolumeCut.volume_cut fs' = VolumeCut.volume_cut fs
  /\ (forall volume_cut_df,
         SmaCut.sma_cut fs' volume_cut_df = SmaCut.sma_cut fs volume_cut_df)
  /\ (forall arctan_fin np_pi volume_cut_df,
         SmaAngleCut.sma_angle_cut arctan_fin np_pi fs' volume_cut_df
         = SmaAngleCut.sma_angle_cut arctan_fin np_pi fs volume_cut_df)
  /\ (forall nifty_df sma_angle_df,
         RelativeRank.relative_rank fs' nifty_df sma_angle_df
         = RelativeRank.relative_rank fs nifty_df sma_angle_df)
  /\ (forall out, VolumeCut.volume_cut fs = Ok out -> Forall canonical out)
  /\ (forall volume_cut_df out,
         SmaCut.sma_cut fs volume_cut_df = Ok out -> Forall canonical out)
  /\ (forall arctan_fin np_pi volume_cut_df out,
         SmaAngleCut.sma_angle_cut arctan_fin np_pi fs volume_cut_df = Ok out ->
         Forall canonical out).
Proof.
  repeat split.
  - apply volume_results_perm. apply load_stock_data_perm; assumption.
  - intro rows. apply cut_results_perm.
    + apply load_stock_data_NoDup. exact Hstems.
    + apply load_stock_data_perm; assumption.
  - intros atan pi rows. apply cut_results_perm.
    + apply load_stock_data_NoDup. exact Hstems.
    + apply load_stock_data_perm; assumption.
  - intros nifty rows. apply rank_results_perm.
    + apply load_stock_data_NoDup. exact Hstems.
    + apply load_stock_data_perm; assumption.
  - intros out H. unfold VolumeCut.volume_cut, VolumeCut.results in H.
    destruct (VolumeCut.month_end_dates _) as [|d ds]; [discriminate|].
    apply mapM_Ok in H. eapply Forall2_Forall_r; [|exact H].
    intros d' row Hrow. apply volume_row_narrows in Hrow.
    eapply narrows_canonical. apply Hrow.
  - intros rows out H. apply results_narrow in H. destruct H as (fv & _ & F).
    eapply Forall2_Forall_r; [|exact F].
    intros r row (_ & Hrow). eapply narrows_canonical. exact Hrow.
  - intros atan pi rows out H. apply results_narrow in H. destruct H as (fv & _ & F).
    eapply Forall2_Forall_r; [|exact F].
    intros r row (_ & Hrow). eapply narrows_canonical. exact Hrow.
Qed.

(** ** The ranker *)

Lemma num_ltb_asym a b : Num.ltb a b = true -> Num.ltb b a = false.
Proof.
  destruct a as [x| | |], b as [y| | |]; simpl; try congruence.
  unfold Qlt_bool. rewrite !negb_true_iff, negb_false_iff. intro H.
  destruct (Qle_bool x y) eqn:E; [reflexivity|].
  exfalso.
  assert (Hxy : ~ (x <= y)%Q) by (rewrite <- Qle_bool_iff; congruence).
  assert (Hyx : ~ (y <= x)%Q) by (rewrite <- Qle_bool_iff; congruence).
  apply Hxy. apply Qlt_le_weak. apply Qnot_le_lt. exact Hyx.
Qed.

Lemma num_leb_trans a b c :
  Num.leb a b = true -> Num.leb b c = true -> Num.leb a c = true.
Proof.
  destruct a as [x| | |], b as [y| | |], c as [z| | |]; simpl; try congruence.
  rewrite !Qle_bool_iff. apply Qle_trans.
Qed.

Lemma num_not_ltb_geb a b :
  Num.notna a = true -> Num.notna b = true ->
  negb (Num.ltb a b) = true -> Num.geb a b = true.
Proof.
  unfold Num.geb.
  destruct a as [x| | |], b as [y| | |]; simpl; try congruence.
  unfold Qlt_bool. rewrite negb_involutive. auto.
Qed.

Lemma num_geb_notna a b : Num.geb a b = true -> Num.notna a = true.
Proof. unfold Num.geb. destruct a, b; simpl; congruence. Qed.

Lemma Sorted_impl_on {A : Type} (P : A -> Prop) (R R' : A -> A -> Prop) (l : list A) :
  (forall x y, P x -> P y -> R x y -> R' x y) ->
  Forall P l -> Sorted R l -> Sorted R' l.
Proof.
  intros H F S. induction S as [|x l S IH Hd]; constructor.
  - apply IH. inversion F; assumption.
  - inversion F as [|? ? Px Fl]; subst.
    destruct Hd as [|y l' Rxy]; constructor.
    apply H; try assumption. inversion Fl; assumption.
Qed.



Lemma sort_by_ratio_sorted l :
  Forall strong l -> StronglySorted outranks (RelativeRank.sort_by_ratio l).
Proof.
  intro F. unfold RelativeRank.sort_by_ratio.
  set (leb := fun x y => negb (Num.ltb (RelativeRank.rs_ratio x) (RelativeRank.rs_ratio y))).
  assert (Htot : forall x y, leb x y = true \/ leb y x = true).
  { intros x y. unfold leb.
    destruct (Num.ltb (RelativeRank.rs_ratio x) (RelativeRank.rs_ratio y)) eqn:E.
    - right. rewrite (num_ltb_asym _ _ E). reflexivity.
    - left. reflexivity. }
  apply Sorted_StronglySorted.
  - intros x y z. unfold outranks, Num.geb. intros H1 H2. eapply num_leb_trans; eassumption.
  - apply (Sorted_impl_on strong (le_of leb)).
    + intros x y Px Py Hxy. unfold outranks. apply num_not_ltb_geb; try exact Hxy.
      * eapply num_geb_notna. exact Px.
      * eapply num_geb_notna. exact Py.
    + eapply Permutation_Forall; [symmetry; apply isort_perm|exact F].
    + apply isort_sorted. exact Htot.
Qed.

Lemma rs_entry_inv sd d back nifty_ret name e :
  RelativeRank.rs_entry sd d back nifty_ret name = Ok (Some e) ->
  exists df current past current_price past_price,
    dict_get name sd = Some df
    /\ In (current, current_price) df /\ Calendar.date_of current = Calendar.date_of d
    /\ In (past, past_price) df /\ Calendar.date_of past = back
    /\ e = RelativeRank.Rs name
             (Num.div (RelativeRank.period_return current_price past_price) nifty_ret)
    /\ strong e.
Proof.
  unfold RelativeRank.rs_entry. destruct (dict_get name sd) as [df|]; [|discriminate].
  destruct (matching_dates df (Calendar.date_of d)) as [|c cs] eqn:Ec; [discriminate|].
  destruct (matching_dates df back) as [|p ps] eqn:Ep; [discriminate|].
  intro H. apply bind_Ok_inv in H. destruct H as (cp & Hcp & H).
  apply bind_Ok_inv in H. destruct H as (pp & Hpp & H).
  injection H as H.
  match type of H with (if ?b then _ else _) = _ => destruct b eqn:G end; [|discriminate].
  injection H as <-.
  assert (Ic : In c (matching_dates df (Calendar.date_of d))) by (rewrite Ec; left; reflexivity).
  assert (Ip : In p (matching_dates df back)) by (rewrite Ep; left; reflexivity).
  apply matching_dates_In in Ic, Ip.
  exists df, c, p, cp, pp. repeat split; try tauto.
  - apply loc_Ok_In. exact Hcp.
  - apply loc_Ok_In. exact Hpp.
Qed.



Lemma ranked_inv top_n months sd nifty_df r top :
  RelativeRank.ranked top_n months sd nifty_df r = Ok top ->
  top = []
  \/ exists nifty_ret l,
       RelativeRank.nifty_return nifty_df (in_date r)
         (Calendar.months_back months (in_date r)) = Ok (Some nifty_ret)
       /\ RelativeRank.stock_rs_data sd (in_date r)
            (Calendar.months_back months (in_date r)) nifty_ret (candidates r) = Ok l
       /\ top = RelativeRank.top_stocks top_n l.
Proof.
  unfold RelativeRank.ranked. destruct (no_stocks (in_stocks r)).
  - intro H. injection H as <-. left. reflexivity.
  - intro H. apply bind_Ok_inv in H. destruct H as ([nr|] & Hnr & H).
    + apply bind_Ok_inv in H. destruct H as (l & Hl & H). injection H as <-.
      right. exists nr, l. auto.
    + injection H as <-. left. reflexivity.
Qed.

Lemma stock_rs_data_strong sd d back nifty_ret cands l :
  RelativeRank.stock_rs_data sd d back nifty_ret cands = Ok l -> Forall strong l.
Proof.
  intro H. apply Forall_forall. intros e He.
  destruct (collectM_In _ _ _ H e He) as (name & _ & Hname).
  apply rs_entry_inv in Hname. destruct Hname as (? & ? & ? & ? & ? & Hname). tauto.
Qed.

(** ** Two decimal places *)



Lemma round_half_even_near x :
  (Qabs (inject_Z (Text.round_half_even x) - x) <= 1 # 2)%Q.
Proof.
  unfold Text.round_half_even.
  pose proof (Qfloor_le x) as Hlo. pose proof (Qlt_floor x) as Hhi.
  rewrite inject_Z_plus in Hhi. change (inject_Z 1) with 1%Q in Hhi.
  apply Qabs_Qle_condition.
  destruct (Qcompare (x - inject_Z (Qfloor x)) (1 # 2)) eqn:E.
  - apply Qeq_alt in E.
    destruct (Z.even (Qfloor x));
      [|rewrite inject_Z_plus; change (inject_Z 1) with 1%Q]; split; lra.
  - apply Qlt_alt in E. split; lra.
  - apply Qgt_alt in E. rewrite inject_Z_plus. change (inject_Z 1) with 1%Q.
    split; lra.
Qed.









(** * Further properties of the scripts *)

(** ** Cells of symbols *)

Lemma split_nonempty s : Text.split s <> [].
Proof.
  destruct s as [|c s]; simpl; [discriminate|].
  destruct (Ascii.eqb c ","); [discriminate|].
  destruct (Text.split s); discriminate.
Qed.

Lemma split_cons c s :
  Ascii.eqb c "," = false ->
  Text.split (String c s) = String c (hd EmptyString (Text.split s)) :: tl (Text.split s).
Proof.
  intro H. simpl. rewrite H.
  pose proof (split_nonempty s). destruct (Text.split s); [congruence|reflexivity].
Qed.

Lemma split_no_comma s : has_comma s = false -> Text.split s = [s].
Proof.
  induction s as [|c s IH]; simpl; intro H; [reflexivity|].
  apply orb_false_iff in H. destruct H as (Hc & Hs).
  rewrite Hc, (IH Hs). reflexivity.
Qed.

Lemma split_app_comma a rest :
  has_comma a = false ->
  Text.split (a ++ String "," rest) = a :: Text.split rest.
Proof.
  induction a as [|c a IH]; intro H.
  - reflexivity.
  - simpl in H. apply orb_false_iff in H. destruct H as (Hc & Ha).
    cbn [String.append]. rewrite split_cons by exact Hc. rewrite (IH Ha). reflexivity.
Qed.

Lemma split_pieces_no_comma s x : In x (Text.split s) -> has_comma x = false.
Proof.
  revert x. induction s as [|c s IH]; intros x.
  - simpl. intros [<-|[]]. reflexivity.
  - simpl. destruct (Ascii.eqb c ",") eqn:E.
    + intros [<-|I]; [reflexivity|apply IH; exact I].
    + pose proof (split_nonempty s) as Hne.
      destruct (Text.split s) as [|h t]; [congruence|].
      intros [<-|I].
      * simpl. rewrite E. apply IH. left. reflexivity.
      * apply IH. right. exact I.
Qed.

Lemma join_cons x y l :
  Text.join (x :: y :: l) = (x ++ String "," (String " " (Text.join (y :: l))))%string.
Proof. reflexivity. Qed.

(** What [split(',')] makes of a [', '.join]: every piece after the first
    starts with the blank of the separator. *)
Lemma split_join x l :
  Forall (fun s => has_comma s = false) (x :: l) ->
  Text.split (Text.join (x :: l)) = x :: map (String " ") l.
Proof.
  revert x. induction l as [|y l IH]; intros x F.
  - inversion F; subst. change (Text.join [x]) with x. apply split_no_comma. assumption.
  - inversion F as [|? ? Hx F']; subst.
    rewrite join_cons. rewrite split_app_comma by exact Hx.
    rewrite split_cons by reflexivity.
    rewrite (IH y F'). reflexivity.
Qed.

Lemma join_empty l : Text.join l = EmptyString -> l = [] \/ l = [EmptyString].
Proof.
  destruct l as [|x [|y l]]; [auto| |].
  - change (Text.join [x]) with x. intros ->. auto.
  - rewrite join_cons. destruct x; discriminate.
Qed.

Lemma lstrip_blank s : Text.lstrip (String " " s) = Text.lstrip s.
Proof. reflexivity. Qed.

Lemma strip_blank s : Text.strip (String " " s) = Text.strip s.
Proof. reflexivity. Qed.

Lemma rstrip_idem s : Text.rstrip (Text.rstrip s) = Text.rstrip s.
Proof.
  induction s as [|c s IH]; [reflexivity|].
  cbn [Text.rstrip].
  destruct (Text.is_space c && String.eqb (Text.rstrip s) EmptyString) eqn:E;
    [reflexivity|].
  cbn [Text.rstrip]. rewrite IH, E. reflexivity.
Qed.

Lemma lstrip_rstrip_lstrip s :
  Text.lstrip (Text.rstrip (Text.lstrip s)) = Text.rstrip (Text.lstrip s).
Proof.
  induction s as [|c s IH]; [reflexivity|].
  cbn [Text.lstrip]. destruct (Text.is_space c) eqn:E; [exact IH|].
  cbn [Text.rstrip]. rewrite E. cbn [andb Text.lstrip]. rewrite E. reflexivity.
Qed.

Lemma strip_idem s : Text.strip (Text.strip s) = Text.strip s.
Proof.
  unfold Text.strip. rewrite lstrip_rstrip_lstrip. apply rstrip_idem.
Qed.

Lemma lstrip_no_comma s : has_comma s = false -> has_comma (Text.lstrip s) = false.
Proof.
  induction s as [|c s IH]; [reflexivity|].
  intro H. cbn [Text.lstrip]. destruct (Text.is_space c); [|exact H].
  simpl in H. apply orb_false_iff in H. apply IH. tauto.
Qed.

Lemma rstrip_no_comma s : has_comma s = false -> has_comma (Text.rstrip s) = false.
Proof.
  induction s as [|c s IH]; [reflexivity|].
  intro H. simpl in H. apply orb_false_iff in H. destruct H as (Hc & Hs).
  cbn [Text.rstrip].
  destruct (Text.is_space c && String.eqb (Text.rstrip s) EmptyString); [reflexivity|].
  simpl. rewrite Hc. apply IH. exact Hs.
Qed.

Lemma strip_no_comma s : has_comma s = false -> has_comma (Text.strip s) = false.
Proof. intro H. apply rstrip_no_comma, lstrip_no_comma. exact H. Qed.

(** The symbols a stage parses from a cell carry no comma and no blank at
    either end. *)
Lemma stocks_list_clean cell s :
  In s (stocks_list cell) -> has_comma s = false /\ Text.strip s = s.
Proof.
  unfold stocks_list. intro I. apply in_map_iff in I. destruct I as (x & <- & I).
  split; [apply strip_no_comma; eapply split_pieces_no_comma; exact I|apply strip_idem].
Qed.

Lemma candidates_clean r s :
  In s (candidates r) -> has_comma s = false /\ Text.strip s = s.
Proof.
  unfold candidates. destruct (in_stocks r) as [c|]; [|intros []].
  destruct (String.eqb c EmptyString); [intros []|]. apply stocks_list_clean.
Qed.

Lemma stocks_list_join l :
  l <> [] ->
  Forall (fun s => has_comma s = false /\ Text.strip s = s) l ->
  stocks_list (Text.join l) = l.
Proof.
  destruct l as [|x l]; [congruence|]. intros _ F.
  unfold stocks_list. rewrite split_join.
  - inversion F as [|? ? (_ & Hx) F']; subst. cbn [map]. rewrite Hx. f_equal.
    rewrite map_map. clear - F'. induction F' as [|y l (_ & Hy) F' IH]; [reflexivity|].
    cbn [map]. rewrite strip_blank, Hy, IH. reflexivity.
  - eapply Forall_impl; [|exact F]. intros s (H & _). exact H.
Qed.

(** The cell a stage writes for the list [l], read by the next stage. *)
Lemma candidates_join t l :
  Forall (fun s => has_comma s = false /\ Text.strip s = s) l ->
  ~ In EmptyString l ->
  candidates {| in_date := t; in_stocks := Some (Text.join l) |} = l
  /\ (Text.join l = EmptyString <-> l = []).
Proof.
  intros F Hne.
  assert (Hiff : Text.join l = EmptyString <-> l = []).
  { split; [|intros ->; reflexivity]. intro E.
    destruct (join_empty _ E) as [->| ->]; [reflexivity|].
    exfalso. apply Hne. left. reflexivity. }
  split; [|exact Hiff].
  unfold candidates. cbn [in_stocks].
  destruct (String.eqb_spec (Text.join l) EmptyString) as [E|NE].
  - symmetry. apply Hiff. exact E.
  - apply stocks_list_join; [|exact F]. intros ->. apply NE. reflexivity.
Qed.

Lemma symbol_ok_clean s :
  symbol_ok s = true -> s <> EmptyString /\ has_comma s = false /\ Text.strip s = s.
Proof.
  unfold symbol_ok. intro H.
  apply andb_true_iff in H. destruct H as (H & H3).
  apply andb_true_iff in H. destruct H as (H1 & H2).
  apply negb_true_iff in H1, H2. apply String.eqb_neq in H1. apply String.eqb_eq in H3.
  auto.
Qed.

(** ** The summary of the ranker *)

Lemma has_comma_app a b : has_comma (a ++ b) = has_comma a || has_comma b.
Proof.
  induction a as [|c a IH]; [reflexivity|].
  cbn [String.append has_comma]. rewrite IH. apply orb_assoc.
Qed.

Lemma all_space_app a b : all_space (a ++ b) = all_space a && all_space b.
Proof.
  induction a as [|c a IH]; [reflexivity|].
  cbn [String.append all_space]. rewrite IH. apply andb_assoc.
Qed.

Lemma digits_no_comma d : has_comma (NilEmpty.string_of_uint d) = false.
Proof. induction d; cbn; assumption || reflexivity. Qed.

Lemma dec_no_comma n : has_comma (Text.dec n) = false.
Proof.
  unfold Text.dec, NilZero.string_of_uint.
  destruct (N.to_uint (Z.to_N n)); try apply digits_no_comma. reflexivity.
Qed.

Lemma pad2_no_comma n : has_comma (Text.pad2 n) = false.
Proof.
  unfold Text.pad2. destruct (n <? 10); [|apply dec_no_comma].
  rewrite has_comma_app, dec_no_comma. reflexivity.
Qed.

Lemma format_2f_no_comma x : has_comma (Text.format_2f x) = false.
Proof.
  destruct x as [q| | |]; try reflexivity.
  unfold Text.format_2f.
  rewrite !has_comma_app, dec_no_comma, pad2_no_comma.
  destruct (Qlt_bool q 0); reflexivity.
Qed.

Lemma format_entry_no_comma e :
  has_comma (RelativeRank.stock e) = false ->
  has_comma (RelativeRank.format_entry e) = false.
Proof.
  intro H. unfold RelativeRank.format_entry.
  rewrite !has_comma_app, H, format_2f_no_comma. reflexivity.
Qed.

Lemma format_entry_not_blank e : all_space (RelativeRank.format_entry e) = false.
Proof.
  unfold RelativeRank.format_entry. rewrite !all_space_app.
  cbn. rewrite andb_false_r. reflexivity.
Qed.

Lemma rstrip_empty s : Text.rstrip s = EmptyString -> all_space s = true.
Proof.
  induction s as [|c s IH]; [reflexivity|]. cbn [Text.rstrip all_space].
  destruct (Text.is_space c); cbn [andb]; [|discriminate].
  destruct (String.eqb_spec (Text.rstrip s) EmptyString) as [E|_]; [|discriminate].
  intros _. apply IH. exact E.
Qed.

Lemma lstrip_all_space s : all_space (Text.lstrip s) = true -> all_space s = true.
Proof.
  induction s as [|c s IH]; [reflexivity|]. cbn [Text.lstrip all_space].
  destruct (Text.is_space c) eqn:E; cbn [andb].
  - exact IH.
  - cbn [all_space]. rewrite E. discriminate.
Qed.

Lemma strip_empty s : Text.strip s = EmptyString -> all_space s = true.
Proof. intro H. apply lstrip_all_space, rstrip_empty. exact H. Qed.

Lemma ranked_stock_is_candidate top_n months sd nifty_df r top e :
  RelativeRank.ranked top_n months sd nifty_df r = Ok top ->
  In e top -> In (RelativeRank.stock e) (candidates r).
Proof.
  intros H He.
  destruct (ranked_inv _ _ _ _ _ _ H) as [->|(nr & l & _ & Hl & ->)]; [destruct He|].
  unfold RelativeRank.top_stocks in He. apply In_firstn in He.
  unfold RelativeRank.sort_by_ratio in He. apply isort_In in He.
  destruct (collectM_In _ _ _ Hl e He) as (name & Hname & Hentry).
  apply rs_entry_inv in Hentry.
  destruct Hentry as (? & ? & ? & ? & ? & _ & _ & _ & _ & _ & -> & _). exact Hname.
Qed.

(** X12. The count the summary of the ranker computes from a written row
    ([stock_count]) is the number of entries ranked for it, the row is empty
    exactly when nothing is ranked, and [split(',')] breaks a non-empty row
    into as many pieces as there are entries. *)
Theorem summary_counts_the_ranked_entries
    (top_n : nat) (months : Z) (sd : dict (frame obs)) (nifty_df : frame obs)
    (r : in_row) (top : list RelativeRank.rs)
    (Hranked : RelativeRank.ranked top_n months sd nifty_df r = Ok top) :
  let stocks := RelativeRank.formatted_stocks top in
  RankSummary.stock_count stocks = length top
  /\ (stocks = EmptyString <-> top = [])
  /\ (top <> [] -> length (Text.split stocks) = length top).
Proof.
  intro stocks. unfold stocks, RelativeRank.formatted_stocks.
  assert (Hclean : Forall (fun s => has_comma s = false)
                     (map RelativeRank.format_entry top)).
  { apply Forall_forall. intros s I. apply in_map_iff in I. destruct I as (e & <- & I).
    apply format_entry_no_comma.
    apply (candidates_clean r). eapply ranked_stock_is_candidate; eassumption. }
  destruct top as [|e top]; [repeat split; try reflexivity; congruence|].
  cbn [map] in *.
  assert (Hsplit := split_join _ _ Hclean).
  assert (Hne : Text.join (RelativeRank.format_entry e :: map RelativeRank.format_entry top)
                <> EmptyString).
  { intro E. destruct (join_empty _ E) as [E'|E']; [discriminate|].
    injection E' as E' _. pose proof (format_entry_not_blank e) as B.
    rewrite E' in B. discriminate. }
  split; [|split].
  - unfold RankSummary.stock_count.
    destruct (String.eqb_spec
                (Text.join (RelativeRank.format_entry e :: map RelativeRank.format_entry top))
                EmptyString) as [E|_]; [contradiction|].
    rewrite Hsplit.
    rewrite forallb_filter_id.
    + cbn [length]. rewrite !length_map. reflexivity.
    + apply forallb_forall. intros s I. apply negb_true_iff.
      destruct (String.eqb_spec (Text.strip s) EmptyString) as [E|_]; [|reflexivity].
      apply strip_empty in E. exfalso.
      destruct I as [<-|I].
      * rewrite format_entry_not_blank in E. discriminate.
      * rewrite map_map in I. apply in_map_iff in I. destruct I as (e' & <- & _).
        cbn [all_space] in E. rewrite format_entry_not_blank in E.
        rewrite andb_false_r in E. discriminate.
  - split; [contradiction|discriminate].
  - intros _. rewrite Hsplit. cbn [length]. rewrite !length_map. reflexivity.
Qed.

(** ** The hand-off of the [stocks] cell *)

Lemma is_na_no_comma s : is_na s = true -> has_comma s = false.
Proof.
  unfold is_na, na_values. cbn [existsb]. intro H.
  repeat (apply orb_true_iff in H;
          destruct H as [H|H]; [apply String.eqb_eq in H; subst s; reflexivity|]).
  discriminate.
Qed.

(** A field that lists two symbols or more is never taken for a missing
    value. *)
Lemma join_is_na l :
  is_na (Text.join l) = match l with [] => true | _ => lone_na l end.
Proof.
  destruct l as [|a [|b l]]; [reflexivity|reflexivity|].
  cbn [lone_na]. destruct (is_na _) eqn:E; [|reflexivity].
  apply is_na_no_comma in E. rewrite join_cons, has_comma_app in E.
  cbn [has_comma Ascii.eqb Bool.eqb] in E. rewrite orb_true_r in E. discriminate.
Qed.

Lemma read_cell_join t l :
  Forall (fun s => has_comma s = false /\ Text.strip s = s) l ->
  ~ In EmptyString l ->
  candidates {| in_date := t; in_stocks := read_cell (Text.join l) |}
  = if lone_na l then [] else l.
Proof.
  intros F Hne. unfold read_cell. rewrite join_is_na.
  destruct l as [|a l']; [reflexivity|].
  destruct (lone_na (a :: l')) eqn:E; [reflexivity|].
  apply candidates_join; assumption.
Qed.

Lemma sorted_names_clean (P : string -> Prop) l :
  (forall s, In s l -> P s) -> forall s, In s (sorted_names l) -> P s.
Proof. intros H s I. apply H. apply (isort_In String.leb l s). exact I. Qed.

Lemma sorted_names_length l : length (sorted_names l) = length l.
Proof. apply Permutation_length. apply isort_perm. Qed.

Lemma sorted_names_nil l : sorted_names l = [] -> l = [].
Proof.
  intro E. apply (f_equal (@length string)) in E. rewrite sorted_names_length in E.
  destruct l; [reflexivity|discriminate].
Qed.

Lemma lone_na_sorted p : lone_na (sorted_names p) = lone_na p.
Proof.
  destruct p as [|a [|b p]]; [reflexivity|reflexivity|].
  pose proof (sorted_names_length (a :: b :: p)) as L.
  destruct (sorted_names (a :: b :: p)) as [|x [|y q]]; try discriminate L.
  reflexivity.
Qed.

(** X1. The next script reads the [stocks] field a script wrote (a column
    read as text) and parses from it the sorted list of the symbols that
    passed, whose length is the [count] field of the row, unless a single
    symbol passed and it is one of the strings [pd.read_csv] takes for a
    missing value ([NA], [NULL], [nan], ...): the cell is then read as NaN
    and no candidate is parsed, against a [count] of 1.  The field is empty
    exactly when no symbol passed.  For the Liquidity script this holds when
    the loaded symbols are not empty, hold no comma and have no blank at
    either end; for the cascaded scripts, whose candidates are already split
    and stripped, when the empty string is not a loaded symbol. *)
Theorem stocks_cell_reads_back :
  (forall threshold sd d row,
      Forall (fun e => symbol_ok (fst e) = true) sd ->
      VolumeCut.result_row threshold sd d = Ok row ->
      exists p,
        VolumeCut.passing_stocks threshold sd d = Ok p
        /\ (stocks row = EmptyString <-> p = [])
        /\ forall t,
             let read :=
               candidates {| in_date := t; in_stocks := read_cell (stocks row) |} in
             read = (if lone_na p then [] else sorted_names p)
             /\ (lone_na p = false -> length read = count row)
             /\ (lone_na p = true -> read = [] /\ count row = 1%nat))
  /\ (forall (R : Type) (condition : R -> bool) sd r row,
         dict_get EmptyString sd = None ->
         result_row condition sd r = Ok row ->
         exists p,
           passing_among condition sd (in_date r) (candidates r) = Ok p
           /\ (stocks row = EmptyString <-> p = [])
           /\ forall t,
                let read :=
                  candidates {| in_date := t; in_stocks := read_cell (stocks row) |} in
                read = (if lone_na p then [] else sorted_names p)
                /\ (lone_na p = false -> length read = count row)
                /\ (lone_na p = true -> read = [] /\ count row = 1%nat)).
Proof.
  assert (G : forall p,
             (forall s, In s p -> s <> EmptyString /\ has_comma s = false /\ Text.strip s = s) ->
             (Text.join (sorted_names p) = EmptyString <-> p = [])
             /\ forall t,
                  let read :=
                    candidates {| in_date := t;
                                  in_stocks := read_cell (Text.join (sorted_names p)) |} in
                  read = (if lone_na p then [] else sorted_names p)
                  /\ (lone_na p = false -> length read = length p)
                  /\ (lone_na p = true -> read = [] /\ length p = 1%nat)).
  { intros p Hp.
    assert (F : Forall (fun s => has_comma s = false /\ Text.strip s = s) (sorted_names p)).
    { apply Forall_forall. apply sorted_names_clean. intros s I. apply Hp in I. tauto. }
    assert (Hne : ~ In EmptyString (sorted_names p)).
    { intro I. apply (sorted_names_clean (fun s => s <> EmptyString) p) in I.
      - apply I. reflexivity.
      - intros s Is. apply Hp in Is. tauto. }
    split.
    - rewrite (proj2 (candidates_join 0 _ F Hne)). split.
      + apply sorted_names_nil.
      + intros ->. reflexivity.
    - intros t read. subst read. rewrite (read_cell_join t _ F Hne), lone_na_sorted.
      destruct (lone_na p) eqn:E.
      + split; [reflexivity|]. split; [discriminate|]. intros _. split; [reflexivity|].
        destruct p as [|a [|b p]]; [discriminate E|reflexivity|discriminate E].
      + split; [reflexivity|]. split; [|discriminate]. intros _. apply sorted_names_length. }
  split.
  - intros threshold sd d row Hok H. unfold VolumeCut.result_row in H.
    apply bind_Ok_inv in H. destruct H as (p & Hp & H). injection H as <-.
    exists p. split; [exact Hp|]. cbn [stocks count]. apply G.
    intros s I. rewrite (volume_passing_stocks_eq _ _ _ _ Hp) in I.
    apply in_map_iff in I. destruct I as (e & <- & I). apply filter_In in I.
    rewrite Forall_forall in Hok. apply symbol_ok_clean. apply Hok. tauto.
  - intros R condition sd r row Hempty H. unfold result_row in H.
    destruct (no_stocks (in_stocks r)) eqn:E.
    + injection H as <-. exists []. cbn [stocks count].
      assert (Hc : candidates r = []).
      { unfold candidates. unfold no_stocks in E. destruct (in_stocks r) as [s|]; [|reflexivity].
        rewrite E. reflexivity. }
      rewrite Hc. split; [reflexivity|]. apply (G []). intros s [].
    + apply bind_Ok_inv in H. destruct H as (p & Hp & H). injection H as <-.
      exists p. unfold passing_stocks in Hp. split; [exact Hp|]. cbn [stocks count].
      apply G. intros s I.
      apply (passing_among_In _ _ _ _ _ _ Hp) in I. destruct I as (Ic & Hpass).
      split; [|apply (candidates_clean r); exact Ic].
      intros ->. rewrite (cut_passes_absent condition sd (in_date r) _ Hempty) in Hpass.
      discriminate.
Qed.

(** ** The civil calendar and the written dates *)

Ltac div_lia := Z.div_mod_to_equations; lia.

Lemma civil_round_trip z :
  let '(y, m, d) := Calendar.civil_from_days z in Calendar.days_from_civil y m d = z.
Proof.
  unfold Calendar.civil_from_days, Calendar.days_from_civil. cbv zeta.
  set (z' := z + 719468).
  set (era := z' / 146097).
  set (doe := z' - era * 146097).
  assert (Hdoe : 0 <= doe < 146097) by (subst doe era; div_lia).
  set (yoe := (doe - doe / 1460 + doe / 36524 - doe / 146096) / 365).
  assert (Hyoe : 0 <= yoe <= 399) by (subst yoe; div_lia).
  set (doy := doe - (365 * yoe + yoe / 4 - yoe / 100)).
  assert (Hdoy : 0 <= doy <= 365) by (subst doy yoe; div_lia).
  set (mp := (5 * doy + 2) / 153).
  assert (Hmp : 0 <= mp <= 11) by (subst mp; div_lia).
  destruct (Z.ltb_spec mp 10) as [L|L].
  - replace (mp + 3 <=? 2) with false by (symmetry; apply Z.leb_gt; lia).
    replace (2 <? mp + 3) with true by (symmetry; apply Z.ltb_lt; lia).
    cbv iota. replace (mp + 3 - 3) with mp by lia.
    replace ((yoe + era * 400) / 400) with era by div_lia.
    replace (yoe + era * 400 - era * 400) with yoe by lia.
    subst doy doe z'. clearbody mp yoe era. lia.
  - replace (mp - 9 <=? 2) with true by (symmetry; apply Z.leb_le; lia).
    replace (2 <? mp - 9) with false by (symmetry; apply Z.ltb_ge; lia).
    cbv iota. replace (mp - 9 + 9) with mp by lia.
    replace (yoe + era * 400 + 1 - 1) with (yoe + era * 400) by lia.
    replace ((yoe + era * 400) / 400) with era by div_lia.
    replace (yoe + era * 400 - era * 400) with yoe by lia.
    subst doy doe z'. clearbody mp yoe era. lia.
Qed.

Lemma is_leap_cycle y k : Calendar.is_leap (y + k * 400) = Calendar.is_leap y.
Proof.
  unfold Calendar.is_leap.
  replace ((y + k * 400) mod 4) with (y mod 4) by div_lia.
  replace ((y + k * 400) mod 100) with (y mod 100) by div_lia.
  replace ((y + k * 400) mod 400) with (y mod 400) by div_lia.
  reflexivity.
Qed.

Lemma civil_from_days_valid z :
  let '(y, m, d) := Calendar.civil_from_days z in
  1 <= m <= 12 /\ 1 <= d <= Calendar.days_in_month y m.
Proof.
  unfold Calendar.civil_from_days. cbv zeta.
  set (z' := z + 719468).
  set (era := z' / 146097).
  set (doe := z' - era * 146097).
  assert (Hdoe : 0 <= doe < 146097) by (subst doe era; div_lia).
  clearbody doe. clearbody era. clear z'.
  remember ((doe - doe / 1460 + doe / 36524 - doe / 146096) / 365) as yoe eqn:Eyoe.
  assert (Hyoe : 0 <= yoe <= 399) by (subst yoe; div_lia).
  remember (doe - (365 * yoe + yoe / 4 - yoe / 100)) as doy eqn:Edoy.
  assert (Hdoy : 0 <= doy <= 365) by (subst doy yoe; div_lia).
  assert (Hleap : doy = 365 ->
            (yoe + 1) mod 4 = 0 /\ ((yoe + 1) mod 100 <> 0 \/ (yoe + 1) mod 400 = 0))
    by (subst doy yoe; div_lia).
  clear Eyoe Edoy Hdoe doe.
  remember ((5 * doy + 2) / 153) as mp eqn:Emp.
  assert (Hmp : 0 <= mp <= 11) by (subst mp; div_lia).
  remember (doy - (153 * mp + 2) / 5 + 1) as d eqn:Ed.
  assert (Hcases : mp = 0 \/ mp = 1 \/ mp = 2 \/ mp = 3 \/ mp = 4 \/ mp = 5 \/ mp = 6
                   \/ mp = 7 \/ mp = 8 \/ mp = 9 \/ mp = 10 \/ mp = 11) by lia.
  destruct Hcases as [E|[E|[E|[E|[E|[E|[E|[E|[E|[E|[E|E]]]]]]]]]]];
    rewrite E in *;
    match goal with
    | |- context [if ?k <? 10 then ?a else ?b] =>
        let v := eval vm_compute in (if k <? 10 then a else b) in
        change (if k <? 10 then a else b) with v
    end;
    match goal with
    | |- context [?k <=? 2] =>
        let v := eval vm_compute in (k <=? 2) in change (k <=? 2) with v
    end;
    cbv iota;
    try (match goal with
         | |- context [Calendar.days_in_month ?y ?k] =>
             let v := eval vm_compute in (Calendar.days_in_month 0 k) in
             change (Calendar.days_in_month y k) with v
         end; split; [lia|div_lia]).
  (* February *)
  change (Calendar.days_in_month (yoe + era * 400 + 1) 2)
    with (if Calendar.is_leap (yoe + era * 400 + 1) then 29 else 28).
  replace (yoe + era * 400 + 1) with (yoe + 1 + era * 400) by lia.
  split; [lia|]. rewrite is_leap_cycle.
  destruct (Calendar.is_leap (yoe + 1)) eqn:L; [div_lia|].
  assert (doy <> 365).
  { intro H. destruct (Hleap H) as (H4 & H100). unfold Calendar.is_leap in L.
    apply orb_false_iff in L. destruct L as (L1 & L2).
    apply Z.eqb_neq in L2. rewrite H4 in L1. cbn in L1.
    apply negb_false_iff in L1. apply Z.eqb_eq in L1. tauto. }
  div_lia.
Qed.

Lemma all_from_spec (f : Z -> bool) (n : nat) : forall lo,
  all_from f lo n = true -> forall z, lo <= z < lo + Z.of_nat n -> f z = true.
Proof.
  induction n as [|n IH]; intros lo H z Hz; [lia|].
  cbn [all_from] in H. apply andb_true_iff in H. destruct H as (H0 & H).
  destruct (Z.eq_dec z lo) as [->|Hne]; [exact H0|].
  apply (IH (lo + 1) H). lia.
Qed.

Lemma all_from_range (f : Z -> bool) (lo n : Z) :
  all_from f lo (Z.to_nat n) = true -> forall z, lo <= z < lo + n -> f z = true.
Proof. intros H z Hz. apply (all_from_spec f (Z.to_nat n) lo H). lia. Qed.

Lemma four_digits_checked y : 1000 <= y <= 9999 -> four_digits y = true.
Proof.
  intro H. apply (all_from_range four_digits 1000 9000); [|lia].
  vm_compute. reflexivity.
Qed.

Lemma two_digits_checked k : 0 <= k <= 99 -> two_digits k = true.
Proof.
  intro H. apply (all_from_range two_digits 0 100); [|lia].
  vm_compute. reflexivity.
Qed.

Lemma dec_four y :
  1000 <= y <= 9999 ->
  exists a b c e,
    Text.dec y = String a (String b (String c (String e EmptyString)))
    /\ number (String a (String b (String c (String e EmptyString)))) = Some y.
Proof.
  intro H. pose proof (four_digits_checked y H) as F. unfold four_digits in F.
  destruct (Text.dec y) as [|a [|b [|c [|e [|]]]]] eqn:E; try discriminate.
  exists a, b, c, e. split; [reflexivity|].
  destruct (number _) as [y'|]; [|discriminate]. apply Z.eqb_eq in F. congruence.
Qed.

Lemma pad2_two k :
  0 <= k <= 99 ->
  exists a b,
    Text.pad2 k = String a (String b EmptyString)
    /\ number (String a (String b EmptyString)) = Some k.
Proof.
  intro H. pose proof (two_digits_checked k H) as F. unfold two_digits in F.
  destruct (Text.pad2 k) as [|a [|b [|]]] eqn:E; try discriminate.
  exists a, b. split; [reflexivity|].
  destruct (number _) as [k'|]; [|discriminate]. apply Z.eqb_eq in F. congruence.
Qed.

Lemma representable_day t :
  representable t -> -106752 <= Calendar.date_of t <= 106751.
Proof.
  unfold representable, Timestamp_min, Timestamp_max, Calendar.date_of, Calendar.ns_per_day.
  intro H. div_lia.
Qed.

Lemma civil_year_range z :
  -106752 <= z <= 106751 ->
  let '(y, _, _) := Calendar.civil_from_days z in 1000 <= y <= 9999.
Proof.
  intro H. unfold Calendar.civil_from_days. cbv zeta.
  set (z' := z + 719468).
  set (era := z' / 146097).
  set (doe := z' - era * 146097).
  assert (Hera : 4 <= era <= 5) by (subst era z'; div_lia).
  assert (Hdoe : 0 <= doe < 146097) by (subst doe era; div_lia).
  clearbody doe. clearbody era. clear z'.
  set (yoe := (doe - doe / 1460 + doe / 36524 - doe / 146096) / 365).
  assert (Hyoe : 0 <= yoe <= 399) by (subst yoe; div_lia).
  clearbody yoe.
  match goal with |- context [if ?b then _ else _] => destruct b end; lia.
Qed.

(** What a stage writes as the date of a month-end denotes the calendar day
    of that month-end. *)
Lemma parse_date_strftime t :
  representable t -> parse_date (Text.strftime t) = Some (Calendar.date_of t).
Proof.
  intro H. apply representable_day in H.
  pose proof (civil_year_range _ H) as Hy.
  pose proof (civil_from_days_valid (Calendar.date_of t)) as Hv.
  pose proof (civil_round_trip (Calendar.date_of t)) as Hr.
  unfold Text.strftime.
  destruct (Calendar.civil_from_days (Calendar.date_of t)) as [[y m] d].
  destruct Hv as (Hm & Hd).
  assert (Hd' : d <= 31).
  { unfold Calendar.days_in_month in Hd.
    destruct (m =? 2); [destruct (Calendar.is_leap y); lia|].
    destruct ((m =? 4) || (m =? 6) || (m =? 9) || (m =? 11)); lia. }
  destruct (dec_four y Hy) as (a & b & c & e & -> & Ny).
  destruct (pad2_two m ltac:(lia)) as (m1 & m2 & -> & Nm).
  destruct (pad2_two d ltac:(lia)) as (d1 & d2 & -> & Nd).
  unfold parse_date.
  cbn [String.append String.length Nat.eqb substring String.eqb Ascii.eqb Bool.eqb andb].
  rewrite Ny, Nm, Nd.
  unfold valid_date.
  replace (1 <=? m) with true by (symmetry; apply Z.leb_le; lia).
  replace (m <=? 12) with true by (symmetry; apply Z.leb_le; lia).
  replace (1 <=? d) with true by (symmetry; apply Z.leb_le; lia).
  replace (d <=? Calendar.days_in_month y m) with true by (symmetry; apply Z.leb_le; lia).
  cbn [andb]. rewrite Hr. reflexivity.
Qed.

Lemma strftime_day t t' :
  representable t -> representable t' ->
  Text.strftime t = Text.strftime t' -> Calendar.date_of t = Calendar.date_of t'.
Proof.
  intros H H' E.
  pose proof (parse_date_strftime t H) as P.
  rewrite E, (parse_date_strftime t' H') in P.
  injection P as P. symmetry. exact P.
Qed.

(** Every day of a timestamp pandas can hold starts at a timestamp it can
    hold, but the day of [pd.Timestamp.min]. *)
Lemma midnight_in_range t :
  representable t ->
  (Timestamp_min <=? Calendar.midnight (Calendar.date_of t))
  && (Calendar.midnight (Calendar.date_of t) <=? Timestamp_max)
  = negb (Calendar.date_of t =? Calendar.date_of Timestamp_min).
Proof.
  intro H. pose proof (representable_day t H) as D.
  change (Calendar.date_of Timestamp_min) with (-106752).
  unfold Calendar.midnight, Calendar.ns_per_day, Timestamp_min, Timestamp_max.
  destruct (Z.eqb_spec (Calendar.date_of t) (-106752)) as [E|E]; cbn [negb].
  - rewrite E. reflexivity.
  - apply andb_true_iff. split; apply Z.leb_le; lia.
Qed.

(** ** The rolling mean and the raw observations *)

Section WindowFacts.

Import Rolling.

Lemma fold_sum_shift l a : (fold_left Qplus l a == a + Qsum l)%Q.
Proof.
  unfold Qsum. revert a. induction l as [|q l IH]; intro a; simpl.
  - ring.
  - rewrite (IH (a + q)%Q), (IH (0 + q)%Q). ring.
Qed.

Lemma Qsum_cons q l : (Qsum (q :: l) == q + Qsum l)%Q.
Proof. unfold Qsum at 1. simpl. rewrite fold_sum_shift. ring. Qed.

Lemma Qsum_app l l' : (Qsum (l ++ l') == Qsum l + Qsum l')%Q.
Proof.
  induction l as [|q l IH]; simpl.
  - unfold Qsum at 2. simpl. ring.
  - rewrite !Qsum_cons, IH. ring.
Qed.

Lemma Qlen_nil : (Qlen [] == 0)%Q.
Proof. reflexivity. Qed.

Lemma Qlen_cons q l : (Qlen (q :: l) == 1 + Qlen l)%Q.
Proof.
  unfold Qlen. cbn [length]. rewrite Nat2Z.inj_succ. unfold Z.succ.
  rewrite inject_Z_plus. ring.
Qed.

Lemma Qlen_pos l : l <> [] -> (0 < Qlen l)%Q.
Proof.
  destruct l as [|q l]; [congruence|]. intros _. unfold Qlen.
  change 0%Q with (inject_Z 0). rewrite <- Zlt_Qlt. cbn [length]. lia.
Qed.

Lemma Qsum_le l b : (forall q, In q l -> (q <= b)%Q) -> (Qsum l <= Qlen l * b)%Q.
Proof.
  induction l as [|q l IH]; intro H.
  - rewrite Qlen_nil. unfold Qsum. simpl. lra.
  - rewrite Qsum_cons, Qlen_cons.
    assert (q <= b)%Q by (apply H; left; reflexivity).
    assert (Qsum l <= Qlen l * b)%Q by (apply IH; intros; apply H; right; assumption).
    lra.
Qed.

Lemma Qsum_ge l b : (forall q, In q l -> (b <= q)%Q) -> (Qlen l * b <= Qsum l)%Q.
Proof.
  induction l as [|q l IH]; intro H.
  - rewrite Qlen_nil. unfold Qsum. simpl. lra.
  - rewrite Qsum_cons, Qlen_cons.
    assert (b <= q)%Q by (apply H; left; reflexivity).
    assert (Qlen l * b <= Qsum l)%Q by (apply IH; intros; apply H; right; assumption).
    lra.
Qed.

Lemma Qsum_lt l b x :
  (forall q, In q l -> (q <= b)%Q) -> In x l -> (x < b)%Q -> (Qsum l < Qlen l * b)%Q.
Proof.
  induction l as [|q l IH]; intros H I L; [destruct I|].
  rewrite Qsum_cons, Qlen_cons.
  assert (Hq : (q <= b)%Q) by (apply H; left; reflexivity).
  assert (Hl : forall q, In q l -> (q <= b)%Q) by (intros; apply H; right; assumption).
  destruct I as [->|I].
  - pose proof (Qsum_le l b Hl). lra.
  - pose proof (IH Hl I L). lra.
Qed.

Lemma Qsum_gt l b x :
  (forall q, In q l -> (b <= q)%Q) -> In x l -> (b < x)%Q -> (Qlen l * b < Qsum l)%Q.
Proof.
  induction l as [|q l IH]; intros H I L; [destruct I|].
  rewrite Qsum_cons, Qlen_cons.
  assert (Hq : (b <= q)%Q) by (apply H; left; reflexivity).
  assert (Hl : forall q, In q l -> (b <= q)%Q) by (intros; apply H; right; assumption).
  destruct I as [->|I].
  - pose proof (Qsum_ge l b Hl). lra.
  - pose proof (IH Hl I L). lra.
Qed.

Lemma mean_lt l b : l <> [] -> (Qsum l < Qlen l * b)%Q -> (Qsum l / Qlen l < b)%Q.
Proof.
  intros Hne H. apply Qlt_shift_div_r; [apply Qlen_pos; exact Hne|]. lra.
Qed.

Lemma mean_gt l b : l <> [] -> (Qlen l * b < Qsum l)%Q -> (b < Qsum l / Qlen l)%Q.
Proof.
  intros Hne H. apply Qlt_shift_div_l; [apply Qlen_pos; exact Hne|]. lra.
Qed.

Lemma mean_le l b : l <> [] -> (Qsum l <= Qlen l * b)%Q -> (Qsum l / Qlen l <= b)%Q.
Proof.
  intros Hne H. apply Qle_shift_div_r; [apply Qlen_pos; exact Hne|]. lra.
Qed.

Lemma mean_ge l b : l <> [] -> (Qlen l * b <= Qsum l)%Q -> (b <= Qsum l / Qlen l)%Q.
Proof.
  intros Hne H. apply Qle_shift_div_l; [apply Qlen_pos; exact Hne|]. lra.
Qed.

(** When the rolling mean of a window is defined, the window is full and
    has no missing observation. *)
Lemma mean_defined_inv w win a :
  (0 < w)%nat -> (length win <= w)%nat ->
  mean_min_periods w win = Some a ->
  length win = w /\ win = map Some (valid win) /\ valid win <> []
  /\ a = (Qsum (valid win) / Qlen (valid win))%Q.
Proof.
  intros Hw Hlen. unfold mean_min_periods.
  destruct ((length (valid win) <? w)%nat || (length (valid win) =? 0)%nat) eqn:E;
    [discriminate|].
  apply orb_false_iff in E. destruct E as (E1 & E2).
  apply Nat.ltb_ge in E1. apply Nat.eqb_neq in E2.
  pose proof (valid_length_le win) as Hle.
  intro H. injection H as <-.
  assert (Hfull : length (valid win) = length win) by lia.
  split; [lia|]. split; [|split; [|reflexivity]].
  - clear - Hfull. induction win as [|[q|] win IH]; simpl in *.
    + reflexivity.
    + f_equal. apply IH. lia.
    + pose proof (valid_length_le win). lia.
  - intro E. rewrite E in E2. apply E2. reflexivity.
Qed.

Lemma mean_of_defined w l :
  (0 < w)%nat -> length l = w ->
  mean_min_periods w (map Some l) = Some (Qsum l / Qlen l)%Q.
Proof.
  intros Hw Hlen. unfold mean_min_periods.
  assert (E : valid (map Some l) = l) by (clear; induction l; simpl; congruence).
  rewrite E, Hlen.
  replace (w <? w)%nat with false by (symmetry; apply Nat.ltb_ge; lia).
  replace (w =? 0)%nat with false by (symmetry; apply Nat.eqb_neq; lia).
  unfold Qlen. rewrite Hlen. reflexivity.
Qed.

Lemma window_at_length w i s :
  (i < length s)%nat -> length (window_at w i s) = Nat.min w (S i).
Proof.
  intro H. unfold window_at. rewrite length_skipn, length_firstn. lia.
Qed.

End WindowFacts.

(** ** Liquidity and the raw volumes *)

Lemma volume_passes_at threshold w name raw i m v :
  NoDup (index raw) -> nth_error raw i = Some (m, v) ->
  VolumeCut.passes threshold m (name, VolumeCut.with_avg_volume w raw)
  = Ok (above threshold
          (Rolling.mean_min_periods w (Rolling.window_at w i (map snd raw)))).
Proof.
  intros N Hrow.
  pose proof (nth_error_lt _ _ _ Hrow) as Hi.
  assert (Hmean : nth_error (Rolling.rolling_mean w (map snd raw)) i
                  = Some (Rolling.mean_min_periods w (Rolling.window_at w i (map snd raw))))
    by (apply rolling_mean_nth; rewrite length_map; exact Hi).
  pose proof (with_avg_volume_nth w raw i m v _ Hrow Hmean) as Hnth.
  unfold VolumeCut.passes. cbn [snd].
  replace (in_index m (VolumeCut.with_avg_volume w raw)) with true.
  - assert (Hloc : loc (VolumeCut.with_avg_volume w raw) m
                   = Ok (VolumeCut.Cols v
                           (Rolling.mean_min_periods w
                              (Rolling.window_at w i (map snd raw))))).
    { apply loc_unique; [|eapply nth_error_In; exact Hnth].
      rewrite with_avg_volume_index. exact N. }
    rewrite Hloc. reflexivity.
  - symmetry. apply in_index_true. rewrite with_avg_volume_index.
    apply in_map_iff. exists (m, v). split; [reflexivity|eapply nth_error_In; exact Hrow].
Qed.

Lemma all_defined (P : Q -> Prop) (win : list obs) :
  Forall (fun o => exists q, o = Some q /\ P q) win ->
  exists l, win = map Some l /\ forall q, In q l -> P q.
Proof.
  induction 1 as [|o win (q & -> & Hq) _ (l & -> & Hl)].
  - exists []. split; [reflexivity|intros q []].
  - exists (q :: l). split; [reflexivity|]. intros q' [<-|I]; auto.
Qed.

Lemma above_inv threshold avg :
  above threshold avg = true -> exists a, avg = Some a /\ (threshold < a)%Q.
Proof.
  unfold above. destruct avg as [a|]; [|discriminate]. cbn.
  intro H. exists a. split; [reflexivity|]. apply Qlt_bool_iff. exact H.
Qed.

Lemma above_true threshold a : (threshold < a)%Q -> above threshold (Some a) = true.
Proof. intro H. unfold above. cbn. apply Qlt_bool_iff. exact H. Qed.

Lemma above_false threshold a : (a <= threshold)%Q -> above threshold (Some a) = false.
Proof.
  intro H. unfold above. cbn. destruct (Qlt_bool threshold a) eqn:E; [|reflexivity].
  apply Qlt_bool_iff in E. lra.
Qed.

Lemma exists_or_all (P : Q -> bool) (l : list Q) :
  (exists q, In q l /\ P q = true) \/ (forall q, In q l -> P q = false).
Proof.
  induction l as [|x l [(q & I & H)|H]].
  - right. intros q [].
  - left. exists q. split; [right; exact I|exact H].
  - destruct (P x) eqn:E.
    + left. exists x. split; [left; reflexivity|exact E].
    + right. intros q [<-|I]; auto.
Qed.

Lemma Qlt_bool_false x y : Qlt_bool x y = false -> (y <= x)%Q.
Proof.
  intro H. apply Qnot_lt_le. intro L. apply Qlt_bool_iff in L. congruence.
Qed.

(** X5. A symbol passes the Liquidity test on a month-end only if the
    window of rows ending there is full, holds no missing volume and holds
    a volume above the threshold; it passes when the window is full and
    every volume of it is above the threshold; and it fails when every
    volume of the window is at most the threshold. *)
Theorem liquidity_follows_the_window
    (threshold : Q) (w : nat) (name : string) (raw : frame obs) (i : nat)
    (m : Timestamp) (v : obs)
    (Hw : (0 < w)%nat) (Hindex : NoDup (index raw))
    (Hrow : nth_error raw i = Some (m, v)) :
  let e := (name, VolumeCut.with_avg_volume w raw) in
  let window := Rolling.window_at w i (map snd raw) in
  (VolumeCut.passes threshold m e = Ok true ->
   length window = w
   /\ Forall (fun o => o <> None) window
   /\ exists q, In (Some q) window /\ (threshold < q)%Q)
  /\ ((w <= S i)%nat ->
      Forall (fun o => exists q, o = Some q /\ (threshold < q)%Q) window ->
      VolumeCut.passes threshold m e = Ok true)
  /\ (Forall (fun o => exists q, o = Some q /\ (q <= threshold)%Q) window ->
      VolumeCut.passes threshold m e = Ok false).
Proof.
  intros e window. unfold e.
  rewrite (volume_passes_at threshold w name raw i m v Hindex Hrow). fold window.
  pose proof (nth_error_lt _ _ _ Hrow) as Hi.
  assert (Hlen : length window = Nat.min w (S i))
    by (apply window_at_length; rewrite length_map; exact Hi).
  split; [|split].
  - intro H. injection H as H. apply above_inv in H. destruct H as (a & Ha & Hlt).
    destruct (mean_defined_inv w window a Hw ltac:(lia) Ha) as (Hfull & Hall & Hne & ->).
    split; [exact Hfull|]. split.
    + rewrite Hall. apply Forall_forall. intros o I. apply in_map_iff in I.
      destruct I as (q & <- & _). discriminate.
    + destruct (exists_or_all (Qlt_bool threshold) (Rolling.valid window))
        as [(q & I & Hq)|Hnone].
      * exists q. split; [rewrite Hall; apply in_map; exact I|apply Qlt_bool_iff; exact Hq].
      * exfalso.
        pose proof (Qsum_le (Rolling.valid window) threshold
                      (fun q I => Qlt_bool_false _ _ (Hnone q I))) as Hs.
        pose proof (mean_le _ threshold Hne Hs). lra.
  - intros Hge Hall. destruct (all_defined _ _ Hall) as (l & El & Hl).
    assert (Hll : length l = w) by (rewrite El, length_map in Hlen; lia).
    rewrite El, (mean_of_defined w l Hw Hll). f_equal. apply above_true.
    destruct l as [|x l]; [simpl in Hll; lia|].
    apply mean_gt; [discriminate|].
    apply (Qsum_gt _ threshold x); [|left; reflexivity|apply Hl; left; reflexivity].
    intros q I. apply Qlt_le_weak. apply Hl. exact I.
  - intro Hall. destruct (all_defined _ _ Hall) as (l & El & Hl). f_equal.
    destruct (Rolling.mean_min_periods w window) as [a|] eqn:Ha; [|reflexivity].
    apply above_false.
    destruct (mean_defined_inv w window a Hw ltac:(lia) Ha) as (_ & _ & Hne & ->).
    apply mean_le; [exact Hne|]. apply Qsum_le.
    intros q I. apply Hl.
    assert (E : Rolling.valid (map Some l) = l) by (clear; induction l; simpl; congruence).
    rewrite El, E in I. exact I.
Qed.

(** ** Trend-Level and the raw closes *)

Lemma sma_passes_at w sd name raw i t d v :
  dict_get name sd = Some (SmaCut.with_sma w raw) ->
  NoDup (map Calendar.date_of (index raw)) ->
  nth_error raw i = Some (t, v) ->
  Calendar.date_of d = Calendar.date_of t ->
  passes SmaCut.condition sd d name
  = Ok (SmaCut.condition
          (SmaCut.Cols v (Rolling.mean_min_periods w
                            (Rolling.window_at w i (map snd raw))))).
Proof.
  intros Hget Hdays Hrow Hday.
  pose proof (nth_error_lt _ _ _ Hrow) as Hi.
  assert (Hmean : nth_error (Rolling.rolling_mean w (map snd raw)) i
                  = Some (Rolling.mean_min_periods w (Rolling.window_at w i (map snd raw))))
    by (apply rolling_mean_nth; rewrite length_map; exact Hi).
  apply (cut_passes_located SmaCut.condition sd d name _ t _ Hget).
  - rewrite with_sma_index. exact Hdays.
  - eapply nth_error_In. apply with_sma_nth; eassumption.
  - symmetry. exact Hday.
Qed.

Lemma sma_condition_defined c a :
  SmaCut.condition (SmaCut.Cols (Some c) (Some a)) = Qlt_bool a c.
Proof. reflexivity. Qed.

Lemma valid_map_Some l : Rolling.valid (map Some l) = l.
Proof. induction l; simpl; congruence. Qed.

(** X6. A symbol passes the Trend-Level test on a month-end only if the
    window of closes ending there is full, holds no missing close and
    holds a close below the month-end close; it passes when the window is
    full, no close of it exceeds the month-end close and one is below it;
    and it fails when the month-end close is the lowest of the window. *)
Theorem trend_level_follows_the_window
    (w : nat) (sd : dict (frame SmaCut.cols)) (name : string) (raw : frame obs)
    (i : nat) (t d : Timestamp) (c : Q)
    (Hw : (0 < w)%nat)
    (Hget : dict_get name sd = Some (SmaCut.with_sma w raw))
    (Hdays : NoDup (map Calendar.date_of (index raw)))
    (Hrow : nth_error raw i = Some (t, Some c))
    (Hday : Calendar.date_of d = Calendar.date_of t) :
  let window := Rolling.window_at w i (map snd raw) in
  (passes SmaCut.condition sd d name = Ok true ->
   length window = w
   /\ Forall (fun o => o <> None) window
   /\ exists q, In (Some q) window /\ (q < c)%Q)
  /\ ((w <= S i)%nat ->
      Forall (fun o => exists q, o = Some q /\ (q <= c)%Q) window ->
      (exists q, In (Some q) window /\ (q < c)%Q) ->
      passes SmaCut.condition sd d name = Ok true)
  /\ (Forall (fun o => exists q, o = Some q /\ (c <= q)%Q) window ->
      passes SmaCut.condition sd d name = Ok false).
Proof.
  intro window.
  rewrite (sma_passes_at w sd name raw i t d (Some c) Hget Hdays Hrow Hday). fold window.
  pose proof (nth_error_lt _ _ _ Hrow) as Hi.
  assert (Hlen : length window = Nat.min w (S i))
    by (apply window_at_length; rewrite length_map; exact Hi).
  split; [|split].
  - intro H. injection H as H. apply sma_condition_true in H.
    destruct H as (c' & a & Hc & Ha & Hlt). cbn in Hc, Ha. injection Hc as <-.
    destruct (mean_defined_inv w window a Hw ltac:(lia) Ha) as (Hfull & Hall & Hne & ->).
    split; [exact Hfull|]. split.
    + rewrite Hall. apply Forall_forall. intros o I. apply in_map_iff in I.
      destruct I as (q & <- & _). discriminate.
    + destruct (exists_or_all (fun q => Qlt_bool q c) (Rolling.valid window))
        as [(q & I & Hq)|Hnone].
      * exists q. split; [rewrite Hall; apply in_map; exact I|apply Qlt_bool_iff; exact Hq].
      * exfalso.
        pose proof (Qsum_ge (Rolling.valid window) c
                      (fun q I => Qlt_bool_false _ _ (Hnone q I))) as Hs.
        pose proof (mean_ge _ c Hne Hs). lra.
  - intros Hge Hall (x & Ix & Hx). destruct (all_defined _ _ Hall) as (l & El & Hl).
    assert (Hll : length l = w) by (rewrite El, length_map in Hlen; lia).
    rewrite El, (mean_of_defined w l Hw Hll), sma_condition_defined. f_equal.
    apply Qlt_bool_iff.
    rewrite El in Ix. apply in_map_iff in Ix. destruct Ix as (x' & E & Ix).
    injection E as ->.
    apply mean_lt; [intros ->; destruct Ix|].
    apply (Qsum_lt _ c x); assumption.
  - intro Hall. destruct (all_defined _ _ Hall) as (l & El & Hl). f_equal.
    destruct (Rolling.mean_min_periods w window) as [a|] eqn:Ha; [|reflexivity].
    rewrite sma_condition_defined.
    destruct (Qlt_bool a c) eqn:E; [|reflexivity]. apply Qlt_bool_iff in E. exfalso.
    destruct (mean_defined_inv w window a Hw ltac:(lia) Ha) as (_ & _ & Hne & ->).
    assert ((c <= Rolling.Qsum (Rolling.valid window) / Qlen (Rolling.valid window))%Q).
    { apply mean_ge; [exact Hne|]. apply Qsum_ge.
      intros q I. apply Hl. rewrite El, valid_map_Some in I. exact I. }
    lra.
Qed.

(** ** Trend-Slope: a rising average *)

Section Telescope.

Import Rolling.

Lemma firstn_snoc {A : Type} (s : list A) j b :
  nth_error s j = Some b -> firstn (S j) s = firstn j s ++ [b].
Proof.
  revert j. induction s as [|x s IH]; intros [|j] H; try discriminate.
  - injection H as ->. reflexivity.
  - cbn [nth_error] in H. rewrite (firstn_cons (S j)), (firstn_cons j), (IH j H).
    reflexivity.
Qed.

Lemma skipn_cons_nth {A : Type} (l : list A) k a :
  nth_error l k = Some a -> skipn k l = a :: skipn (S k) l.
Proof.
  revert k. induction l as [|x l IH]; intros [|k] H; try discriminate.
  - injection H as ->. reflexivity.
  - cbn [nth_error] in H. cbn [skipn]. apply IH. exact H.
Qed.

(** Two consecutive full windows share all but their ends. *)
Lemma window_step w j (s : list obs) b :
  (0 < w)%nat -> (w <= S j)%nat -> nth_error s (S j) = Some b ->
  exists a M,
    nth_error s (S j - w) = Some a
    /\ window_at w j s = a :: M
    /\ window_at w (S j) s = M ++ [b].
Proof.
  intros Hw Hle Hb.
  assert (Hlen : (S j < length s)%nat) by (eapply nth_error_lt; exact Hb).
  destruct (nth_error_defined s (S j - w)) as (a & Ha); [lia|].
  exists a, (skipn (S (S j - w)) (firstn (S j) s)).
  split; [exact Ha|]. unfold window_at. split.
  - apply skipn_cons_nth. rewrite nth_error_firstn.
    replace (S j - w <? S j)%nat with true by (symmetry; apply Nat.ltb_lt; lia).
    exact Ha.
  - rewrite (firstn_snoc s (S j) b Hb).
    replace (S (S j) - w)%nat with (S (S j - w)) by lia.
    rewrite skipn_app, length_firstn.
    replace (S (S j - w) - Nat.min (S j) (length s))%nat with 0%nat by lia.
    reflexivity.
Qed.

Lemma map_Some_inj (l l' : list Q) : map Some l = map Some l' -> l = l'.
Proof.
  revert l'. induction l as [|x l IH]; intros [|y l'] H; try discriminate; [reflexivity|].
  injection H as -> H. f_equal. apply IH. exact H.
Qed.

(** The rolling mean rises from one row to the next exactly when the
    observation that enters the window exceeds the one that leaves it. *)
Lemma rolling_mean_step w j (s : list obs) m p :
  (0 < w)%nat ->
  nth_error (rolling_mean w s) (S j) = Some (Some m) ->
  nth_error (rolling_mean w s) j = Some (Some p) ->
  (w <= S j)%nat
  /\ exists old new,
       nth_error s (S j - w) = Some (Some old)
       /\ nth_error s (S j) = Some (Some new)
       /\ (m - p == (new - old) / inject_Z (Z.of_nat w))%Q.
Proof.
  intros Hw Hm Hp.
  assert (Hlen : (S j < length s)%nat).
  { rewrite <- (rolling_mean_length w s). eapply nth_error_lt. exact Hm. }
  rewrite rolling_mean_nth in Hm by exact Hlen. injection Hm as Hm.
  rewrite rolling_mean_nth in Hp by lia. injection Hp as Hp.
  pose proof (window_at_length w j s ltac:(lia)) as Lj.
  pose proof (window_at_length w (S j) s Hlen) as LSj.
  destruct (mean_defined_inv w (window_at w j s) p Hw ltac:(lia) Hp)
    as (Fp & Ap & Np & ->).
  destruct (mean_defined_inv w (window_at w (S j) s) m Hw ltac:(lia) Hm)
    as (Fm & Am & Nm & ->).
  assert (Hle : (w <= S j)%nat) by lia.
  split; [exact Hle|].
  destruct (nth_error_defined s (S j)) as (b & Hb); [exact Hlen|].
  destruct (window_step w j s b Hw Hle Hb) as (a & M & Ha & Wj & WSj).
  rewrite Wj in Ap, Fp. rewrite WSj in Am, Fm.
  rewrite Wj. rewrite WSj.
  destruct a as [old|]; [|cbn [valid map] in Ap; destruct (valid M); discriminate].
  assert (HM : M = map Some (valid M)).
  { cbn [valid map] in Ap. injection Ap as Ap. exact Ap. }
  remember (valid M) as l eqn:El. clear El. subst M.
  assert (Vsnoc : forall o, valid (map Some l ++ [o]) = l ++ valid [o]).
  { clear. intro o. induction l as [|x l IH]; [reflexivity|].
    cbn [map app valid]. rewrite IH. reflexivity. }
  destruct b as [new|].
  2:{ exfalso. rewrite Vsnoc in Am. cbn [valid] in Am. rewrite app_nil_r in Am.
      apply (f_equal (@length obs)) in Am.
      rewrite length_app, !length_map in Am. simpl in Am. lia. }
  exists old, new. split; [exact Ha|]. split; [exact Hb|].
  rewrite Vsnoc. cbn [valid]. rewrite valid_map_Some.
  assert (C1 : (Qlen (old :: l) == inject_Z (Z.of_nat w))%Q).
  { unfold Qlen. rewrite <- Fp. cbn [length]. rewrite length_map. reflexivity. }
  assert (C2 : (Qlen (l ++ [new]) == inject_Z (Z.of_nat w))%Q).
  { unfold Qlen. rewrite <- Fm. rewrite !length_app, length_map. reflexivity. }
  rewrite C1, C2, Qsum_app, !Qsum_cons.
  assert (Hw' : ~ (inject_Z (Z.of_nat w) == 0)%Q).
  { intro E. assert (0 < inject_Z (Z.of_nat w))%Q; [|lra].
    change 0%Q with (inject_Z 0). rewrite <- Zlt_Qlt. lia. }
  change (Qsum []) with 0%Q. field. exact Hw'.
Qed.

End Telescope.

Lemma Qdiv_nonpos x y : (x <= 0)%Q -> (0 < y)%Q -> (x / y <= 0)%Q.
Proof. intros Hx Hy. apply Qle_shift_div_r; [exact Hy|]. lra. Qed.

Lemma Qeq_bool_pos x : (0 < x)%Q -> Qeq_bool x 0 = false.
Proof. intro H. apply Qeq_bool_false_iff. intro E. lra. Qed.

(** The sign of the angle is the sign of the step of the average, for a
    positive close. *)
Lemma angle_above_inv arctan_fin np_pi threshold (m : Q) (prev : obs) (c : Q) :
  (0 <= threshold)%Q -> (0 < np_pi)%Q ->
  (forall q, (q <= 0)%Q -> (arctan_fin q <= 0)%Q) ->
  (0 < c)%Q ->
  Num.gtb
    (SmaAngleCut.degrees_of_slope arctan_fin np_pi
       (Num.div (Num.sub (Fin m) (of_obs prev)) (Num.mul (Fin c) (Fin (1 # 100)))))
    (Fin threshold) = true ->
  exists p, prev = Some p /\ (p < m)%Q.
Proof.
  intros Hth Hpi Hatan Hc.
  assert (Hc' : (0 < c * (1 # 100))%Q) by lra.
  destruct prev as [p|]; cbn [of_obs Num.sub Num.mul Num.div];
    rewrite ?(Qeq_bool_pos _ Hc');
    unfold SmaAngleCut.degrees_of_slope; cbn [SmaAngleCut.arctan Num.mul Num.div];
    rewrite ?(Qeq_bool_pos _ Hpi); cbn [Num.gtb Num.ltb]; [|discriminate].
  intro H. apply Qlt_bool_iff in H. exists p. split; [reflexivity|].
  apply Qnot_le_lt. intro Hle.
  assert (Hq : ((m - p) / (c * (1 # 100)) <= 0)%Q) by (apply Qdiv_nonpos; lra).
  pose proof (Hatan _ Hq) as Ha.
  assert ((arctan_fin ((m - p) / (c * (1 # 100))) * 180 / np_pi <= 0)%Q)
    by (apply Qdiv_nonpos; lra).
  lra.
Qed.

(** X7. A row with a positive close is in the buy zone of the Trend-Slope
    script only if the long moving average rose from the previous row,
    which is the case only if the close is above the close of [w200] rows
    before (for a non-negative threshold, a positive [pi] and an [arctan]
    that is not positive on arguments that are not positive). *)
Theorem buy_zone_needs_a_higher_close
    (arctan_fin : Q -> Q) (np_pi threshold : Q) (w200 w50 : nat)
    (raw : frame obs) (i : nat) (t : Timestamp) (c : Q) (row : SmaAngleCut.cols)
    (Hw : (0 < w200)%nat) (Hth : (0 <= threshold)%Q) (Hpi : (0 < np_pi)%Q)
    (Hatan : forall q, (q <= 0)%Q -> (arctan_fin q <= 0)%Q)
    (Hraw : nth_error raw i = Some (t, Some c)) (Hpos : (0 < c)%Q)
    (Hrow : nth_error (SmaAngleCut.with_angle arctan_fin np_pi w200 w50 raw) i
            = Some (t, row))
    (Hzone : SmaAngleCut.condition threshold row = true) :
  let ma200 := Rolling.rolling_mean w200 (map snd raw) in
  exists m prev old,
    (w200 <= i)%nat
    /\ nth_error ma200 i = Some (Some m)
    /\ nth_error ma200 (i - 1) = Some (Some prev)
    /\ (prev < m)%Q
    /\ nth_error (map snd raw) (i - w200) = Some (Some old)
    /\ (old < c)%Q.
Proof.
  intro ma200.
  destruct (with_angle_nth arctan_fin np_pi w200 w50 raw i t (Some c) Hraw)
    as (m200 & m50 & H200 & H50 & Hnth).
  fold ma200 in H200, Hnth.
  rewrite Hrow in Hnth. injection Hnth as ->.
  apply angle_condition_true in Hzone.
  destruct Hzone as (Hangle & c' & q50 & m & Hc & E50 & E200 & _ & _).
  cbn in Hc, E50, E200, Hangle. subst m200.
  cbn [of_obs] in Hangle.
  destruct i as [|j].
  - exfalso. cbn [previous Num.sub Num.div] in Hangle. discriminate.
  - cbn [previous] in Hangle.
    assert (Hj : (j < length ma200)%nat).
    { apply nth_error_lt in H200. lia. }
    destruct (nth_error_defined ma200 j Hj) as (pj & Hpj).
    rewrite (nth_error_nth (map of_obs ma200) j NaN (x := of_obs pj)) in Hangle
      by (rewrite nth_error_map, Hpj; reflexivity).
    destruct (angle_above_inv _ _ _ _ _ _ Hth Hpi Hatan Hpos Hangle) as (prev & -> & Hlt).
    destruct (rolling_mean_step w200 j (map snd raw) m prev Hw H200 Hpj)
      as (Hle & old & new & Hold & Hnew & Hstep).
    assert (new = c).
    { rewrite nth_error_map, Hraw in Hnew. cbn in Hnew. congruence. }
    subst new.
    exists m, prev, old. split; [lia|]. split; [exact H200|].
    split; [replace (S j - 1)%nat with j by lia; exact Hpj|].
    split; [exact Hlt|]. split; [exact Hold|].
    assert (Hwq : (0 < inject_Z (Z.of_nat w200))%Q)
      by (change 0%Q with (inject_Z 0); rewrite <- Zlt_Qlt; lia).
    apply Qnot_le_lt. intro Hge.
    assert (((c - old) / inject_Z (Z.of_nat w200) <= 0)%Q) by (apply Qdiv_nonpos; lra).
    lra.
Qed.

(** ** The ranking *)

(** ** The ratio test and the sign of the benchmark return *)

Lemma Qle_bool_div_neg a b n :
  (n < 0)%Q -> Qle_bool (b / n) (a / n) = Qle_bool a b.
Proof.
  intro Hn.
  assert (Hi : (/ n < 0)%Q).
  { apply Qnot_le_lt. intro H.
    assert (E : (n * / n == 1)%Q) by (apply Qmult_inv_r; intro E; lra).
    assert (n * / n <= 0)%Q; [|lra].
    rewrite <- (Qmult_0_l (/ n)). apply Qmult_le_compat_r; lra. }
  destruct (Qle_bool a b) eqn:E.
  - apply Qle_bool_iff in E. apply Qle_bool_iff. unfold Qdiv.
    assert (0 <= (b - a) * - / n)%Q by (apply Qmult_le_0_compat; lra). lra.
  - destruct (Qle_bool (b / n) (a / n)) eqn:E'; [|reflexivity].
    apply Qle_bool_iff in E'. exfalso.
    assert (Hab : ~ (a <= b)%Q) by (rewrite <- Qle_bool_iff; congruence).
    apply Qnot_le_lt in Hab. unfold Qdiv in E'.
    assert (0 < (a - b) * - / n)%Q by (apply Qmult_lt_0_compat; lra). lra.
Qed.

Lemma Qle_bool_div_pos a b n :
  (0 < n)%Q -> Qle_bool (b / n) (a / n) = Qle_bool b a.
Proof.
  intro Hn.
  assert (Hi : (0 < / n)%Q) by (apply Qinv_lt_0_compat; exact Hn).
  destruct (Qle_bool b a) eqn:E.
  - apply Qle_bool_iff in E. apply Qle_bool_iff. unfold Qdiv.
    assert (0 <= (a - b) * / n)%Q by (apply Qmult_le_0_compat; lra). lra.
  - destruct (Qle_bool (b / n) (a / n)) eqn:E'; [|reflexivity].
    apply Qle_bool_iff in E'. exfalso.
    assert (Hab : ~ (b <= a)%Q) by (rewrite <- Qle_bool_iff; congruence).
    apply Qnot_le_lt in Hab. unfold Qdiv in E'.
    assert (0 < (b - a) * / n)%Q by (apply Qmult_lt_0_compat; lra). lra.
Qed.

Lemma Qeq_bool_neg n : (n < 0)%Q -> Qeq_bool n 0 = false.
Proof. intro H. apply Qeq_bool_false_iff. intro E. lra. Qed.

Lemma Qlt_bool_true x y : (x < y)%Q -> Qlt_bool x y = true.
Proof. apply Qlt_bool_iff. Qed.

Lemma Qlt_bool_not x y : (y <= x)%Q -> Qlt_bool x y = false.
Proof.
  intro H. destruct (Qlt_bool x y) eqn:E; [|reflexivity].
  apply Qlt_bool_iff in E. lra.
Qed.

(** Dividing by a negative return turns the order round. *)
Lemma ratio_order_neg n a b :
  (n < 0)%Q ->
  Num.geb (Num.div a (Fin n)) (Num.div b (Fin n)) = Num.leb a b.
Proof.
  intro Hn. unfold Num.geb.
  destruct a as [x| | |], b as [y| | |]; cbn [Num.div];
    rewrite ?(Qeq_bool_neg n Hn), ?(Qlt_bool_true n 0 Hn); cbn [Num.leb];
    try reflexivity.
  apply Qle_bool_div_neg. exact Hn.
Qed.

Lemma ratio_order_pos n a b :
  (0 < n)%Q ->
  Num.geb (Num.div a (Fin n)) (Num.div b (Fin n)) = Num.geb a b.
Proof.
  intro Hn. unfold Num.geb.
  destruct a as [x| | |], b as [y| | |]; cbn [Num.div];
    rewrite ?(Qeq_bool_pos n Hn), ?(Qlt_bool_not n 0 (Qlt_le_weak _ _ Hn)); cbn [Num.leb];
    try reflexivity.
  apply Qle_bool_div_pos. exact Hn.
Qed.

(** The test [rs_ratio >= 1], read on the returns. *)
Lemma ratio_test_neg n s :
  (n < 0)%Q -> Num.geb (Num.div s (Fin n)) (Fin 1) = Num.leb s (Fin n).
Proof.
  intro Hn. unfold Num.geb.
  destruct s as [x| | |]; cbn [Num.div];
    rewrite ?(Qeq_bool_neg n Hn), ?(Qlt_bool_true n 0 Hn); cbn [Num.leb];
    try reflexivity.
  rewrite <- (Qle_bool_div_neg x n n Hn).
  assert (E : (n / n == 1)%Q) by (field; intro E; lra).
  rewrite E. reflexivity.
Qed.

Lemma ratio_test_pos n s :
  (0 < n)%Q -> Num.geb (Num.div s (Fin n)) (Fin 1) = Num.geb s (Fin n).
Proof.
  intro Hn. unfold Num.geb.
  destruct s as [x| | |]; cbn [Num.div];
    rewrite ?(Qeq_bool_pos n Hn), ?(Qlt_bool_not n 0 (Qlt_le_weak _ _ Hn)); cbn [Num.leb];
    try reflexivity.
  rewrite <- (Qle_bool_div_pos x n n Hn).
  assert (E : (n / n == 1)%Q) by (field; intro E; lra).
  rewrite E. reflexivity.
Qed.

(** X8. An entry of the ranking has a return at least the benchmark's when
    the benchmark return is positive, and at most the benchmark's when it is
    negative: with a falling benchmark the symbols listed are those that
    fell at least as much, and an entry ranks at least as high as another
    exactly when its return is the lower one. *)
Theorem ratio_test_follows_the_sign_of_the_benchmark
    (sd : dict (frame obs)) (d : Timestamp) (back : Z) (n : Q) (name : string)
    (e : RelativeRank.rs)
    (Hentry : RelativeRank.rs_entry sd d back (Fin n) name = Ok (Some e)) :
  (exists df current past current_price past_price,
      dict_get name sd = Some df
      /\ In (current, current_price) df
      /\ Calendar.date_of current = Calendar.date_of d
      /\ In (past, past_price) df /\ Calendar.date_of past = back
      /\ let stock_return := RelativeRank.period_return current_price past_price in
         RelativeRank.rs_ratio e = Num.div stock_return (Fin n)
         /\ ((n < 0)%Q -> Num.leb stock_return (Fin n) = true)
         /\ ((0 < n)%Q -> Num.geb stock_return (Fin n) = true))
  /\ (forall e' a b,
         RelativeRank.rs_ratio e = Num.div a (Fin n) ->
         RelativeRank.rs_ratio e' = Num.div b (Fin n) ->
         ((n < 0)%Q -> (outranks e e' <-> Num.leb a b = true))
         /\ ((0 < n)%Q -> (outranks e e' <-> Num.geb a b = true))).
Proof.
  split.
  - apply rs_entry_inv in Hentry.
    destruct Hentry as (df & c & p & cp & pp & Hget & Ic & Hc & Ip & Hp & -> & Hs).
    exists df, c, p, cp, pp. repeat split; try assumption.
    + intro Hn. rewrite <- (ratio_test_neg n _ Hn). exact Hs.
    + intro Hn. rewrite <- (ratio_test_pos n _ Hn). exact Hs.
  - intros e' a b Ea Eb. unfold outranks. rewrite Ea, Eb. split; intro Hn.
    + rewrite (ratio_order_neg n a b Hn). reflexivity.
    + rewrite (ratio_order_pos n a b Hn). reflexivity.
Qed.

(** ** Ties and the cut at TOP_N *)

Lemma num_ltb_not_both a b q :
  Num.ltb a b = true -> Num.eqb a q = true -> Num.eqb b q = false.
Proof.
  destruct a as [x| | |], b as [y| | |], q as [z| | |]; cbn; try congruence.
  intros H E. apply Qlt_bool_iff in H. apply Qeq_bool_iff in E.
  apply Qeq_bool_false_iff. intro E'. lra.
Qed.

Lemma filter_insert_by_ratio (q : num) (x : RelativeRank.rs) (l : list RelativeRank.rs) :
  let leb := fun x y => negb (Num.ltb (RelativeRank.rs_ratio x) (RelativeRank.rs_ratio y)) in
  let p := fun e => Num.eqb (RelativeRank.rs_ratio e) q in
  filter p (insert leb x l) = filter p (x :: l).
Proof.
  intros leb p. induction l as [|y l IH]; [reflexivity|].
  cbn [insert]. destruct (leb x y) eqn:E; [reflexivity|].
  cbn [filter] in *. rewrite IH.
  destruct (p x) eqn:Px; [|reflexivity].
  assert (Py : p y = false).
  { unfold leb in E. apply negb_false_iff in E. eapply num_ltb_not_both; eassumption. }
  rewrite Py. reflexivity.
Qed.

Lemma sort_by_ratio_stable q l :
  filter (fun e => Num.eqb (RelativeRank.rs_ratio e) q) (RelativeRank.sort_by_ratio l)
  = filter (fun e => Num.eqb (RelativeRank.rs_ratio e) q) l.
Proof.
  unfold RelativeRank.sort_by_ratio. induction l as [|x l IH]; [reflexivity|].
  cbn [isort]. rewrite filter_insert_by_ratio. cbn [filter]. rewrite IH. reflexivity.
Qed.

Lemma collectM_stock sd d back nr cands l :
  RelativeRank.stock_rs_data sd d back nr cands = Ok l ->
  map RelativeRank.stock l
  = filter (fun name =>
              match RelativeRank.rs_entry sd d back nr name with
              | Ok (Some _) => true
              | _ => false
              end) cands.
Proof.
  unfold RelativeRank.stock_rs_data. revert l.
  induction cands as [|name cands IH]; intros l H.
  - injection H as <-. reflexivity.
  - cbn [collectM] in H. apply bind_Ok_inv in H. destruct H as (o & Ho & H).
    apply bind_Ok_inv in H. destruct H as (r & Hr & H). injection H as <-.
    cbn [filter]. rewrite Ho. destruct o as [e|].
    + cbn [map]. rewrite (IH r Hr). f_equal.
      apply rs_entry_inv in Ho. destruct Ho as (? & ? & ? & ? & ? & _ & _ & _ & _ & _ & -> & _).
      reflexivity.
    + apply IH. exact Hr.
Qed.

(** X9. The sort of the ranking is stable: the entries are met in candidate
    order, and entries with equal ratios stay in that order after the
    sort, which only permutes the entries. *)
Theorem rank_ties_keep_candidate_order
    (sd : dict (frame obs)) (d : Timestamp) (back : Z) (nifty_ret : num)
    (cands : list string) (l : list RelativeRank.rs)
    (Hdata : RelativeRank.stock_rs_data sd d back nifty_ret cands = Ok l) :
  (exists keep, map RelativeRank.stock l = filter keep cands)
  /\ (forall q,
        filter (fun e => Num.eqb (RelativeRank.rs_ratio e) q) (RelativeRank.sort_by_ratio l)
        = filter (fun e => Num.eqb (RelativeRank.rs_ratio e) q) l)
  /\ Permutation (RelativeRank.sort_by_ratio l) l.
Proof.
  split; [|split].
  - eexists. apply collectM_stock. exact Hdata.
  - intro q. apply sort_by_ratio_stable.
  - unfold RelativeRank.sort_by_ratio. apply isort_perm.
Qed.

Lemma StronglySorted_app_inv {A : Type} (R : A -> A -> Prop) (a b : list A) :
  StronglySorted R (a ++ b) -> forall x y, In x a -> In y b -> R x y.
Proof.
  induction a as [|h a IH]; intros S x y Ix Iy; [destruct Ix|].
  cbn [app] in S. inversion S as [|? ? S' F]; subst.
  destruct Ix as [->|Ix].
  - rewrite Forall_forall in F. apply F. apply in_or_app. right. exact Iy.
  - apply IH; assumption.
Qed.

(** X10. The cut at [top_n] keeps the best entries: [min(top_n, n)] of the
    [n] entries that reach the benchmark are kept, kept and dropped
    entries together are those entries, every kept entry ranks at least as
    high as every dropped one, and nothing is dropped when [n <= top_n]. *)
Theorem top_stocks_are_the_best
    (top_n : nat) (sd : dict (frame obs)) (d : Timestamp) (back : Z) (nifty_ret : num)
    (cands : list string) (l : list RelativeRank.rs)
    (Hdata : RelativeRank.stock_rs_data sd d back nifty_ret cands = Ok l) :
  let top := RelativeRank.top_stocks top_n l in
  let rest := skipn top_n (RelativeRank.sort_by_ratio l) in
  length top = Nat.min top_n (length l)
  /\ Permutation (top ++ rest) l
  /\ (forall e e', In e top -> In e' rest -> outranks e e')
  /\ ((length l <= top_n)%nat -> Permutation top l).
Proof.
  intros top rest. unfold top, rest, RelativeRank.top_stocks.
  assert (P : Permutation (RelativeRank.sort_by_ratio l) l)
    by (unfold RelativeRank.sort_by_ratio; apply isort_perm).
  split; [|split; [|split]].
  - rewrite length_firstn, (Permutation_length P). reflexivity.
  - rewrite firstn_skipn. exact P.
  - apply StronglySorted_app_inv. rewrite firstn_skipn.
    apply sort_by_ratio_sorted. eapply stock_rs_data_strong. exact Hdata.
  - intro H. rewrite firstn_all2; [exact P|]. rewrite (Permutation_length P). exact H.
Qed.

(** ** One row per input row *)

Lemma mapM_map {A B C : Type} (f : A -> result B) (g : B -> C) (h : A -> C) l r :
  (forall x y, f x = Ok y -> g y = h x) ->
  mapM f l = Ok r -> map g r = map h l.
Proof.
  intro H. revert r. induction l as [|x l IH]; intros r E.
  - injection E as <-. reflexivity.
  - cbn [mapM] in E. apply bind_Ok_inv in E. destruct E as (y & Hy & E).
    apply bind_Ok_inv in E. destruct E as (r' & Hr & E). injection E as <-.
    cbn [map]. rewrite (H x y Hy), (IH r' Hr). reflexivity.
Qed.

Lemma rank_row_date top_n months sd nifty_df r row :
  RelativeRank.result_row top_n months sd nifty_df r = Ok row ->
  rank_date row = Text.strftime (in_date r).
Proof.
  unfold RelativeRank.result_row. intro H.
  apply bind_Ok_inv in H. destruct H as (top & _ & H). injection H as <-. reflexivity.
Qed.






(** ** Loading and failures *)

(** ** Loading *)

Section LoadedFacts.

Context {R : Type}.
Variable derive : frame obs -> frame R.



Lemma dict_set_In {V : Type} k (v : V) d e :
  In e (dict_set k v d) -> e = (k, v) \/ In e d.
Proof.
  induction d as [|[k' v'] d IH]; cbn [dict_set].
  - intros [<-|[]]. left. reflexivity.
  - destruct (String.eqb k k').
    + intros [<-|I]; [left; reflexivity|right; right; exact I].
    + intros [<-|I]; [right; left; reflexivity|].
      destruct (IH I) as [->|I']; [left; reflexivity|right; right; exact I'].
Qed.

(** Every entry of the dictionary comes from a stock file with a non-empty
    table. *)
Lemma load_stock_data_In fs e :
  In e (load_stock_data derive fs) ->
  exists rows,
    rows <> [] /\ In (fst e, Table rows) fs /\ is_stock_file (fst e) = true
    /\ snd e = derive rows.
Proof.
  unfold load_stock_data.
  assert (G : forall acc,
             (forall e, In e acc ->
                exists rows, rows <> [] /\ In (fst e, Table rows) fs
                             /\ is_stock_file (fst e) = true /\ snd e = derive rows) ->
             forall fs', incl fs' fs ->
             forall e, In e (fold_left (load_file derive) fs' acc) ->
               exists rows, rows <> [] /\ In (fst e, Table rows) fs
                            /\ is_stock_file (fst e) = true /\ snd e = derive rows).
  { intros acc Hacc fs'. revert acc Hacc.
    induction fs' as [|f fs' IH]; intros acc Hacc Hincl e0 I; [apply Hacc; exact I|].
    cbn [fold_left] in I. apply (IH (load_file derive acc f)); [| |exact I].
    - intros e1 I1. destruct f as [stem content]. unfold load_file in I1.
      destruct (is_stock_file stem) eqn:S; [|apply Hacc; exact I1].
      destruct content as [| |[|r rows]]; try (apply Hacc; exact I1).
      apply dict_set_In in I1. destruct I1 as [->|I1]; [|apply Hacc; exact I1].
      exists (r :: rows). cbn [fst snd]. repeat split; try assumption; [discriminate|].
      apply Hincl. left. reflexivity.
    - intros x Ix. apply Hincl. right. exact Ix. }
  apply (G [] (fun e0 (I : In e0 []) => match I with end) fs (incl_refl fs)).
Qed.

(** X13. A stock file with a non-empty table is loaded under its stem with
    the columns derived from its rows, whatever the other files of the
    folder are; the keys of the dictionary are the stems of the loadable
    files, in folder order. *)
Theorem readable_files_are_loaded (fs : folder) (stem : string) (rows : frame obs)
    (Hstems : NoDup (map fst fs))
    (Hfile : In (stem, Table rows) fs)
    (Hstock : is_stock_file stem = true)
    (Hrows : rows <> []) :
  dict_get stem (load_stock_data derive fs) = Some (derive rows)
  /\ map fst (load_stock_data derive fs) = map fst (filter loadable fs)
  /\ (length (load_stock_data derive fs) <= length fs)%nat.
Proof.
  rewrite (load_stock_data_eq derive fs Hstems). split; [|split].
  - apply dict_get_unique.
    + rewrite loaded_keys. apply NoDup_keys_filter. exact Hstems.
    + apply in_map_iff. exists (stem, Table rows). split; [reflexivity|].
      apply filter_In. split; [exact Hfile|].
      unfold loadable. cbn [fst snd]. rewrite Hstock.
      destruct rows; [congruence|reflexivity].
  - apply loaded_keys.
  - rewrite length_map. apply filter_length_le.
Qed.

End LoadedFacts.

(** ** Failures *)

Lemma mapM_raise {A B : Type} (f : A -> result B) (l : list A) e :
  mapM f l = Raise e -> exists x, In x l /\ f x = Raise e.
Proof.
  induction l as [|x l IH]; cbn [mapM]; [discriminate|].
  destruct (f x) as [y|e'] eqn:E; cbn [bind].
  - destruct (mapM f l) as [r|e''] eqn:E'; cbn [bind]; [discriminate|].
    intro H. injection H as <-. destruct (IH eq_refl) as (z & Iz & Hz).
    exists z. split; [right; exact Iz|exact Hz].
  - intro H. injection H as <-. exists x. split; [left; reflexivity|exact E].
Qed.

Lemma filterM_raise {A : Type} (f : A -> result bool) (l : list A) e :
  filterM f l = Raise e -> exists x, In x l /\ f x = Raise e.
Proof.
  induction l as [|x l IH]; cbn [filterM]; [discriminate|].
  destruct (f x) as [y|e'] eqn:E; cbn [bind].
  - destruct (filterM f l) as [r|e''] eqn:E'; cbn [bind]; [discriminate|].
    intro H. injection H as <-. destruct (IH eq_refl) as (z & Iz & Hz).
    exists z. split; [right; exact Iz|exact Hz].
  - intro H. injection H as <-. exists x. split; [left; reflexivity|exact E].
Qed.





Lemma volume_result_row_raise threshold sd d e :
  VolumeCut.result_row threshold sd d = Raise e -> e = ValueError.
Proof.
  unfold VolumeCut.result_row, VolumeCut.passing_stocks.
  destruct (filterM _ _) as [p|e'] eqn:E; cbn [bind]; [discriminate|].
  intro H. injection H as <-. apply filterM_raise in E. destruct E as (x & _ & Hx).
  eapply volume_passes_raise. exact Hx.
Qed.










(** ** An empty universe *)




(** ** The Liquidity run *)

Lemma map_period_month_ends ts :
  map Calendar.to_period_M (VolumeCut.month_ends ts) = VolumeCut.group_keys ts.
Proof.
  unfold VolumeCut.month_ends. rewrite map_map.
  rewrite <- (map_id (VolumeCut.group_keys ts)) at 2.
  apply map_ext_in. intros k Hk.
  destruct (month_group_max ts k Hk) as (_ & H & _). exact H.
Qed.

Lemma month_end_dates_length sd :
  length (VolumeCut.month_end_dates sd)
  = length (VolumeCut.group_keys (VolumeCut.all_dates sd)).
Proof.
  unfold VolumeCut.month_end_dates, sorted_dates.
  rewrite (Permutation_length (isort_perm Z.leb _)).
  rewrite <- (map_period_month_ends (VolumeCut.all_dates sd)), length_map. reflexivity.
Qed.

Lemma month_end_dates_nonempty sd t :
  In t (VolumeCut.trading_dates sd) -> VolumeCut.month_end_dates sd <> [].
Proof.
  intros I E. apply (f_equal (@length Timestamp)) in E.
  rewrite month_end_dates_length in E.
  assert (Hk : In (Calendar.to_period_M t) (VolumeCut.group_keys (VolumeCut.all_dates sd))).
  { apply group_keys_In. exists t. split; [apply all_dates_In; exact I|reflexivity]. }
  destruct (VolumeCut.group_keys (VolumeCut.all_dates sd)); [destruct Hk|discriminate].
Qed.

Lemma stock_data_has_dates w fs :
  VolumeCut.stock_data w fs <> [] ->
  exists t, In t (VolumeCut.trading_dates (VolumeCut.stock_data w fs)).
Proof.
  intro H. destruct (VolumeCut.stock_data w fs) as [|e sd] eqn:E; [congruence|].
  assert (I : In e (VolumeCut.stock_data w fs)) by (rewrite E; left; reflexivity).
  unfold VolumeCut.stock_data in I. apply load_stock_data_In in I.
  destruct I as (rows & Hne & _ & _ & Hsnd).
  destruct rows as [|[t v] rows]; [congruence|].
  exists t. apply (trading_dates_In _ e); [left; reflexivity|].
  rewrite Hsnd, with_avg_volume_index. left. reflexivity.
Qed.

Lemma mapM_length {A B : Type} (f : A -> result B) (l : list A) r :
  mapM f l = Ok r -> length r = length l.
Proof.
  intro H. apply mapM_Ok in H. symmetry. eapply Forall2_length. exact H.
Qed.

(** X15. The Liquidity script raises [IndexError] exactly when no symbol is
    loaded; when it returns, it returns at least one row, one per calendar
    month with a trading timestamp, dated by the month-end timestamps; and
    it returns when a symbol is loaded and no series repeats a timestamp. *)
Theorem liquidity_run_outcome (fs : folder) :
  let sd := VolumeCut.stock_data VolumeCut.ROLLING_WINDOW fs in
  (VolumeCut.volume_cut fs = Raise IndexError <-> sd = [])
  /\ (forall out,
         VolumeCut.volume_cut fs = Ok out ->
         out <> []
         /\ length out = length (VolumeCut.group_keys (VolumeCut.all_dates sd))
         /\ map date out = map Text.strftime (VolumeCut.month_end_dates sd))
  /\ (sd <> [] ->
      (forall e, In e sd -> NoDup (index (snd e))) ->
      exists out, VolumeCut.volume_cut fs = Ok out).
Proof.
  intro sd. unfold VolumeCut.volume_cut. fold sd.
  split; [|split].
  - split.
    + intro H. destruct sd as [|e sd'] eqn:E; [reflexivity|]. exfalso.
      destruct (stock_data_has_dates VolumeCut.ROLLING_WINDOW fs) as (t & It);
        [fold sd; rewrite E; discriminate|].
      fold sd in It. rewrite E in It.
      pose proof (month_end_dates_nonempty _ t It) as Hne.
      unfold VolumeCut.results in H.
      destruct (VolumeCut.month_end_dates (e :: sd')) as [|d ds]; [congruence|].
      apply mapM_raise in H. destruct H as (y & _ & Hy).
      apply volume_result_row_raise in Hy. discriminate.
    + intros ->. reflexivity.
  - intros out H. unfold VolumeCut.results in H.
    pose proof (month_end_dates_length sd) as Hlen.
    destruct (VolumeCut.month_end_dates sd) as [|d ds] eqn:E; [discriminate|].
    pose proof (mapM_length _ _ _ H) as Hl.
    split; [intros ->; discriminate|]. split; [congruence|].
    eapply mapM_map; [|exact H].
    intros x y Hy. apply volume_row_narrows in Hy. tauto.
  - intros Hsd Hnd.
    destruct (stock_data_has_dates VolumeCut.ROLLING_WINDOW fs Hsd) as (t & It).
    fold sd in It. pose proof (month_end_dates_nonempty _ t It) as Hne.
    unfold VolumeCut.results.
    destruct (VolumeCut.month_end_dates sd) as [|d ds]; [congruence|].
    apply mapM_total. intros m _. unfold VolumeCut.result_row, VolumeCut.passing_stocks.
    rewrite filterM_total; [cbn [bind]; eauto|].
    intros e Ie. apply volume_passes_never_raises. apply Hnd. exact Ie.
Qed.

(** ** The causes of a failure *)


(** ** The date column *)

(** X2. The date a script writes for a timestamp pandas can hold is read
    back by [pd.to_datetime] as the midnight of the same calendar day, so
    the next script looks records up on the day the row was written for;
    the one exception is the day of [pd.Timestamp.min] (1677-09-21), whose
    midnight pandas cannot hold: reading it back raises.  Two timestamps
    are written as the same string exactly when they fall on the same
    calendar day. *)
Theorem written_date_reads_back_as_its_day (t : Timestamp) (Ht : representable t) :
  to_datetime (Text.strftime t)
  = Some (if Calendar.date_of t =? Calendar.date_of Timestamp_min
          then Raise ValueError
          else Ok (Calendar.midnight (Calendar.date_of t)))
  /\ (Calendar.date_of t <> Calendar.date_of Timestamp_min ->
      representable (Calendar.midnight (Calendar.date_of t)))
  /\ Calendar.date_of (Calendar.midnight (Calendar.date_of t)) = Calendar.date_of t
  /\ (forall t', representable t' ->
        (Text.strftime t' = Text.strftime t <-> Calendar.date_of t' = Calendar.date_of t)).
Proof.
  pose proof (midnight_in_range t Ht) as M.
  split; [|split; [|split]].
  - unfold to_datetime. rewrite (parse_date_strftime t Ht). cbv zeta. rewrite M.
    destruct (Calendar.date_of t =? Calendar.date_of Timestamp_min); reflexivity.
  - intro N. apply Z.eqb_neq in N. rewrite N in M. cbn [negb] in M.
    apply andb_true_iff in M. destruct M as (M1 & M2).
    apply Z.leb_le in M1, M2. split; assumption.
  - unfold Calendar.midnight, Calendar.date_of, Calendar.ns_per_day. div_lia.
  - intros t' Ht'. split.
    + intro E. apply strftime_day; assumption.
    + intro E. unfold Text.strftime. rewrite E. reflexivity.
Qed.

Lemma NoDup_map_finer {A B C : Type} (f : A -> B) (g : A -> C) (l : list A) :
  (forall x y, In x l -> In y l -> g x = g y -> f x = f y) ->
  NoDup (map f l) -> NoDup (map g l).
Proof.
  induction l as [|x l IH]; intros H N; [constructor|].
  cbn [map] in *. inversion N as [|? ? Hnin N']; subst. constructor.
  - intro I. apply Hnin. apply in_map_iff in I. destruct I as (y & E & Iy).
    apply in_map_iff. exists y. split; [|exact Iy].
    apply H; [right; exact Iy|left; reflexivity|exact E].
  - apply IH; [|exact N']. intros a b Ia Ib. apply H; right; assumption.
Qed.

Lemma filter_keeps_distinct_keys {R K : Type} (key : R -> K) (keep : R -> bool)
    (rows : list R) (N : NoDup (map key rows)) :
  NoDup (map key (filter keep rows)).
Proof.
  induction rows as [|x rows IH]; [constructor|].
  cbn [map filter] in *. inversion N as [|? ? Hnin N']; subst.
  destruct (keep x); [|apply IH; exact N']. cbn [map]. constructor; [|apply IH; exact N'].
  intro I. apply Hnin. apply in_map_iff in I. destruct I as (y & E & Iy).
  apply filter_In in Iy. apply in_map_iff. exists y. tauto.
Qed.

Lemma period_of_day t t' :
  Calendar.date_of t = Calendar.date_of t' ->
  Calendar.to_period_M t = Calendar.to_period_M t'.
Proof. intro E. unfold Calendar.to_period_M. rewrite E. reflexivity. Qed.

Lemma month_end_days_NoDup sd :
  NoDup (map Calendar.date_of (VolumeCut.month_end_dates sd)).
Proof.
  apply (NoDup_map_finer Calendar.to_period_M).
  - intros x y _ _. apply period_of_day.
  - unfold VolumeCut.month_end_dates, sorted_dates.
    eapply Permutation_NoDup.
    + apply Permutation_map. symmetry. apply isort_perm.
    + rewrite map_period_month_ends. apply group_keys_NoDup.
Qed.

Lemma dates_NoDup (A : Type) (stamp : A -> Timestamp) (l : list A) :
  (forall x, In x l -> representable (stamp x)) ->
  NoDup (map (fun x => Calendar.date_of (stamp x)) l) ->
  NoDup (map (fun x => Text.strftime (stamp x)) l).
Proof.
  intros Hr N. eapply NoDup_map_finer; [|exact N].
  intros x y Ix Iy E. cbv beta in *. apply strftime_day; auto.
Qed.

Lemma cut_results_dates {R : Type} (condition : R -> bool) window sd rows out :
  results condition window sd rows = Ok out ->
  exists first_valid,
    first_valid_date window sd = Ok first_valid
    /\ map date out
       = map (fun r => Text.strftime (in_date r)) (volume_cut_filtered first_valid rows).
Proof.
  intro H. apply results_Ok in H. destruct H as (fv & Hfv & F).
  exists fv. split; [exact Hfv|].
  induction F as [|r row l l' Hrow F IH]; [reflexivity|].
  cbn [map]. rewrite IH. f_equal. apply cut_row_narrows in Hrow. tauto.
Qed.

(** X3. No output holds two rows with the same [date]: the Liquidity
    script writes one row per calendar month, and a cascaded script or the
    ranker that reads rows of distinct days writes rows of distinct dates. *)
Theorem date_column_is_a_key :
  (forall fs out,
      (forall t,
          In t (VolumeCut.trading_dates (VolumeCut.stock_data VolumeCut.ROLLING_WINDOW fs)) ->
          representable t) ->
      VolumeCut.volume_cut fs = Ok out -> NoDup (map date out))
  /\ (forall (R : Type) (condition : R -> bool) window sd rows out,
         (forall r, In r rows -> representable (in_date r)) ->
         NoDup (map (fun r => Calendar.date_of (in_date r)) rows) ->
         results condition window sd rows = Ok out -> NoDup (map date out))
  /\ (forall top_n months sd nifty_df rows out,
         (forall r, In r rows -> representable (in_date r)) ->
         NoDup (map (fun r => Calendar.date_of (in_date r)) rows) ->
         RelativeRank.results top_n months sd nifty_df rows = Ok out ->
         NoDup (map rank_date out)).
Proof.
  split; [|split].
  - intros fs out Hr H.
    set (sd := VolumeCut.stock_data VolumeCut.ROLLING_WINDOW fs) in *.
    assert (E : map date out = map Text.strftime (VolumeCut.month_end_dates sd)).
    { unfold VolumeCut.volume_cut, VolumeCut.results in H. fold sd in H.
      destruct (VolumeCut.month_end_dates sd) as [|d ds]; [discriminate|].
      eapply mapM_map; [|exact H]. intros x y Hy. apply volume_row_narrows in Hy. tauto. }
    rewrite E. apply (dates_NoDup Timestamp (fun t => t)).
    + intros m Im. apply Hr. apply month_end_dates_In in Im. tauto.
    + apply month_end_days_NoDup.
  - intros R condition window sd rows out Hr N H.
    destruct (cut_results_dates _ _ _ _ _ H) as (fv & _ & ->).
    apply (dates_NoDup in_row in_date).
    + intros r I. apply Hr. unfold volume_cut_filtered in I. apply filter_In in I. tauto.
    + unfold volume_cut_filtered.
      apply (filter_keeps_distinct_keys (fun r => Calendar.date_of (in_date r))). exact N.
  - intros top_n months sd nifty rows out Hr N H.
    assert (E : map rank_date out = map (fun r => Text.strftime (in_date r)) rows).
    { unfold RelativeRank.results in H.
      destruct rows as [|r0 rows]; [discriminate|].
      destruct nifty as [|n0 nifty]; [discriminate|].
      eapply mapM_map; [|exact H]. intros x y. apply rank_row_date. }
    rewrite E. apply (dates_NoDup in_row in_date); assumption.
Qed.

(** ** The cutoff on rows read from a file, which carry a date only *)

Lemma cutoff_on_midnight earliest d :
  (earliest + Calendar.warmup 200 <=? Calendar.midnight d) = (cutoff_day earliest <=? d).
Proof.
  unfold cutoff_day, Calendar.warmup, Calendar.midnight, Calendar.date_of,
    Calendar.ns_per_day.
  destruct (Z.eqb_spec (earliest mod 86400000000000) 0) as [E|E];
    destruct (Z.leb_spec (earliest + 200 * 129600000000000) (d * 86400000000000));
    destruct (Z.leb_spec (earliest / 86400000000000 + 300 + 0) d);
    destruct (Z.leb_spec (earliest / 86400000000000 + 300 + 1) d);
    try reflexivity; exfalso; div_lia.
Qed.

(** X4. On input rows that carry a date only (midnight timestamps, as
    [pd.to_datetime] reads them from a file) a cascaded script with the
    200-row window reports exactly the rows dated from [cutoff_day] on: 300
    days after the day of the earliest record, that day itself being
    reported only if the earliest record is stamped at midnight. *)
Theorem cutoff_on_dated_rows
    (R : Type) (condition : R -> bool) (sd : dict (frame R)) (rows : list in_row)
    (earliest : Timestamp) (out : list cut_row)
    (Hmin : min_date sd = Ok earliest)
    (Hdated : forall r, In r rows ->
                in_date r = Calendar.midnight (Calendar.date_of (in_date r)))
    (Hout : results condition 200 sd rows = Ok out) :
  let reported :=
    filter (fun r => cutoff_day earliest <=? Calendar.date_of (in_date r)) rows in
  map date out = map (fun r => Text.strftime (in_date r)) reported
  /\ length out = length reported
  /\ (forall r, In r reported <->
        In r rows
        /\ Calendar.date_of earliest + 300 <= Calendar.date_of (in_date r)
        /\ (Calendar.date_of (in_date r) = Calendar.date_of earliest + 300 ->
            earliest = Calendar.midnight (Calendar.date_of earliest))).
Proof.
  intro reported. unfold reported.
  destruct (cut_results_dates _ _ _ _ _ Hout) as (fv & Hfv & E).
  unfold first_valid_date in Hfv. rewrite Hmin in Hfv. cbn [bind] in Hfv.
  injection Hfv as <-.
  assert (Hfilter : volume_cut_filtered (earliest + Calendar.warmup (Z.of_nat 200)) rows
                    = filter (fun r => cutoff_day earliest <=? Calendar.date_of (in_date r)) rows).
  { unfold volume_cut_filtered. apply filter_ext_in. intros r I.
    rewrite (Hdated r I) at 1. change (Z.of_nat 200) with 200.
    apply cutoff_on_midnight. }
  change (earliest + 25920000000000000)
    with (earliest + Calendar.warmup (Z.of_nat 200)) in E.
  rewrite Hfilter in E. split; [exact E|]. split.
  - apply (f_equal (@length string)) in E. rewrite !length_map in E. exact E.
  - intro r. rewrite filter_In, Z.leb_le. unfold cutoff_day, Calendar.midnight,
      Calendar.date_of, Calendar.ns_per_day.
    destruct (Z.eqb_spec (earliest mod 86400000000000) 0) as [Em|Em];
      split; intros (I & H); (split; [exact I|]); try split; div_lia.
Qed.

(** ** The comparison with the previous stage *)

Section ComparisonFacts.

Import Comparison.

Lemma merge_skip {A B : Type} (left : list (string * A)) (r0 : string * B) right :
  ~ In (fst r0) (map fst left) -> merge left (r0 :: right) = merge left right.
Proof.
  unfold merge. induction left as [|l left IH]; intro H; [reflexivity|].
  cbn [flat_map]. rewrite IH by (intro I; apply H; right; exact I).
  cbn [filter]. destruct (String.eqb_spec (fst r0) (fst l)) as [E|_]; [|reflexivity].
  exfalso. apply H. left. symmetry. exact E.
Qed.

Lemma merge_no_key {A B : Type} (l0 : string * A) (right : list (string * B)) :
  ~ In (fst l0) (map fst right) ->
  filter (fun r => String.eqb (fst r) (fst l0)) right = [].
Proof.
  induction right as [|r right IH]; intro H; [reflexivity|].
  cbn [filter]. destruct (String.eqb_spec (fst r) (fst l0)) as [E|_].
  - exfalso. apply H. left. exact E.
  - apply IH. intro I. apply H. right. exact I.
Qed.

(** On two frames with the same key column, without a repeated key, the
    join pairs the rows position by position. *)
Lemma merge_aligned {A B : Type} (left : list (string * A)) (right : list (string * B)) :
  NoDup (map fst left) -> map fst left = map fst right ->
  merge left right
  = map (fun x => (fst (fst x), snd (fst x), snd (snd x))) (combine left right).
Proof.
  revert right. induction left as [|l left IH]; intros right N E.
  - destruct right; [reflexivity|discriminate].
  - destruct right as [|r right]; [discriminate|].
    cbn [map] in N, E. injection E as E0 E. inversion N as [|? ? Hnin N']; subst.
    change (merge (l :: left) (r :: right))
      with (map (fun r' => (fst l, snd l, snd r'))
              (filter (fun r' => String.eqb (fst r') (fst l)) (r :: right))
            ++ merge left (r :: right)).
    cbn [filter]. rewrite <- E0, String.eqb_refl.
    rewrite (merge_no_key l right) by (rewrite <- E; exact Hnin).
    rewrite merge_skip by (rewrite <- E0; exact Hnin).
    cbn [map app combine]. f_equal. apply IH; assumption.
Qed.

Lemma round_half_even_between x lo hi :
  (inject_Z lo <= x <= inject_Z hi)%Q -> lo <= Text.round_half_even x <= hi.
Proof.
  intros (Hlo & Hhi). pose proof (round_half_even_near x) as H.
  apply Qabs_Qle_condition in H. destruct H as (H1 & H2).
  assert (A1 : (inject_Z (lo + -1) < inject_Z (Text.round_half_even x))%Q).
  { rewrite inject_Z_plus. change (inject_Z (-1)) with (-1)%Q. lra. }
  assert (A2 : (inject_Z (Text.round_half_even x) < inject_Z (hi + 1))%Q).
  { rewrite inject_Z_plus. change (inject_Z 1) with 1%Q. lra. }
  rewrite <- Zlt_Qlt in A1, A2. lia.
Qed.

(** The reduction of a count that did not grow. *)
Lemma reduction_range vc sc :
  0 <= sc <= vc ->
  (vc = 0 -> reduction vc sc = NaN)
  /\ (0 < vc -> exists q, reduction vc sc = Fin q /\ (0 <= q <= 100)%Q).
Proof.
  intro H. unfold reduction. cbn [Num.sub]. split.
  - intros ->. assert (sc = 0) by lia. subst sc. reflexivity.
  - intro Hpos. cbn [Num.div].
    assert (Hq : (0 < inject_Z vc)%Q)
      by (change 0%Q with (inject_Z 0); rewrite <- Zlt_Qlt; exact Hpos).
    rewrite (Qeq_bool_pos _ Hq). cbn [Num.mul round1].
    eexists. split; [reflexivity|].
    assert (Hs : (0 <= inject_Z sc <= inject_Z vc)%Q)
      by (change 0%Q with (inject_Z 0); rewrite <- !Zle_Qle; exact H).
    set (x := ((inject_Z vc - inject_Z sc) / inject_Z vc * 100 * 10)%Q).
    assert (Hx : (inject_Z 0 <= x <= inject_Z 1000)%Q).
    { unfold x.
      assert (0 <= (inject_Z vc - inject_Z sc) / inject_Z vc)%Q
        by (apply Qle_shift_div_l; lra).
      assert ((inject_Z vc - inject_Z sc) / inject_Z vc <= 1)%Q
        by (apply Qle_shift_div_r; lra).
      change (inject_Z 0) with 0%Q. change (inject_Z 1000) with 1000%Q. split; lra. }
    apply round_half_even_between in Hx.
    assert (Hr : (inject_Z 0 <= inject_Z (Text.round_half_even x) <= inject_Z 1000)%Q)
      by (rewrite <- !Zle_Qle; exact Hx).
    change (inject_Z 0) with 0%Q in Hr. change (inject_Z 1000) with 1000%Q in Hr.
    split; [apply Qle_shift_div_l; lra|apply Qle_shift_div_r; lra].
Qed.

Lemma filter_map_fst {A B : Type} (p : A -> bool) (l : list (A * B)) :
  filter p (map fst l) = map fst (filter (fun x => p (fst x)) l).
Proof.
  induction l as [|x l IH]; [reflexivity|]. cbn [map filter].
  destruct (p (fst x)); cbn [map]; rewrite IH; reflexivity.
Qed.

Lemma Forall2_map_l {A B C : Type} (P : A -> C -> Prop) (f : B -> A) l l' :
  Forall2 P (map f l) l' -> Forall2 (fun x y => P (f x) y) l l'.
Proof.
  revert l'. induction l as [|x l IH]; intros l' H; inversion H; subst; constructor; auto.
Qed.

(** X17. In the comparison printed by a cascaded script, when the input
    rows fall on distinct days and their [count] field is the number of
    their candidates, every reported month is compared with itself, once:
    the count written is at most the count read, and the reduction is NaN
    when the count read is zero and a percentage between 0 and 100
    otherwise. *)
Theorem comparison_pairs_each_month_with_itself
    (R : Type) (condition : R -> bool) (window : nat) (sd : dict (frame R))
    (volume_cut_df : list counted_row) (first_valid : Timestamp) (out : list cut_row)
    (Hfv : first_valid_date window sd = Ok first_valid)
    (Hout : results condition window sd (map fst volume_cut_df) = Ok out)
    (Hrep : forall x, In x volume_cut_df -> representable (in_date (fst x)))
    (Hdays : NoDup (map (fun x => Calendar.date_of (in_date (fst x))) volume_cut_df))
    (Hcount : forall x, In x volume_cut_df ->
                snd x = Z.of_nat (length (candidates (fst x)))) :
  let reported := filter (fun x => first_valid <=? in_date (fst x)) volume_cut_df in
  let comparison := comparison_df first_valid volume_cut_df out in
  Forall2
    (fun x c =>
       cmp_date c = Text.strftime (in_date (fst x))
       /\ volume_count c = snd x
       /\ 0 <= sma_count c <= volume_count c
       /\ reduction_pct c = reduction (volume_count c) (sma_count c)
       /\ (volume_count c = 0 -> reduction_pct c = NaN)
       /\ (0 < volume_count c ->
           exists q, reduction_pct c = Fin q /\ (0 <= q <= 100)%Q))
    reported comparison
  /\ Forall2
       (fun row c => cmp_date c = date row /\ sma_count c = Z.of_nat (count row))
       out comparison.
Proof.
  intros reported comparison.
  destruct (results_Ok _ _ _ _ _ Hout) as (fv & Hfv' & F).
  rewrite Hfv in Hfv'. injection Hfv' as <-.
  unfold volume_cut_filtered in F. rewrite filter_map_fst in F. fold reported in F.
  apply Forall2_map_l in F.
  assert (Hsub : forall x, In x reported -> In x volume_cut_df)
    by (intros x I; unfold reported in I; apply filter_In in I; tauto).
  assert (Hkeys : NoDup (map (fun x => Text.strftime (in_date (fst x))) reported)).
  { apply (dates_NoDup counted_row (fun x => in_date (fst x))).
    - intros x I. apply Hrep. apply Hsub. exact I.
    - unfold reported.
      apply (filter_keeps_distinct_keys (fun x => Calendar.date_of (in_date (fst x)))). exact Hdays. }
  set (left := map (fun x : counted_row => (Text.strftime (in_date (fst x)), snd x)) reported).
  set (right := map (fun row => (date row, Z.of_nat (count row))) out).
  assert (Hsame : map fst left = map fst right).
  { unfold left, right. rewrite !map_map. cbn [fst].
    clear - F. induction F as [|x row l l' Hrow F IH]; [reflexivity|].
    cbn [map]. rewrite IH. f_equal. apply cut_row_narrows in Hrow. symmetry. tauto. }
  assert (Hnd : NoDup (map fst left)).
  { unfold left. rewrite map_map. cbn [fst]. exact Hkeys. }
  assert (E : comparison
              = map (fun x => let '(d, vc, sc) := x in
                              ComparisonRow d vc sc (reduction vc sc))
                  (map (fun x => (fst (fst x), snd (fst x), snd (snd x)))
                     (combine left right))).
  { change comparison
      with (map (fun x => let '(d, vc, sc) := x in
                          ComparisonRow d vc sc (reduction vc sc))
              (merge left right)).
    rewrite (merge_aligned left right Hnd Hsame). reflexivity. }
  rewrite E. unfold left, right. clear E Hsame Hnd Hkeys left right comparison.
  assert (Hc : forall x, In x reported -> snd x = Z.of_nat (length (candidates (fst x))))
    by (intros x I; apply Hcount, Hsub, I).
  clear Hsub Hout Hrep Hdays Hcount Hfv. clearbody reported. revert Hc.
  induction F as [|x row l l' Hrow F IH]; intro Hc.
  - split; constructor.
  - cbn [map combine].
    destruct IH as (IH1 & IH2); [intros y I; apply Hc; right; exact I|].
    apply cut_row_narrows in Hrow. destruct Hrow as (Hd & p & _ & Hcnt & _ & Hle).
    assert (Hb : 0 <= Z.of_nat (count row) <= snd x)
      by (rewrite (Hc x (or_introl eq_refl)), Hcnt; lia).
    split; constructor; try assumption; cbn [cmp_date volume_count sma_count reduction_pct fst snd].
    + destruct (reduction_range (snd x) (Z.of_nat (count row)) Hb) as (H0 & H1).
      repeat split; try assumption; lia.
    + split; [symmetry; exact Hd|reflexivity].
Qed.

End ComparisonFacts.

(** * Worked examples *)

(** The Liquidity scenario of the specification: a constant volume of
    600,000 passes the 500,000 threshold from the twentieth row on. *)
Example volume_cut_sample :
  VolumeCut.volume_cut Sample.volume_folder = Ok Sample.volume_rows.
Proof. vm_compute. reflexivity. Qed.

Example sma_cut_sample :
  SmaCut.sma_cut Sample.close_folder Sample.cut_input = Ok Sample.cut_rows.
Proof. vm_compute. reflexivity. Qed.

Example sma_angle_cut_sample :
  SmaAngleCut.sma_angle_cut Sample.arctan_fin Sample.np_pi
    Sample.close_folder Sample.cut_input = Ok Sample.cut_rows.
Proof. vm_compute. reflexivity. Qed.

(** The ranking scenarios of the specification: with a benchmark return of
    10 percent a symbol returning 20 percent is listed with ratio 2.00 and one
    returning 5 percent is not; with a flat benchmark the row is empty. *)
Example relative_rank_sample :
  RelativeRank.results 30 1 Sample.priced Sample.nifty_df
    [Sample.march; Sample.april; Sample.may]
  = Ok [RankRow "2020-03-31" "C (5.00), A (2.00), D (2.00)";
        RankRow "2020-04-30" ""; RankRow "2020-05-30" ""].
Proof. vm_compute. reflexivity. Qed.

Example ranked_sample :
  RelativeRank.ranked 2 1 Sample.priced Sample.nifty_df Sample.march
  = Ok Sample.march_top.
Proof. vm_compute. reflexivity. Qed.

(** A past close of zero gives an infinite return and ratio, which ranks
    first and is printed as [inf]. *)
Example zero_past_close_ranks_first :
  RelativeRank.result_row 30 1
    (("E"%string, Sample.quotes [(18321, 0); (18352, 60)]) :: Sample.priced)
    Sample.nifty_df
    (InRow (Calendar.midnight 18352) (Some "A, E"%string))
  = Ok (RankRow "2020-03-31" "E (inf), A (2.00)").
Proof. vm_compute. reflexivity. Qed.

(** The Liquidity stage looks the month-end timestamp itself up: a symbol
    stamped at another time of the same day is not found. *)
Example liquidity_looks_up_the_timestamp :
  let early := VolumeCut.with_avg_volume 1 [(Calendar.midnight 18292 + 1, Some 9%Q)] in
  let late := VolumeCut.with_avg_volume 1 [(Calendar.midnight 18292 + 2, Some 9%Q)] in
  VolumeCut.results 5 [("EARLY"%string, early); ("LATE"%string, late)]
  = Ok [CutRow "2020-01-31" "LATE" 1].
Proof. vm_compute. reflexivity. Qed.

(** A repeated timestamp makes the scripts raise. *)
Example repeated_timestamp_raises :
  passes SmaCut.condition
    [("X"%string, [(5, SmaCut.Cols (Some 2%Q) (Some 1%Q));
                   (5, SmaCut.Cols (Some 2%Q) (Some 1%Q))])]
    (Calendar.midnight 0) "X"
  = Raise ValueError.
Proof. reflexivity. Qed.

Example lookback_is_clamped :
  Calendar.civil_from_days (Calendar.months_back 1 (Calendar.midnight 18352))
  = (2020, 2, 29).
Proof. reflexivity. Qed.

(** ** Further examples *)

(** With a falling benchmark the ranker lists the symbols that fell at
    least as much, the deepest fall first. *)
Example falling_benchmark_lists_the_losers :
  RelativeRank.result_row 30 1 Fixture.bear Fixture.falling_nifty Fixture.bear_march
  = Ok (RankRow "2020-03-31" "LOSER (2.20)").
Proof. vm_compute. reflexivity. Qed.

(** A symbol with a comma in its name is read back as two candidates. *)
Example comma_in_a_symbol_splits_it :
  candidates (InRow 0 (Some (Text.join (sorted_names ["M,M"; "ACC"]%string))))
  = ["ACC"; "M"; "M"]%string.
Proof. vm_compute. reflexivity. Qed.

(** The date written for a 09:15 timestamp is read back as the midnight of
    that day. *)
Example date_reads_back_at_midnight :
  to_datetime (Text.strftime (Sample.at_open 18321)) = Some (Ok (Calendar.midnight 18321)).
Proof. vm_compute. reflexivity. Qed.

(** The first day pandas knows is written, but it is not read back. *)
Example first_day_is_not_read_back :
  Text.strftime Timestamp_min = "1677-09-21"%string
  /\ to_datetime "1677-09-21" = Some (Raise ValueError)
  /\ to_datetime "1677-09-22" = Some (Ok (Calendar.midnight (-106751))).
Proof. repeat split; vm_compute; reflexivity. Qed.

Example stock_count_sample :
  RankSummary.stock_count "C (5.00), A (2.00), D (2.00)" = 3%nat
  /\ RankSummary.stock_count "" = 0%nat.
Proof. split; vm_compute; reflexivity. Qed.

(** The reduction printed for a month that keeps 1 symbol out of 3, and for
    a month without candidates. *)
Example reduction_sample :
  Num.eqv (Comparison.reduction 3 1) (Fin (667 # 10))
  /\ Comparison.reduction 0 0 = NaN.
Proof. split; vm_compute; reflexivity. Qed.

(** * The theorems at work on the sample data *)

Lemma NoDup_checked (l : list Z) : nodup Z.eq_dec l = l -> NoDup l.
Proof. intros <-. apply NoDup_nodup. Qed.

Lemma NoDup_names_checked (l : list string) : nodup string_dec l = l -> NoDup l.
Proof. intros <-. apply NoDup_nodup. Qed.

Lemma no_record_checked {R : Type} (df : frame R) (d : Z) :
  forallb (fun t => negb (Calendar.date_of t =? d)) (index df) = true ->
  forall t, In t (index df) -> Calendar.date_of t <> d.
Proof.
  intros H t Ht E. rewrite forallb_forall in H. specialize (H t Ht).
  apply negb_true_iff, Z.eqb_neq in H. contradiction.
Qed.

Lemma one_timestamp_per_day_checked (sd : dict (frame VolumeCut.cols)) :
  (let ts := VolumeCut.trading_dates sd in
   forallb (fun t1 =>
              forallb (fun t2 =>
                         implb (Calendar.date_of t1 =? Calendar.date_of t2) (t1 =? t2))
                ts) ts) = true ->
  one_timestamp_per_day sd.
Proof.
  intros H t1 t2 H1 H2 E. cbv zeta in H. rewrite forallb_forall in H.
  specialize (H t1 H1). rewrite forallb_forall in H. specialize (H t2 H2).
  apply Z.eqb_eq in E. rewrite E in H. apply Z.eqb_eq. exact H.
Qed.

Lemma frames_checked {R : Type} (sd : dict (frame R)) :
  forallb (fun e => if list_eq_dec Z.eq_dec (nodup Z.eq_dec (index (snd e))) (index (snd e))
                    then true else false) sd = true ->
  forall name df, dict_get name sd = Some df -> NoDup (index df).
Proof.
  intros H name df Hget. apply dict_get_In in Hget.
  rewrite forallb_forall in H. specialize (H _ Hget). cbn [snd] in H.
  destruct (list_eq_dec Z.eq_dec _ _) as [E|_]; [|discriminate].
  apply NoDup_checked. exact E.
Qed.

Lemma filter_stages_narrow_witness :
  let sd := VolumeCut.stock_data VolumeCut.ROLLING_WINDOW Sample.volume_folder in
  VolumeCut.volume_cut Sample.volume_folder = Ok Sample.volume_rows
  /\ Forall2 (fun d row => date row = Text.strftime d /\ narrows (map fst sd) row)
       (VolumeCut.month_end_dates sd) Sample.volume_rows
  /\ SmaCut.sma_cut Sample.close_folder Sample.cut_input = Ok Sample.cut_rows
  /\ cascade_narrows SmaCut.SMA_WINDOW
       (SmaCut.stock_data SmaCut.SMA_WINDOW Sample.close_folder)
       Sample.cut_input Sample.cut_rows
  /\ SmaAngleCut.sma_angle_cut Sample.arctan_fin Sample.np_pi
       Sample.close_folder Sample.cut_input = Ok Sample.cut_rows
  /\ cascade_narrows SmaAngleCut.SMA_200_WINDOW
       (SmaAngleCut.stock_data Sample.arctan_fin Sample.np_pi
          SmaAngleCut.SMA_200_WINDOW SmaAngleCut.SMA_50_WINDOW Sample.close_folder)
       Sample.cut_input Sample.cut_rows.
Proof.
  intro sd.
  assert (H1 : VolumeCut.volume_cut Sample.volume_folder = Ok Sample.volume_rows)
    by (vm_compute; reflexivity).
  assert (H2 : SmaCut.sma_cut Sample.close_folder Sample.cut_input = Ok Sample.cut_rows)
    by (vm_compute; reflexivity).
  assert (H3 : SmaAngleCut.sma_angle_cut Sample.arctan_fin Sample.np_pi
                 Sample.close_folder Sample.cut_input = Ok Sample.cut_rows)
    by (vm_compute; reflexivity).
  destruct filter_stages_narrow as (T1 & T2 & T3).
  split; [exact H1|]. split; [exact (T1 _ _ H1)|].
  split; [exact H2|]. split; [exact (T2 _ _ _ H2)|].
  split; [exact H3|exact (T3 _ _ _ _ _ H3)].
Defined.

Lemma rolling_mean_defined_after_warmup_else_fail_witness :
  (1 <= 20)%nat
  /\ nth_error Sample.steady 16 = Some (Sample.at_open 18292, Some 600000%Q)
  /\ NoDup (map Calendar.date_of (index Sample.steady))
  /\ nth_error (Rolling.rolling_mean 20 (map snd Sample.steady)) 16 = Some None
  /\ (forall threshold name,
         VolumeCut.passes threshold (Sample.at_open 18292)
           (name, VolumeCut.with_avg_volume 20 Sample.steady) = Ok false).
Proof.
  assert (Hw : (1 <= 20)%nat) by lia.
  assert (Hrow : nth_error Sample.steady 16 = Some (Sample.at_open 18292, Some 600000%Q))
    by (vm_compute; reflexivity).
  assert (Hdays : NoDup (map Calendar.date_of (index Sample.steady)))
    by (apply NoDup_checked; vm_compute; reflexivity).
  destruct (rolling_mean_defined_after_warmup_else_fail
              20 Sample.steady 16 _ _ Hw Hrow Hdays) as (_ & Hearly & _ & Hfail).
  assert (Hnone : nth_error (Rolling.rolling_mean 20 (map snd Sample.steady)) 16 = Some None)
    by (apply Hearly; lia).
  split; [exact Hw|]. split; [exact Hrow|]. split; [exact Hdays|].
  split; [exact Hnone|]. exact (proj1 (Hfail Hnone)).
Defined.

Lemma arctan_fin_zero q : (q == 0)%Q -> (Sample.arctan_fin q == 0)%Q.
Proof.
  intro H. unfold Sample.arctan_fin. rewrite H. reflexivity.
Qed.

Lemma slope_angle_formula_witness :
  exists ts row,
    nth_error (SmaAngleCut.with_angle Sample.arctan_fin Sample.np_pi 2 1 Sample.flat) 2
    = Some (ts, row)
    /\ SmaAngleCut.ma200 row = Some (10 # 2)%Q
    /\ Num.eqv (SmaAngleCut.angle row) (Fin 0).
Proof.
  let v := eval vm_compute in
    (nth_error (SmaAngleCut.with_angle Sample.arctan_fin Sample.np_pi 2 1 Sample.flat) 2) in
  match v with
  | Some (?ts, ?row) =>
      assert (Hrow : nth_error
                       (SmaAngleCut.with_angle Sample.arctan_fin Sample.np_pi 2 1
                          Sample.flat) 2 = Some (ts, row))
        by (vm_compute; reflexivity);
      exists ts, row
  end.
  split; [exact Hrow|]. split; [reflexivity|].
  destruct (slope_angle_formula _ _ _ _ _ _ _ _ Hrow) as (_ & _ & _ & Hflat).
  eapply (Hflat arctan_fin_zero).
  - intro H. vm_compute in H. discriminate H.
  - reflexivity.
  - vm_compute. reflexivity.
  - reflexivity.
  - reflexivity.
  - intro H. vm_compute in H. discriminate H.
Defined.




Lemma exact_date_lookup_or_silent_exclusion_witness :
  let sd := SmaCut.stock_data 2 [("GAPPY"%string, Table Sample.gappy)] in
  let df := SmaCut.with_sma 2 Sample.gappy in
  let volumes := VolumeCut.stock_data 20 Sample.volume_folder in
  let steady := ("STEADY"%string, VolumeCut.with_avg_volume 20 Sample.steady) in
  dict_get "GAPPY"%string sd = Some df
  /\ NoDup (map Calendar.date_of (index df))
  /\ In (Sample.at_open 18278, SmaCut.Cols (Some 9%Q) None) df
  /\ passes SmaCut.condition sd (Calendar.midnight 18278) "GAPPY"%string = Ok false
  /\ (forall t, In t (index df) ->
                Calendar.date_of t <> Calendar.date_of (Calendar.midnight 18300))
  /\ passes SmaCut.condition sd (Calendar.midnight 18300) "GAPPY"%string = Ok false
  /\ one_timestamp_per_day volumes
  /\ In steady volumes
  /\ In (Sample.at_open 18321) (VolumeCut.month_end_dates volumes)
  /\ VolumeCut.passes 500000 (Sample.at_open 18321) steady = Ok true.
Proof.
  intros sd df volumes steady.
  assert (Hget : dict_get "GAPPY"%string sd = Some df) by (vm_compute; reflexivity).
  assert (Hdays : NoDup (map Calendar.date_of (index df)))
    by (apply NoDup_checked; vm_compute; reflexivity).
  assert (Hin : In (Sample.at_open 18278, SmaCut.Cols (Some 9%Q) None) df)
    by (vm_compute; tauto).
  assert (Hnone : forall t, In t (index df) ->
                    Calendar.date_of t <> Calendar.date_of (Calendar.midnight 18300))
    by (apply no_record_checked; vm_compute; reflexivity).
  assert (Hone : one_timestamp_per_day volumes)
    by (apply one_timestamp_per_day_checked; vm_compute; reflexivity).
  assert (Hsteady : In steady volumes) by (vm_compute; tauto).
  assert (Hend : In (Sample.at_open 18321) (VolumeCut.month_end_dates volumes))
    by (vm_compute; tauto).
  assert (Hts : NoDup (index (snd steady)))
    by (apply NoDup_checked; vm_compute; reflexivity).
  destruct exact_date_lookup_or_silent_exclusion as (Hliquidity & Hlevel & _).
  destruct (Hlevel sd (Calendar.midnight 18278) []) as (_ & Hlocated & _ & _).
  destruct (Hlevel sd (Calendar.midnight 18300) []) as (_ & _ & Habsent & _).
  destruct (Hliquidity 500000%Q volumes (Sample.at_open 18321)) as (_ & Hstamp & _).
  split; [exact Hget|]. split; [exact Hdays|]. split; [exact Hin|].
  split; [|split; [exact Hnone|split; [|split; [exact Hone|split;
    [exact Hsteady|split; [exact Hend|]]]]]].
  - assert (Hday : Calendar.date_of (Sample.at_open 18278)
                   = Calendar.date_of (Calendar.midnight 18278))
      by (vm_compute; reflexivity).
    destruct (Hlocated "GAPPY"%string df _ _ Hget Hdays Hin Hday) as (Hpass & Hmissing).
    rewrite Hpass, (Hmissing (or_intror eq_refl)). reflexivity.
  - exact (Habsent "GAPPY"%string df Hget Hnone).
  - rewrite (Hstamp steady (Sample.at_open 18321)
               (VolumeCut.Cols (Some 600000%Q) (Some (12000000 # 20)%Q))
               Hone Hsteady Hend Hts).
    + reflexivity.
    + vm_compute. tauto.
    + reflexivity.
Defined.

Lemma warmup_cutoff_selects_rows_witness :
  let sd := SmaCut.stock_data SmaCut.SMA_WINDOW Sample.close_folder in
  SmaCut.sma_cut Sample.close_folder Sample.cut_input = Ok Sample.cut_rows
  /\ reports_from_cutoff sd Sample.cut_input Sample.cut_rows
  /\ filter (fun r => Sample.at_open 18276 + 300 * Calendar.ns_per_day <=? in_date r)
       Sample.cut_input
     = skipn 2 Sample.cut_input
  /\ sd <> []
  /\ (forall name df, dict_get name sd = Some df -> NoDup (index df))
  /\ exists out, SmaCut.sma_cut Sample.close_folder Sample.cut_input = Ok out.
Proof.
  intro sd.
  assert (H : SmaCut.sma_cut Sample.close_folder Sample.cut_input = Ok Sample.cut_rows)
    by (vm_compute; reflexivity).
  assert (Hsd : sd <> []) by (vm_compute; discriminate).
  assert (Hts : forall name df, dict_get name sd = Some df -> NoDup (index df))
    by (apply frames_checked; vm_compute; reflexivity).
  destruct warmup_cutoff_selects_rows as (Hlevel & _ & Htotal & _).
  split; [exact H|]. split; [exact (Hlevel _ _ _ H)|].
  split; [vm_compute; reflexivity|]. split; [exact Hsd|]. split; [exact Hts|].
  apply (Htotal Sample.close_folder Sample.cut_input Hsd Hts).
  intros earliest Hmin.
  assert (E : min_date sd = Ok (Sample.at_open 18276)) by (vm_compute; reflexivity).
  assert (E' : Ok earliest = Ok (Sample.at_open 18276))
    by (rewrite <- Hmin; exact E).
  injection E' as ->.
  exists (InRow (Calendar.midnight 18577) (Some "BROKEN, FALLING, RISING"%string)).
  split; [vm_compute; tauto|vm_compute; discriminate].
Defined.

Lemma outputs_independent_of_file_order_witness :
  NoDup (map fst Sample.close_folder)
  /\ Permutation Sample.close_folder (rev Sample.close_folder)
  /\ SmaCut.sma_cut (rev Sample.close_folder) Sample.cut_input
     = SmaCut.sma_cut Sample.close_folder Sample.cut_input
  /\ VolumeCut.volume_cut (rev Sample.close_folder)
     = VolumeCut.volume_cut Sample.close_folder.
Proof.
  assert (Hstems : NoDup (map fst Sample.close_folder))
    by (apply NoDup_names_checked; vm_compute; reflexivity).
  assert (Hperm : Permutation Sample.close_folder (rev Sample.close_folder))
    by apply Permutation_rev.
  destruct (outputs_independent_of_file_order Sample.close_folder
              (rev Sample.close_folder) Hstems Hperm) as (Hvolume & Hlevel & _).
  split; [exact Hstems|]. split; [exact Hperm|].
  split; [exact (Hlevel Sample.cut_input)|exact Hvolume].
Defined.

Lemma absent_symbol_is_skipped_witness :
  let sd := SmaCut.stock_data SmaCut.SMA_WINDOW Sample.close_folder in
  let cands := ["RISING"; "GHOST"; "BROKEN"]%string in
  dict_get "GHOST"%string sd = None
  /\ (forall content, In ("BROKEN"%string, content) Sample.close_folder ->
                      loadable ("BROKEN"%string, content) = false)
  /\ dict_get "BROKEN"%string sd = None
  /\ passing_among SmaCut.condition sd (Calendar.midnight 18590)
       (filter (other_than "GHOST"%string) cands)
     = passing_among SmaCut.condition sd (Calendar.midnight 18590) cands
  /\ passing_among SmaCut.condition sd (Calendar.midnight 18590) cands
     = Ok ["RISING"%string]
  /\ dict_get "G"%string Sample.priced = None
  /\ RelativeRank.stock_rs_data Sample.priced (in_date Sample.march) 18321
       (Fin (1 # 10)) (filter (other_than "G"%string) (candidates Sample.march))
     = RelativeRank.stock_rs_data Sample.priced (in_date Sample.march) 18321
         (Fin (1 # 10)) (candidates Sample.march).
Proof.
  intros sd cands.
  assert (Hghost : dict_get "GHOST"%string sd = None) by (vm_compute; reflexivity).
  assert (Hbroken : forall content, In ("BROKEN"%string, content) Sample.close_folder ->
                      loadable ("BROKEN"%string, content) = false).
  { intros content [H|[H|[H|[]]]]; try discriminate H.
    injection H as <-. reflexivity. }
  assert (Hg : dict_get "G"%string Sample.priced = None) by (vm_compute; reflexivity).
  destruct (absent_symbol_is_skipped "GHOST"%string) as (_ & Hlevel & _).
  destruct (absent_symbol_is_skipped "BROKEN"%string) as (Hload & _).
  destruct (absent_symbol_is_skipped "G"%string) as (_ & _ & _ & Hrank).
  split; [exact Hghost|]. split; [exact Hbroken|].
  split; [exact (Hload _ (SmaCut.with_sma SmaCut.SMA_WINDOW) _ Hbroken)|].
  split; [exact (proj1 (Hlevel sd (Calendar.midnight 18590) cands Hghost))|].
  split; [vm_compute; reflexivity|]. split; [exact Hg|].
  exact (proj1 (Hrank Sample.priced _ _ _ _ Hg)).
Defined.

(** ** The further properties at work *)

Lemma symbols_checked {V : Type} (sd : dict V) :
  forallb (fun e => symbol_ok (fst e)) sd = true ->
  Forall (fun e => symbol_ok (fst e) = true) sd.
Proof. intro H. apply Forall_forall. apply forallb_forall. exact H. Qed.

Lemma representable_checked (l : list Timestamp) :
  forallb (fun t => (Timestamp_min <=? t) && (t <=? Timestamp_max)) l = true ->
  forall t, In t l -> representable t.
Proof.
  intros H t I. rewrite forallb_forall in H. specialize (H t I).
  apply andb_true_iff in H. destruct H as (H1 & H2).
  apply Z.leb_le in H1, H2. split; assumption.
Qed.

Lemma stocks_cell_reads_back_witness :
  let sd := VolumeCut.stock_data VolumeCut.ROLLING_WINDOW Sample.volume_folder in
  let row := CutRow "2020-02-29" "STEADY" 1 in
  let sd_na := VolumeCut.stock_data VolumeCut.ROLLING_WINDOW Fixture.na_folder in
  let row_na := CutRow "2020-02-29" "NA" 1 in
  let r := InRow (Calendar.midnight 18577) (Some "BROKEN, FALLING, RISING"%string) in
  let sd' := SmaCut.stock_data SmaCut.SMA_WINDOW Sample.close_folder in
  let read := fun field => candidates (InRow (Calendar.midnight 18321) (read_cell field)) in
  VolumeCut.result_row VolumeCut.VOLUME_THRESHOLD sd (Sample.at_open 18321) = Ok row
  /\ read (stocks row) = ["STEADY"%string]
  /\ length (read (stocks row)) = count row
  /\ VolumeCut.result_row VolumeCut.VOLUME_THRESHOLD sd_na (Sample.at_open 18321)
     = Ok row_na
  /\ read (stocks row_na) = [] /\ count row_na = 1%nat
  /\ result_row SmaCut.condition sd' r = Ok (CutRow "2020-11-11" "RISING" 1)
  /\ read "RISING"%string = ["RISING"%string].
Proof.
  intros sd row sd_na row_na r sd' read.
  assert (H1 : VolumeCut.result_row VolumeCut.VOLUME_THRESHOLD sd (Sample.at_open 18321)
               = Ok row) by (vm_compute; reflexivity).
  assert (H1' : VolumeCut.result_row VolumeCut.VOLUME_THRESHOLD sd_na (Sample.at_open 18321)
                = Ok row_na) by (vm_compute; reflexivity).
  assert (Hok : Forall (fun e => symbol_ok (fst e) = true) sd)
    by (apply symbols_checked; vm_compute; reflexivity).
  assert (Hok' : Forall (fun e => symbol_ok (fst e) = true) sd_na)
    by (apply symbols_checked; vm_compute; reflexivity).
  assert (H2 : result_row SmaCut.condition sd' r = Ok (CutRow "2020-11-11" "RISING" 1))
    by (vm_compute; reflexivity).
  assert (Hempty : dict_get EmptyString sd' = None) by (vm_compute; reflexivity).
  destruct stocks_cell_reads_back as (T1 & T2).
  destruct (T1 _ _ _ _ Hok H1) as (p & Hp & _ & Hread).
  assert (Ep : VolumeCut.passing_stocks VolumeCut.VOLUME_THRESHOLD sd (Sample.at_open 18321)
               = Ok ["STEADY"%string]) by (vm_compute; reflexivity).
  rewrite Ep in Hp. injection Hp as <-.
  destruct (T1 _ _ _ _ Hok' H1') as (q & Hq & _ & Hread').
  assert (Eq : VolumeCut.passing_stocks VolumeCut.VOLUME_THRESHOLD sd_na
                 (Sample.at_open 18321) = Ok ["NA"%string]) by (vm_compute; reflexivity).
  rewrite Eq in Hq. injection Hq as <-.
  destruct (T2 _ SmaCut.condition _ _ _ Hempty H2) as (p' & Hp' & _ & Hread'').
  assert (Ep' : passing_among SmaCut.condition sd' (in_date r) (candidates r)
                = Ok ["RISING"%string]) by (vm_compute; reflexivity).
  rewrite Ep' in Hp'. injection Hp' as <-.
  pose proof (Hread (Calendar.midnight 18321)) as A. cbv zeta in A.
  pose proof (Hread' (Calendar.midnight 18321)) as B. cbv zeta in B.
  pose proof (Hread'' (Calendar.midnight 18321)) as C. cbv zeta in C.
  destruct A as (A1 & A2 & _). destruct B as (_ & _ & B3). destruct C as (C1 & _).
  split; [exact H1|]. split; [exact A1|]. split; [exact (A2 eq_refl)|].
  split; [exact H1'|]. split; [exact (proj1 (B3 eq_refl))|].
  split; [exact (proj2 (B3 eq_refl))|]. split; [exact H2|exact C1].
Defined.

Lemma written_date_reads_back_as_its_day_witness :
  representable (Sample.at_open 18321)
  /\ to_datetime (Text.strftime (Sample.at_open 18321))
     = Some (Ok (Calendar.midnight 18321))
  /\ Text.strftime (Sample.at_open 18321) = "2020-02-29"%string
  /\ representable Timestamp_min
  /\ to_datetime (Text.strftime Timestamp_min) = Some (Raise ValueError).
Proof.
  assert (H : representable (Sample.at_open 18321)) by (vm_compute; split; discriminate).
  assert (H' : representable Timestamp_min) by (vm_compute; split; discriminate).
  split; [exact H|].
  destruct (written_date_reads_back_as_its_day (Sample.at_open 18321) H) as (T & _).
  destruct (written_date_reads_back_as_its_day Timestamp_min H') as (T' & _).
  split; [rewrite T; vm_compute; reflexivity|].
  split; [vm_compute; reflexivity|]. split; [exact H'|].
  rewrite T'. vm_compute. reflexivity.
Defined.

Lemma date_column_is_a_key_witness :
  VolumeCut.volume_cut Sample.volume_folder = Ok Sample.volume_rows
  /\ NoDup (map date Sample.volume_rows)
  /\ SmaCut.sma_cut Sample.close_folder Sample.cut_input = Ok Sample.cut_rows
  /\ NoDup (map date Sample.cut_rows)
  /\ NoDup (map rank_date
              [RankRow "2020-03-31" "C (5.00), A (2.00), D (2.00)";
               RankRow "2020-04-30" ""; RankRow "2020-05-30" ""]).
Proof.
  assert (H1 : VolumeCut.volume_cut Sample.volume_folder = Ok Sample.volume_rows)
    by (vm_compute; reflexivity).
  assert (H2 : SmaCut.sma_cut Sample.close_folder Sample.cut_input = Ok Sample.cut_rows)
    by (vm_compute; reflexivity).
  assert (H3 : RelativeRank.results 30 1 Sample.priced Sample.nifty_df
                 [Sample.march; Sample.april; Sample.may]
               = Ok [RankRow "2020-03-31" "C (5.00), A (2.00), D (2.00)";
                     RankRow "2020-04-30" ""; RankRow "2020-05-30" ""])
    by (vm_compute; reflexivity).
  destruct date_column_is_a_key as (T1 & T2 & T3).
  split; [exact H1|]. split.
  - apply (T1 Sample.volume_folder); [|exact H1].
    apply representable_checked. vm_compute. reflexivity.
  - split; [exact H2|]. split.
    + apply (T2 _ SmaCut.condition SmaCut.SMA_WINDOW
               (SmaCut.stock_data SmaCut.SMA_WINDOW Sample.close_folder)
               Sample.cut_input); [| |exact H2].
      * intros r I. apply (representable_checked (map in_date Sample.cut_input));
          [vm_compute; reflexivity|apply in_map; exact I].
      * apply NoDup_checked. vm_compute. reflexivity.
    + apply (T3 30%nat 1 Sample.priced Sample.nifty_df
               [Sample.march; Sample.april; Sample.may]); [| |exact H3].
      * intros r I.
        apply (representable_checked
                 (map in_date [Sample.march; Sample.april; Sample.may]));
          [vm_compute; reflexivity|apply in_map; exact I].
      * apply NoDup_checked. vm_compute. reflexivity.
Defined.

Lemma cutoff_on_dated_rows_witness :
  let sd := SmaCut.stock_data SmaCut.SMA_WINDOW Sample.close_folder in
  min_date sd = Ok (Sample.at_open 18276)
  /\ cutoff_day (Sample.at_open 18276) = 18577
  /\ map date Sample.cut_rows
     = map (fun r => Text.strftime (in_date r))
         (filter (fun r => 18577 <=? Calendar.date_of (in_date r)) Sample.cut_input).
Proof.
  intro sd.
  assert (Hmin : min_date sd = Ok (Sample.at_open 18276)) by (vm_compute; reflexivity).
  assert (Hout : results SmaCut.condition 200 sd Sample.cut_input = Ok Sample.cut_rows)
    by (vm_compute; reflexivity).
  assert (Hdated : forall r, In r Sample.cut_input ->
                     in_date r = Calendar.midnight (Calendar.date_of (in_date r))).
  { intros r I. repeat (destruct I as [<-|I]; [vm_compute; reflexivity|]). destruct I. }
  split; [exact Hmin|]. split; [vm_compute; reflexivity|].
  destruct (cutoff_on_dated_rows _ SmaCut.condition sd Sample.cut_input
              (Sample.at_open 18276) Sample.cut_rows Hmin Hdated Hout) as (T & _).
  exact T.
Defined.

Lemma window_checked (P : Q -> bool) (Pp : Q -> Prop) (win : list obs) :
  (forall q, P q = true -> Pp q) ->
  forallb (fun o => match o with Some q => P q | None => false end) win = true ->
  Forall (fun o => exists q, o = Some q /\ Pp q) win.
Proof.
  intros HP H. apply Forall_forall. intros o I. rewrite forallb_forall in H.
  specialize (H o I). destruct o as [q|]; [|discriminate]. exists q. auto.
Qed.

Lemma liquidity_follows_the_window_witness :
  let e := ("STEADY"%string, VolumeCut.with_avg_volume 20 Sample.steady) in
  let window := Rolling.window_at 20 19 (map snd Sample.steady) in
  nth_error Sample.steady 19 = Some (Sample.at_open 18295, Some 600000%Q)
  /\ length window = 20%nat
  /\ VolumeCut.passes 500000 (Sample.at_open 18295) e = Ok true
  /\ exists q, In (Some q) window /\ (500000 < q)%Q.
Proof.
  intros e window.
  assert (Hrow : nth_error Sample.steady 19 = Some (Sample.at_open 18295, Some 600000%Q))
    by (vm_compute; reflexivity).
  assert (Hindex : NoDup (index Sample.steady))
    by (apply NoDup_checked; vm_compute; reflexivity).
  assert (Hw : (0 < 20)%nat) by lia.
  destruct (liquidity_follows_the_window 500000 20 "STEADY" Sample.steady 19
              (Sample.at_open 18295) (Some 600000%Q) Hw Hindex Hrow)
    as (Tonly & Tall & _).
  assert (Hpass : VolumeCut.passes 500000 (Sample.at_open 18295) e = Ok true).
  { apply Tall; [lia|].
    apply (window_checked (Qlt_bool 500000)); [intro q; apply Qlt_bool_iff|].
    vm_compute. reflexivity. }
  destruct (Tonly Hpass) as (Hlen & _ & Hex).
  split; [exact Hrow|]. split; [exact Hlen|]. split; [exact Hpass|exact Hex].
Defined.

Lemma trend_level_follows_the_window_witness :
  let sd := SmaCut.stock_data SmaCut.SMA_WINDOW Sample.close_folder in
  let window := Rolling.window_at 200 301 (map snd Sample.rising) in
  passes SmaCut.condition sd (Calendar.midnight 18577) "RISING" = Ok true
  /\ length window = 200%nat
  /\ exists q, In (Some q) window /\ (q < 401)%Q.
Proof.
  intros sd window.
  assert (Hget : dict_get "RISING" sd = Some (SmaCut.with_sma 200 Sample.rising))
    by (vm_compute; reflexivity).
  assert (Hdays : NoDup (map Calendar.date_of (index Sample.rising)))
    by (apply NoDup_checked; vm_compute; reflexivity).
  assert (Hrow : nth_error Sample.rising 301 = Some (Sample.at_open 18577, Some 401%Q))
    by (vm_compute; reflexivity).
  assert (Hday : Calendar.date_of (Calendar.midnight 18577)
                 = Calendar.date_of (Sample.at_open 18577))
    by (vm_compute; reflexivity).
  assert (Hw : (0 < 200)%nat) by lia.
  assert (Hpass : passes SmaCut.condition sd (Calendar.midnight 18577) "RISING" = Ok true)
    by (vm_compute; reflexivity).
  destruct (trend_level_follows_the_window 200 sd "RISING" Sample.rising 301
              (Sample.at_open 18577) (Calendar.midnight 18577) 401 Hw Hget Hdays Hrow Hday)
    as (Tonly & _ & _).
  destruct (Tonly Hpass) as (Hlen & _ & Hex).
  split; [exact Hpass|]. split; [exact Hlen|exact Hex].
Defined.

Lemma arctan_fin_sign q : (q <= 0)%Q -> (Sample.arctan_fin q <= 0)%Q.
Proof.
  intro H. unfold Sample.arctan_fin. apply Qdiv_nonpos; [exact H|].
  assert (0 <= q * q)%Q by nra. lra.
Qed.

Lemma buy_zone_needs_a_higher_close_witness :
  exists row,
    nth_error (SmaAngleCut.with_angle Sample.arctan_fin Sample.np_pi 3 2 Fixture.doubling) 3
    = Some (Sample.at_open 18279, row)
    /\ SmaAngleCut.condition (2 # 10) row = true
    /\ exists m prev old,
         nth_error (Rolling.rolling_mean 3 (map snd Fixture.doubling)) 3 = Some (Some m)
         /\ nth_error (Rolling.rolling_mean 3 (map snd Fixture.doubling)) 2
            = Some (Some prev)
         /\ (prev < m)%Q
         /\ nth_error (map snd Fixture.doubling) 0 = Some (Some old)
         /\ (old < 8)%Q.
Proof.
  eexists. split; [vm_compute; reflexivity|].
  split; [vm_compute; reflexivity|].
  assert (Hraw : nth_error Fixture.doubling 3 = Some (Sample.at_open 18279, Some 8%Q))
    by (vm_compute; reflexivity).
  destruct (buy_zone_needs_a_higher_close Sample.arctan_fin Sample.np_pi (2 # 10) 3 2
              Fixture.doubling 3 (Sample.at_open 18279) 8 _
              ltac:(lia) ltac:(lra) ltac:(unfold Sample.np_pi; lra) arctan_fin_sign Hraw
              ltac:(lra) ltac:(vm_compute; reflexivity) ltac:(vm_compute; reflexivity))
    as (m & prev & old & _ & Hm & Hp & Hlt & Hold & Hc).
  exists m, prev, old. repeat split; assumption.
Defined.

Lemma ratio_test_follows_the_sign_of_the_benchmark_witness :
  exists e,
    RelativeRank.rs_entry Fixture.bear (Calendar.midnight 18352) 18321
      (Fin (- (1 # 11))) "LOSER" = Ok (Some e)
    /\ exists df current past current_price past_price,
         dict_get "LOSER" Fixture.bear = Some df
         /\ In (current, current_price) df /\ In (past, past_price) df
         /\ Num.leb (RelativeRank.period_return current_price past_price)
              (Fin (- (1 # 11))) = true.
Proof.
  eexists. split; [vm_compute; reflexivity|].
  destruct (ratio_test_follows_the_sign_of_the_benchmark Fixture.bear
              (Calendar.midnight 18352) 18321 (- (1 # 11)) "LOSER" _
              ltac:(vm_compute; reflexivity))
    as ((df & c & p & cp & pp & Hget & Ic & _ & Ip & _ & _ & Hneg & _) & _).
  exists df, c, p, cp, pp. split; [exact Hget|]. split; [exact Ic|].
  split; [exact Ip|]. apply Hneg. lra.
Defined.

Lemma rank_ties_keep_candidate_order_witness :
  let d := in_date Sample.march in
  let nifty_ret := RelativeRank.period_return (Some 110%Q) (Some 100%Q) in
  let tie := fun e => Num.eqb (RelativeRank.rs_ratio e) (Fin 2) in
  RelativeRank.stock_rs_data Sample.priced d (Calendar.months_back 1 d) nifty_ret
    (candidates Sample.march) = Ok Fixture.march_entries
  /\ map RelativeRank.stock (filter tie Fixture.march_entries) = ["A"; "D"]%string
  /\ filter tie (RelativeRank.sort_by_ratio Fixture.march_entries)
     = filter tie Fixture.march_entries
  /\ map RelativeRank.stock (RelativeRank.sort_by_ratio Fixture.march_entries)
     = ["C"; "A"; "D"]%string.
Proof.
  intros d nifty_ret tie.
  assert (H : RelativeRank.stock_rs_data Sample.priced d (Calendar.months_back 1 d)
                nifty_ret (candidates Sample.march) = Ok Fixture.march_entries)
    by (vm_compute; reflexivity).
  destruct (rank_ties_keep_candidate_order Sample.priced d (Calendar.months_back 1 d)
              nifty_ret (candidates Sample.march) Fixture.march_entries H)
    as (_ & Hstable & _).
  split; [exact H|]. split; [vm_compute; reflexivity|].
  split; [exact (Hstable (Fin 2))|vm_compute; reflexivity].
Defined.

Lemma top_stocks_are_the_best_witness :
  let d := in_date Sample.march in
  let nifty_ret := RelativeRank.period_return (Some 110%Q) (Some 100%Q) in
  let top := RelativeRank.top_stocks 2 Fixture.march_entries in
  let rest := skipn 2 (RelativeRank.sort_by_ratio Fixture.march_entries) in
  map RelativeRank.stock top = ["C"; "A"]%string
  /\ map RelativeRank.stock rest = ["D"]%string
  /\ length top = 2%nat
  /\ Permutation (top ++ rest) Fixture.march_entries
  /\ forall e e', In e top -> In e' rest -> outranks e e'.
Proof.
  intros d nifty_ret top rest.
  assert (H : RelativeRank.stock_rs_data Sample.priced d (Calendar.months_back 1 d)
                nifty_ret (candidates Sample.march) = Ok Fixture.march_entries)
    by (vm_compute; reflexivity).
  destruct (top_stocks_are_the_best 2 Sample.priced d (Calendar.months_back 1 d)
              nifty_ret (candidates Sample.march) Fixture.march_entries H)
    as (Hlen & Hperm & Hbest & _).
  split; [vm_compute; reflexivity|]. split; [vm_compute; reflexivity|].
  split; [exact Hlen|]. split; [exact Hperm|exact Hbest].
Defined.


Lemma summary_counts_the_ranked_entries_witness :
  RelativeRank.ranked 2 1 Sample.priced Sample.nifty_df Sample.march = Ok Sample.march_top
  /\ RelativeRank.formatted_stocks Sample.march_top = "C (5.00), A (2.00)"%string
  /\ RankSummary.stock_count (RelativeRank.formatted_stocks Sample.march_top) = 2%nat.
Proof.
  assert (H : RelativeRank.ranked 2 1 Sample.priced Sample.nifty_df Sample.march
              = Ok Sample.march_top) by (vm_compute; reflexivity).
  destruct (summary_counts_the_ranked_entries 2 1 Sample.priced Sample.nifty_df
              Sample.march Sample.march_top H) as (Hcount & _ & _).
  split; [exact H|]. split; [vm_compute; reflexivity|exact Hcount].
Defined.

Lemma readable_files_are_loaded_witness :
  In ("RISING"%string, Table Sample.rising) Sample.close_folder
  /\ dict_get "RISING" (load_stock_data (SmaCut.with_sma 200) Sample.close_folder)
     = Some (SmaCut.with_sma 200 Sample.rising)
  /\ map fst (load_stock_data (SmaCut.with_sma 200) Sample.close_folder)
     = ["RISING"; "FALLING"]%string.
Proof.
  assert (Hin : In ("RISING"%string, Table Sample.rising) Sample.close_folder)
    by (left; reflexivity).
  assert (Hstems : NoDup (map fst Sample.close_folder))
    by (apply NoDup_names_checked; vm_compute; reflexivity).
  assert (Hrows : Sample.rising <> []) by (vm_compute; discriminate).
  destruct (readable_files_are_loaded (SmaCut.with_sma 200) Sample.close_folder
              "RISING" Sample.rising Hstems Hin eq_refl Hrows) as (Hget & Hkeys & _).
  split; [exact Hin|]. split; [exact Hget|]. rewrite Hkeys. vm_compute. reflexivity.
Defined.


Lemma liquidity_run_outcome_witness :
  let sd := VolumeCut.stock_data VolumeCut.ROLLING_WINDOW Sample.volume_folder in
  VolumeCut.volume_cut Sample.volume_folder = Ok Sample.volume_rows
  /\ length Sample.volume_rows = length (VolumeCut.group_keys (VolumeCut.all_dates sd))
  /\ map date Sample.volume_rows = map Text.strftime (VolumeCut.month_end_dates sd)
  /\ exists out, VolumeCut.volume_cut Sample.volume_folder = Ok out.
Proof.
  intro sd.
  assert (H : VolumeCut.volume_cut Sample.volume_folder = Ok Sample.volume_rows)
    by (vm_compute; reflexivity).
  destruct (liquidity_run_outcome Sample.volume_folder) as (_ & Tout & Ttotal).
  destruct (Tout _ H) as (_ & Hlen & Hdates).
  split; [exact H|]. split; [exact Hlen|]. split; [exact Hdates|].
  apply Ttotal.
  - vm_compute. discriminate.
  - intros [k df] I. cbn [snd]. apply (frames_checked sd) with (name := k).
    + vm_compute. reflexivity.
    + apply dict_get_unique; [|exact I].
      apply NoDup_names_checked. vm_compute. reflexivity.
Defined.


Lemma comparison_pairs_each_month_with_itself_witness :
  let sd := SmaCut.stock_data SmaCut.SMA_WINDOW Sample.close_folder in
  let first_valid := Sample.at_open 18276 + Calendar.warmup 200 in
  let comparison := Comparison.comparison_df first_valid Fixture.counted_input
                      Sample.cut_rows in
  map Comparison.volume_count comparison = [3; 0; 2; 1]
  /\ map Comparison.sma_count comparison = [1; 0; 1; 0]
  /\ Forall2
       (fun row c =>
          Comparison.cmp_date c = date row
          /\ Comparison.sma_count c = Z.of_nat (count row))
       Sample.cut_rows comparison.
Proof.
  intros sd first_valid comparison.
  assert (Hfv : first_valid_date 200 sd = Ok first_valid) by (vm_compute; reflexivity).
  assert (Hout : results SmaCut.condition 200 sd (map fst Fixture.counted_input)
                 = Ok Sample.cut_rows) by (vm_compute; reflexivity).
  assert (Hrep : forall x, In x Fixture.counted_input -> representable (in_date (fst x))).
  { intros x I.
    apply (representable_checked (map (fun x => in_date (fst x)) Fixture.counted_input));
      [vm_compute; reflexivity|].
    apply (in_map (fun x => in_date (fst x))). exact I. }
  assert (Hdays : NoDup (map (fun x => Calendar.date_of (in_date (fst x)))
                           Fixture.counted_input))
    by (apply NoDup_checked; vm_compute; reflexivity).
  assert (Hcount : forall x, In x Fixture.counted_input ->
                     snd x = Z.of_nat (length (candidates (fst x)))).
  { intros x I. repeat (destruct I as [<-|I]; [vm_compute; reflexivity|]). destruct I. }
  destruct (comparison_pairs_each_month_with_itself _ SmaCut.condition 200 sd
              Fixture.counted_input first_valid Sample.cut_rows
              Hfv Hout Hrep Hdays Hcount) as (_ & T).
  split; [vm_compute; reflexivity|]. split; [vm_compute; reflexivity|exact T].
Defined.
